(** * qcore.imdb: the intensity-measure database

    A shallow embedding of [qcore/imdb.py]: the SQLite store built by
    [create_imdb], the list of measures [ims], the per-station query
    [station_ims] with its CSV cache, and the station look-ups
    [closest_station] and [station_details].

    Modelling conventions.
    - A Python exception is a value of [exn]; a call that may raise returns
      [result A].
    - SQLite tables are lists of rows in insertion order.  The constraints
      written in the [CREATE TABLE] statements ([UNIQUE], [NOT NULL],
      [PRIMARY KEY AUTOINCREMENT]) are checked by the insert functions.
      The value tables are found by name, and SQLite ignores the case of
      ASCII letters in the name of a table.
    - Python [dict]s ([station_ll], [station_ids], [sink]) are [gmap]s.
    - IM values are binary64 floats.  [sqlite3] binds a NaN as SQL [NULL].
    - A pandas frame is a list of column names and a list of labelled rows;
      every measure column is numeric (dtype float64), as in IM_calc output. *)

From Stdlib Require Import ZArith Floats String List Lia.
From stdpp Require Import gmap strings list fin_maps sorting.

Open Scope string_scope.
Open Scope list_scope.

(** ** Exceptions and fallible computations *)

Inductive exn : Type :=
| KeyError
| IndexError
| ValueError
| ParserError        (* pandas.errors.ParserError / EmptyDataError *)
| IntegrityError     (* sqlite3.IntegrityError *)
| OperationalError.  (* sqlite3.OperationalError *)

Inductive result (A : Type) : Type :=
| Ok (a : A)
| Raise (e : exn).
Arguments Ok {A} a.
Arguments Raise {A} e.

#[global] Instance result_ret : MRet result := fun A a => Ok a.
#[global] Instance result_bind : MBind result := fun A B f m =>
  match m with
  | Ok a => f a
  | Raise e => Raise e
  end.

Fixpoint foldM {A S : Type} (f : S → A → result S) (s : S) (l : list A)
  : result S :=
  match l with
  | [] => Ok s
  | a :: l' => s' ← f s a; foldM f s' l'
  end.

(** ** The store *)

Record station_row := StationRow {
  stn_id : Z;
  stn_name : string;
  stn_longitude : string;   (* text taken from the station file *)
  stn_latitude : string
}.

Record simulation_row := SimulationRow {
  sim_id : Z;
  sim_name : string
}.

Record im_row := ImRow {
  row_station_id : Z;
  row_simulation_id : Z;
  row_value : float
}.

(** The tables [ims], [stations] and [simulations], and the value tables,
    each under its name in lower case. *)
Record database := Database {
  ims_tbl : list string;
  stations_tbl : list station_row;
  simulations_tbl : list simulation_row;
  im_tables : gmap string (list im_row)
}.

(** SQLite takes the name of a table without regard to the case of ASCII
    letters: a table is known by its name in lower case. *)
Definition lower (a : Ascii.ascii) : Ascii.ascii :=
  let n := Ascii.nat_of_ascii a in
  if (65 <=? n)%nat && (n <=? 90)%nat then Ascii.ascii_of_nat (n + 32) else a.

Fixpoint sql_name (name : string) : string :=
  match name with
  | EmptyString => EmptyString
  | String a name' => String (lower a) (sql_name name')
  end.

(** Table names already taken when the per-measure tables are created: the
    three fixed tables, and the names starting with [sqlite_], which SQLite
    keeps for itself. *)
Definition reserved_table (im : string) : Prop :=
  sql_name im ∈ ["ims"; "stations"; "simulations"] ∨
  String.prefix "sqlite_" (sql_name im) = true.

#[global] Instance reserved_table_dec (im : string) :
  Decision (reserved_table im).
Proof. unfold reserved_table. apply _. Defined.

(** [INSERT INTO ims(im_name) VALUES (?)], column [TEXT NOT NULL UNIQUE]. *)
Definition insert_im (acc : list string) (im : string) : result (list string) :=
  if decide (im ∈ acc) then Raise IntegrityError else Ok (acc ++ [im]).

(** [CREATE TABLE `%s` (station_id, simulation_id, value FLOAT NOT NULL)]. *)
Definition create_im_table (tbls : gmap string (list im_row)) (im : string)
  : result (gmap string (list im_row)) :=
  if decide (reserved_table im) then Raise OperationalError
  else match tbls !! sql_name im with
       | Some _ => Raise OperationalError
       | None => Ok (<[sql_name im := []]> tbls)
       end.

(** [__init_db(conn, ims)], with [conn] the connection [create_imdb] opens
    on the file it has just removed: no table exists yet. *)
Definition __init_db (ims : list string) : result database :=
  names ← foldM insert_im [] ims;
  tbls ← foldM create_im_table ∅ ims;
  Ok {| ims_tbl := names; stations_tbl := []; simulations_tbl := [];
        im_tables := tbls |}.

(** [lastrowid] of an [INTEGER PRIMARY KEY AUTOINCREMENT] table from which
    nothing is ever deleted. *)
Definition next_rowid {A : Type} (tbl : list A) : Z := Z.of_nat (length tbl) + 1.

(** [__add_simulation(conn, simulation_name)]; [name] is [UNIQUE]. *)
Definition __add_simulation (db : database) (simulation_name : string)
  : result (database * Z) :=
  if decide (simulation_name ∈ map sim_name (simulations_tbl db))
  then Raise IntegrityError
  else
    let id := next_rowid (simulations_tbl db) in
    Ok (Database (ims_tbl db) (stations_tbl db)
          (simulations_tbl db ++ [SimulationRow id simulation_name])
          (im_tables db), id).

(** One round of the loop of [__expand_stations]: insert station [s] and
    record its id in [station_ids]. *)
Definition insert_station (station_ll : gmap string (string * string))
    (st : list station_row * gmap string Z) (s : string)
  : result (list station_row * gmap string Z) :=
  match station_ll !! s with
  | None => Raise KeyError
  | Some (lon, lat) =>
      if decide (s ∈ map stn_name st.1) then Raise IntegrityError
      else
        let id := next_rowid st.1 in
        Ok (st.1 ++ [StationRow id s lon lat], <[s := id]> st.2)
  end.

(** [__expand_stations(conn, station_ids, stations, station_ll)]. *)
Definition __expand_stations (db : database) (station_ids : gmap string Z)
    (stations : list string) (station_ll : gmap string (string * string))
  : result (database * gmap string Z) :=
  let stations_new := filter (λ s, station_ids !! s = None) stations in
  st ← foldM (insert_station station_ll) (stations_tbl db, station_ids)
        stations_new;
  Ok (Database (ims_tbl db) st.1 (simulations_tbl db) (im_tables db), st.2).

(** ** Frames *)

(** The frame returned by [__pandas_loader]: index label and cells of each
    row, the cells in the order of [columns]. *)
Record table := Table {
  columns : list string;
  rows : list (string * list float)
}.

Definition index_values (t : table) : list string := map fst (rows t).

(** Position of the first occurrence of [x]. *)
Fixpoint index_of (x : string) (l : list string) : option nat :=
  match l with
  | [] => None
  | y :: l' => if decide (x = y) then Some 0%nat else S <$> index_of x l'
  end.

(** [table[im].values]; a cell missing at the end of a row reads as NaN. *)
Definition column_values (t : table) (im : string) : result (list float) :=
  match index_of im (columns t) with
  | None => Raise KeyError
  | Some j => Ok (map (λ r, nth j (snd r) nan) (rows t))
  end.

(** [table.loc[labels]]: for each label in turn, every row carrying it. *)
Definition loc_rows (rs : list (string * list float)) (label : string)
  : list (string * list float) :=
  filter (λ r, fst r = label) rs.

Definition loc (t : table) (labels : list string) : result table :=
  if decide (Forall (λ l, l ∈ index_values t) labels)
  then Ok (Table (columns t) (flat_map (loc_rows (rows t)) labels))
  else Raise KeyError.

(** A source file as [pd.read_csv(csv, index_col=0)] sees it. *)
Record csv_row := CsvRow {
  csv_station : string;
  csv_component : string;
  csv_values : list float
}.

Record csv_frame := CsvFrame {
  csv_has_component : bool;      (* is there a column named "component"? *)
  csv_columns : list string;     (* the other columns, in file order *)
  csv_rows : list csv_row
}.

(** [None]: [pd.read_csv] raises. *)
Definition csv_file := option csv_frame.

(** [__pandas_loader(csv)]. *)
Definition __pandas_loader (csv : csv_file) : result table :=
  match csv with
  | None => Raise ParserError
  | Some c =>
      if csv_has_component c
      then Ok (Table (csv_columns c)
                 (map (λ r, (csv_station r, csv_values r))
                    (filter (λ r, csv_component r = "geom") (csv_rows c))))
      else Raise KeyError
  end.

(** [executemany] of [INSERT INTO `im`(station_id, simulation_id, value)]:
    the table must exist and [value] is [NOT NULL]. *)
Definition insert_value (tbl : list im_row) (v : Z * Z * float)
  : result (list im_row) :=
  let '(st, sim, x) := v in
  if PrimFloat.is_nan x then Raise IntegrityError
  else Ok (tbl ++ [ImRow st sim x]).

Definition insert_values (tbls : gmap string (list im_row)) (im : string)
    (values : list (Z * Z * float)) : result (gmap string (list im_row)) :=
  match tbls !! sql_name im with
  | None => Raise OperationalError
  | Some tbl =>
      tbl' ← foldM insert_value tbl values; Ok (<[sql_name im := tbl']> tbls)
  end.

(** [[station_ids[s] for s in table.index.values]]. *)
Definition lookup_ids (station_ids : gmap string Z) (labels : list string)
  : result (list Z) :=
  foldM (λ acc s, match station_ids !! s with
                  | Some id => Ok (acc ++ [id])
                  | None => Raise KeyError
                  end) [] labels.

(** One round of the loop over [table.columns.values] in [__store_ims]. *)
Definition store_column (t : table) (stations simulations : list Z)
    (tbls : gmap string (list im_row)) (im : string)
  : result (gmap string (list im_row)) :=
  vals ← column_values t im;
  insert_values tbls im (zip (zip stations simulations) vals).

(** [__store_ims(conn, table, station_ids, sim_id)]. *)
Definition __store_ims (db : database) (t : table)
    (station_ids : gmap string Z) (sim : Z) : result database :=
  stations ← lookup_ids station_ids (index_values t);
  let n_stat := length stations in
  let simulations := replicate n_stat sim in
  tbls ← foldM (store_column t stations simulations) (im_tables db)
            (columns t);
  Ok (Database (ims_tbl db) (stations_tbl db) (simulations_tbl db) tbls).

(** ** Building the store: [create_imdb] *)

(** What the build prints, and what a query prints. *)
Inductive message : Type :=
| MsgNoStations (sim : string)         (* Simulation contains no stations of interest: %s *)
| MsgProgress (sim : Z) (total : nat)  (* CSV %d of %d... *)
| MsgComplete                          (* CSV loading complete. *)
| MsgStationNotFound (station : string). (* station not found in IM DB: %s *)

(** One file found by [glob]: the simulation name
    [splitext(basename(path))[0]] and what the file holds. *)
Record source := Source {
  src_sim : string;
  src_csv : csv_file
}.

(** The station file, each line already cut by [line.split()]. *)
Definition read_station_file (lines : list (list string))
  : result (gmap string (string * string)) :=
  foldM (λ station_ll toks,
           match toks with
           | [lon; lat; name] => Ok (<[name := (lon, lat)]> station_ll)
           | _ => Raise ValueError
           end) ∅ lines.

(** Program points of [create_imdb] from line 196 on. *)
Inductive pc : Type :=
| AtPrefetch (k : nat)             (* line 199, [i] about to become [k] *)
| AtInit                           (* lines 202-204 *)
| AtGet (i : nat)                  (* lines 206-208 *)
| AtDel (i : nat) (c : table)      (* line 209 *)
| AtRefill (i : nat) (c : table)   (* lines 210-213 *)
| AtCommit (i : nat) (c : table)   (* lines 216-225 *)
| AtDone                           (* after line 228 *)
| AtRaised (e : exn).              (* an exception left [create_imdb] *)

Record config := Config {
  cf_pc : pc;
  cf_sink : gmap nat (result table);   (* outstanding [AsyncResult]s *)
  cf_db : database;                    (* what has been committed *)
  cf_station_ids : gmap string Z;
  cf_out : list message
}.

(** The file [create_imdb] has just removed and reopened. *)
Definition no_tables : database := Database [] [] [] ∅.

Section Build.
Variable station_ll : gmap string (string * string).
Variable csvs : list source.
Variable nproc : nat.

(** [step = min(nproc, len(csvs))]. *)
Definition step_size : nat := Nat.min nproc (length csvs).

Definition listed_stations (stations : list string) : list string :=
  filter (λ s, is_Some (station_ll !! s)) stations.

(** [pool.apply_async(__pandas_loader, (csvs[k],))]: the task's outcome is
    what [__pandas_loader] returns or raises on that file. *)
Definition apply_async (k : nat) : option (result table) :=
  __pandas_loader ∘ src_csv <$> csvs !! k.

(** Lines 216-225 for file [i] with frame [c], from the committed store
    [db].  Every helper commits before it returns, so an exception leaves
    the store as the last helper that returned left it. *)
Definition commit (i : nat) (c : table) (db : database)
    (station_ids : gmap string Z) (out : list message)
  : database * gmap string Z * list message * option exn :=
  let interesting_stations := listed_stations (index_values c) in
  match csvs !! i with
  | None => (db, station_ids, out, Some IndexError)
  | Some src =>
    if decide (length interesting_stations = 0)%nat
    then (db, station_ids, out ++ [MsgNoStations (src_sim src)], None)
    else
      match __add_simulation db (src_sim src) with
      | Raise e => (db, station_ids, out, Some e)
      | Ok (db1, sim) =>
        match __expand_stations db1 station_ids interesting_stations
                station_ll with
        | Raise e => (db1, station_ids, out, Some e)
        | Ok (db2, station_ids') =>
          match t ← loc c interesting_stations;
                __store_ims db2 t station_ids' sim with
          | Raise e => (db2, station_ids', out, Some e)
          | Ok db3 =>
              (db3, station_ids', out ++ [MsgProgress sim (length csvs)],
               None)
          end
        end
      end
  end.

Definition goto (p : pc) (cf : config) : config :=
  Config p (cf_sink cf) (cf_db cf) (cf_station_ids cf) (cf_out cf).

Definition step (cf : config) : config :=
  match cf_pc cf with
  | AtPrefetch k =>
      if decide (k < step_size)%nat then
        match apply_async k with
        | None => goto (AtRaised IndexError) cf
        | Some task =>
            Config (AtPrefetch (S k)) (<[k := task]> (cf_sink cf))
              (cf_db cf) (cf_station_ids cf) (cf_out cf)
        end
      else goto AtInit cf
  | AtInit =>
      match cf_sink cf !! 0%nat with
      | None => goto (AtRaised KeyError) cf
      | Some (Raise e) => goto (AtRaised e) cf
      | Some (Ok c0) =>
          match __init_db (columns c0) with
          | Raise e => goto (AtRaised e) cf
          | Ok db => Config (AtGet 0) (cf_sink cf) db ∅ (cf_out cf)
          end
      end
  | AtGet i =>
      if decide (i < length csvs)%nat then
        match cf_sink cf !! i with
        | None => goto (AtRaised KeyError) cf
        | Some (Raise e) => goto (AtRaised e) cf
        | Some (Ok c) => goto (AtDel i c) cf
        end
      else
        Config AtDone (cf_sink cf) (cf_db cf) (cf_station_ids cf)
          (cf_out cf ++ [MsgComplete])
  | AtDel i c =>
      Config (AtRefill i c) (delete i (cf_sink cf)) (cf_db cf)
        (cf_station_ids cf) (cf_out cf)
  | AtRefill i c =>
      match apply_async (i + step_size) with
      | Some task =>
          Config (AtCommit i c) (<[(i + step_size)%nat := task]> (cf_sink cf))
            (cf_db cf) (cf_station_ids cf) (cf_out cf)
      | None => goto (AtCommit i c) cf      (* except IndexError: pass *)
      end
  | AtCommit i c =>
      match commit i c (cf_db cf) (cf_station_ids cf) (cf_out cf) with
      | (db, station_ids, out, None) =>
          Config (AtGet (S i)) (cf_sink cf) db station_ids out
      | (db, station_ids, out, Some e) =>
          Config (AtRaised e) (cf_sink cf) db station_ids out
      end
  | AtDone => cf
  | AtRaised _ => cf
  end.

(** [Pool(nproc)] raises [ValueError] unless [nproc >= 1]. *)
Definition init_config : config :=
  Config (if decide (nproc = 0)%nat then AtRaised ValueError else AtPrefetch 0)
    ∅ no_tables ∅ [].

Definition run (n : nat) : config := Nat.iter n step init_config.

Definition reachable (cf : config) : Prop := ∃ n, run n = cf.

(** Enough steps for the prefetch loop, the schema, four program points
    per file and the exit of the main loop. *)
Definition fuel : nat := step_size + 4 * length csvs + 3.

Definition build : config := run fuel.
End Build.

(** [create_imdb(runs_dir, station_file, db_file, nproc)]: the final
    configuration, whose [cf_pc] is [AtDone] or [AtRaised]. *)
Definition create_imdb (station_file : list (list string))
    (csvs : list source) (nproc : nat) : config :=
  match read_station_file station_file with
  | Raise e => Config (AtRaised e) ∅ no_tables ∅ []
  | Ok station_ll => build station_ll csvs nproc
  end.

(** ** Listing the measures: [ims] *)

(** [ims(imdb_file, fmt)]: the measures of the store, as they are stored
    or, with [fmt = "file"], as IM_calc names them in file names. *)

(** The characters [.] and [p]. *)
Definition char_dot : Ascii.ascii := Ascii.ascii_of_nat 46.
Definition char_p : Ascii.ascii := Ascii.ascii_of_nat 112.

(** [s.replace(".", "p")]. *)
Fixpoint replace_dot (s : string) : string :=
  match s with
  | EmptyString => EmptyString
  | String a s' =>
      String (if Ascii.eqb a char_dot then char_p else a) (replace_dot s')
  end.

(** [im if not im.startswith("pSA") else im[1:].replace(".", "p")]. *)
Definition fmt_file (im : string) : string :=
  if String.prefix "pSA" im
  then match im with
       | EmptyString => EmptyString
       | String _ rest => replace_dot rest
       end
  else im.

Definition ims (db : database) (fmt : string) : list string :=
  if decide (fmt = "file") then map fmt_file (ims_tbl db) else ims_tbl db.

(** ** Querying one station: [station_ims] *)

(** The frame [pd.DataFrame(im_values, index=gm_names, columns=im_names)],
    kept by column.  A cache file holds such a frame; how pandas prints and
    re-reads a float in CSV text is not part of the model. *)
Record dataframe := DataFrame {
  df_index : list string;
  df_cols : list (string * list float)
}.

Inductive answer : Type :=
| AFrame (df : dataframe)                           (* the whole frame *)
| ASeries (index : list string) (values : list float)   (* [df[im]] *)
| ANone.                                            (* a bare [return] *)

(** What a call does to the world outside its own variables. *)
Inductive effect : Type :=
| CacheRead (station : string)     (* [pd.read_csv(csv, index_col=0)] *)
| CacheWrite (station : string)    (* [df.to_csv(csv)] *)
| StoreSelect                      (* a [SELECT] on the caller's connection *)
| PoolMap (workers tasks : nat).   (* [pool.map], one connection per task *)

Record outcome := Outcome {
  o_result : result answer;
  o_db : database;
  o_cache : gmap string dataframe;
  o_out : list message;
  o_effects : list effect
}.

(** [ORDER BY simulation_id] and [ORDER BY id]. *)
Definition by_simulation_id (r1 r2 : im_row) : Prop :=
  (row_simulation_id r1 ≤ row_simulation_id r2)%Z.
Definition by_sim_id (s1 s2 : simulation_row) : Prop :=
  (sim_id s1 ≤ sim_id s2)%Z.

#[global] Instance by_simulation_id_dec : RelDecision by_simulation_id :=
  λ r1 r2, decide (row_simulation_id r1 ≤ row_simulation_id r2)%Z.
#[global] Instance by_sim_id_dec : RelDecision by_sim_id :=
  λ s1 s2, decide (sim_id s1 ≤ sim_id s2)%Z.

(** [SELECT simulation_id, value FROM im WHERE station_id = %d
     ORDER BY simulation_id]. *)
Definition select_station (tbl : list im_row) (station : Z) : list im_row :=
  merge_sort by_simulation_id (filter (λ r, row_station_id r = station) tbl).

(** The loop [station_values[:, r] = row] over an array of [n_sim] columns
    of zeros: a row past the end raises, columns never written stay zero. *)
Definition fill_values (n_sim : nat) (rs : list im_row)
  : result (list Z * list float) :=
  if decide (length rs ≤ n_sim)%nat
  then Ok (map row_simulation_id rs ++ replicate (n_sim - length rs) 0%Z,
           map row_value rs ++ replicate (n_sim - length rs) 0%float)
  else Raise IndexError.

(** [__im_at_station(imdb_file, im, station_id, n_sim)]. *)
Definition __im_at_station (db : database) (im : string) (station : Z)
    (n_sim : nat) : result (list Z * list float) :=
  match im_tables db !! sql_name im with
  | None => Raise OperationalError
  | Some tbl => fill_values n_sim (select_station tbl station)
  end.

Fixpoint mapM {A B : Type} (f : A → result B) (l : list A) : result (list B) :=
  match l with
  | [] => Ok []
  | a :: l' => b ← f a; bs ← mapM f l'; Ok (b :: bs)
  end.

(** [SELECT name FROM simulations WHERE id in (...) ORDER BY id]. *)
Definition select_names (db : database) (simulation_ids : list Z)
  : list string :=
  map sim_name
    (merge_sort by_sim_id
       (filter (λ s, sim_id s ∈ simulation_ids) (simulations_tbl db))).

(** [dataframe[im]] when [im] is given, the frame itself otherwise. *)
Definition project (df : dataframe) (im : option string) : result answer :=
  match im with
  | None => Ok (AFrame df)
  | Some name =>
      match index_of name (map fst (df_cols df)) with
      | None => Raise KeyError
      | Some j => Ok (ASeries (df_index df) (nth j (map snd (df_cols df)) []))
      end
  end.

(** Lines 269-322: the frame assembled from the store, with the effects of
    assembling it, or the exception raised on the way. *)
Definition assemble (db : database) (station_id : Z) (nproc : option nat)
  : result dataframe * list effect :=
  let im_names := ims_tbl db in
  let n_im := length im_names in
  match im_names with
  | [] => (Raise IndexError, [StoreSelect; StoreSelect])
  | im0 :: _ =>
    match im_tables db !! sql_name im0 with
    | None => (Raise OperationalError, [StoreSelect; StoreSelect; StoreSelect])
    | Some tbl0 =>
      let n_sim := length (filter (λ r, row_station_id r = station_id) tbl0) in
      let workers := Nat.min (default n_im nproc) n_im in
      if decide (workers = 0)%nat
      then (Raise ValueError, [StoreSelect; StoreSelect; StoreSelect])
      else
        let fx := [StoreSelect; StoreSelect; StoreSelect; PoolMap workers n_im] in
        match mapM (λ im, __im_at_station db im station_id n_sim) im_names with
        | Raise e => (Raise e, fx)
        | Ok id_vals =>
          let simulation_ids := (nth 0 id_vals ([], [])).1 in
          let gm_names := select_names db simulation_ids in
          if decide (length gm_names = n_sim)
          then (Ok (DataFrame gm_names (zip im_names (map snd id_vals))),
                fx ++ [StoreSelect])
          else (Raise ValueError, fx ++ [StoreSelect])
        end
    end
  end.

(** [station_ims(imdb_file, station, im, nproc)] on the store [db] with the
    cache directory [cache] (station name to cached frame). *)
Definition station_ims (db : database) (cache : gmap string dataframe)
    (station : string) (im : option string) (nproc : option nat) : outcome :=
  match cache !! station with
  | Some dataframe =>
      Outcome (project dataframe im) db cache [] [CacheRead station]
  | None =>
      match filter (λ st, stn_name st = station) (stations_tbl db) with
      | [] =>
          Outcome (Ok ANone) db cache [MsgStationNotFound station]
            [StoreSelect]
      | st :: _ =>
          match assemble db (stn_id st) nproc with
          | (Raise e, fx) => Outcome (Raise e) db cache [] fx
          | (Ok df, fx) =>
              Outcome (project df im) db (<[station := df]> cache) []
                (fx ++ [CacheWrite station])
          end
      end
  end.

(** ** Station look-ups: [closest_station] and [station_details] *)

(** A field of NumPy format [S7] given a Python [str]: the text is encoded
    as ASCII ([UnicodeEncodeError], a [ValueError], otherwise), cut to seven
    bytes, and read back without its trailing NUL bytes. *)
Fixpoint is_ascii (s : string) : bool :=
  match s with
  | EmptyString => true
  | String a s' => (Ascii.nat_of_ascii a <? 128)%nat && is_ascii s'
  end.

Fixpoint rstrip_nul (s : string) : string :=
  match s with
  | EmptyString => EmptyString
  | String a s' =>
      match rstrip_nul s' with
      | EmptyString =>
          if Ascii.eqb a Ascii.zero then EmptyString else String a EmptyString
      | t => String a t
      end
  end.

Definition S7 (name : string) : result string :=
  if is_ascii name then Ok (rstrip_nul (String.substring 0 7 name))
  else Raise ValueError.

(** A record of [station_details]: fields [id], [name], [lon], [lat]. *)
Record station_rec (num : Type) := StationRec {
  rec_id : Z;
  rec_name : string;
  rec_lon : num;
  rec_lat : num
}.
Arguments StationRec {num}.
Arguments rec_id {num}.
Arguments rec_name {num}.
Arguments rec_lon {num}.
Arguments rec_lat {num}.

(** [station_details] returns one record or the whole array. *)
Inductive details (num : Type) : Type :=
| OneStation (r : station_rec num)
| Stations (rs : list (station_rec num)).
Arguments OneStation {num}.
Arguments Stations {num}.

Definition details_records {num : Type} (d : details num)
  : list (station_rec num) :=
  match d with
  | OneStation r => [r]
  | Stations rs => rs
  end.

Section Stations.
(** NumPy's floating-point numbers and the operations [closest_station]
    applies to them, taken as given. *)
Variable num : Type.
Variable f4_of_text : string → result num.   (* a stored coordinate as [f4] *)
Variable of_float : float → num.             (* the Python floats [lon], [lat] *)
Variable of_Z : Z → num.
Variable to_f4 : num → num.                  (* a store into an [f4] field *)
Variables add sub mul div : num → num → num.
Variables np_sin np_cos np_radians np_sqrt : num → num.
Variable np_arctan2 : num → num → num.
Variable earth_radius : num.                 (* 6378.139 *)
Variable precedes : num → num → bool.        (* strictly earlier in [np.argmin]'s order *)

(** One tuple of [c.fetchall()] turned into a record of the array. *)
Definition to_record (st : station_row) : result (station_rec num) :=
  name ← S7 (stn_name st);
  lon ← f4_of_text (stn_longitude st);
  lat ← f4_of_text (stn_latitude st);
  Ok (StationRec (stn_id st) name lon lat).

Definition square (x : num) : num := mul x x.
Definition half (x : num) : num := div x (of_float 2).

(** Lines 347-353 for one record. *)
Definition haversine (lon lat : float) (r : station_rec num) : num :=
  let d :=
    add (square (np_sin (half (np_radians (sub (rec_lat r) (of_float lat))))))
        (mul (mul (np_cos (np_radians (of_float lat)))
                  (np_cos (np_radians (rec_lat r))))
             (square (np_sin (half (np_radians
                                      (sub (rec_lon r) (of_float lon))))))) in
  to_f4 (mul (mul earth_radius (of_float 2))
             (np_arctan2 (np_sqrt d) (np_sqrt (sub (of_Z 1) d)))).

(** [np.argmin]: the first position holding the least element; it raises
    [ValueError] on an empty array. *)
Fixpoint argmin_from (best_i : nat) (best : num) (i : nat) (l : list num)
  : nat :=
  match l with
  | [] => best_i
  | x :: l' =>
      if precedes x best then argmin_from i x (S i) l'
      else argmin_from best_i best (S i) l'
  end.

Definition argmin (l : list num) : result nat :=
  match l with
  | [] => Raise ValueError
  | x :: l' => Ok (argmin_from 0 x 1 l')
  end.

(** [closest_station(imdb_file, lon, lat)]: the record and its [dist]. *)
Definition closest_station (db : database) (lon lat : float)
  : result (station_rec num * num) :=
  r ← mapM to_record (stations_tbl db);
  let dist := map (haversine lon lat) r in
  i ← argmin dist;
  match r !! i, dist !! i with
  | Some ri, Some di => Ok (ri, di)
  | _, _ => Raise IndexError
  end.

(** [station_details(imdb_file, station_name, station_id)]. *)
Definition station_details (db : database) (station_name : option string)
    (station_id : option Z) : result (details num) :=
  let selected :=
    match station_name, station_id with
    | Some name, _ => filter (λ st, stn_name st = name) (stations_tbl db)
    | None, Some id => filter (λ st, stn_id st = id) (stations_tbl db)
    | None, None => stations_tbl db
    end in
  r ← mapM to_record selected;
  match r with
  | [r0] => Ok (OneStation r0)
  | _ => Ok (Stations r)
  end.
End Stations.

(** ** Properties of stores and configurations *)

(** The (station identity, simulation identity) pair of a value row. *)
Definition pair_of (r : im_row) : Z * Z :=
  (row_station_id r, row_simulation_id r).

Definition unique_pairs (tbl : list im_row) : Prop := NoDup (map pair_of tbl).

Definition values_present (tbl : list im_row) : Prop :=
  Forall (λ r, PrimFloat.is_nan (row_value r) = false) tbl.

(** No two columns of the file name the same table: their labels differ,
    and by more than the case of letters. *)
Definition distinct_columns (src : source) : Prop :=
  ∀ c, __pandas_loader (src_csv src) = Ok c → NoDup (map sql_name (columns c)).

(** Among the retained rows of the file, no station of interest occurs
    twice. *)
Definition stations_once (station_ll : gmap string (string * string))
    (src : source) : Prop :=
  ∀ c, __pandas_loader (src_csv src) = Ok c →
       NoDup (listed_stations station_ll (index_values c)).

(** The task whose [get()] the configuration is about to call. *)
Definition awaited (csvs : list source) (cf : config) : option nat :=
  match cf_pc cf with
  | AtInit => Some 0%nat
  | AtGet i => if decide (i < length csvs)%nat then Some i else None
  | _ => None
  end.

Definition final (cf : config) : Prop :=
  match cf_pc cf with
  | AtDone | AtRaised _ => True
  | _ => False
  end.

(** Identities handed out by [AUTOINCREMENT]: row [k] has identity [k+1]. *)
Definition numbered {A : Type} (id : A → Z) (tbl : list A) : Prop :=
  ∀ k row, tbl !! k = Some row → id row = (Z.of_nat k + 1)%Z.

(** How many files the main loop has gone past when it is at a program
    point; an exception may have come at any file. *)
Definition position (csvs : list source) (p : pc) : nat :=
  match p with
  | AtPrefetch _ | AtInit => 0
  | AtGet i | AtDel i _ | AtRefill i _ | AtCommit i _ => i
  | AtDone | AtRaised _ => length csvs
  end.

(** The prefetch window: which keys [sink] holds at each program point.
    Every task in [sink] is the task of the file with its key, and every
    file the loop has gone past was parsed. *)
Definition sink_inv (csvs : list source) (nproc : nat) (cf : config) : Prop :=
  let w := step_size csvs nproc in
  let n := length csvs in
  let keys : gset nat := dom (cf_sink cf) in
  (∀ k task, cf_sink cf !! k = Some task → apply_async csvs k = Some task) ∧
  match cf_pc cf with
  | AtPrefetch k => (0 < nproc ∧ k ≤ w)%nat ∧ keys = set_seq 0 k
  | AtInit => (0 < nproc)%nat ∧ keys = set_seq 0 w
  | AtGet i => (0 < nproc ∧ i ≤ n)%nat ∧ keys = set_seq i (Nat.min w (n - i))
  | AtDel i c =>
      (0 < nproc ∧ i < n)%nat ∧ keys = set_seq i (Nat.min w (n - i)) ∧
      apply_async csvs i = Some (Ok c)
  | AtRefill i c =>
      (0 < nproc ∧ i < n)%nat ∧
      keys = set_seq (S i) (Nat.min w (n - i) - 1) ∧
      apply_async csvs i = Some (Ok c)
  | AtCommit i c =>
      (0 < nproc ∧ i < n)%nat ∧
      keys = set_seq (S i) (Nat.min w (n - S i)) ∧
      apply_async csvs i = Some (Ok c)
  | AtDone => keys = ∅
  | AtRaised _ => ∃ lo len, (len ≤ w)%nat ∧ keys = set_seq lo len
  end ∧
  match cf_pc cf with
  | AtRaised _ => True
  | p => ∀ k, (k < position csvs p)%nat →
              ∃ c, apply_async csvs k = Some (Ok c)
  end.

(** The station registry and the dictionary [station_ids] that mirrors it. *)
Definition stations_inv (stations : list station_row)
    (station_ids : gmap string Z) : Prop :=
  numbered stn_id stations ∧
  ∀ s id, station_ids !! s = Some id →
          ∃ k lon lat, stations !! k = Some (StationRow id s lon lat).

(** What holds of the store whatever the files are. *)
Definition store_inv (csvs : list source) (cf : config) : Prop :=
  numbered sim_id (simulations_tbl (cf_db cf)) ∧
  map sim_name (simulations_tbl (cf_db cf))
    `sublist_of` map src_sim (take (position csvs (cf_pc cf)) csvs) ∧
  stations_inv (stations_tbl (cf_db cf)) (cf_station_ids cf) ∧
  ∀ im tbl, im_tables (cf_db cf) !! im = Some tbl → values_present tbl.

(** Rows of a value table refer to simulations registered so far. *)
Definition pairs_inv (db : database) : Prop :=
  ∀ im tbl, im_tables db !! im = Some tbl →
    unique_pairs tbl ∧
    Forall (λ r, (row_simulation_id r ≤ Z.of_nat (length (simulations_tbl db)))%Z)
      tbl.

(** An upper bound on the steps left before a final configuration. *)
Definition remaining (csvs : list source) (nproc : nat) (p : pc) : nat :=
  let w := step_size csvs nproc in
  let n := length csvs in
  match p with
  | AtPrefetch k => (w - k) + 4 * n + 3
  | AtInit => 4 * n + 2
  | AtGet i => 4 * (n - i) + 1
  | AtDel i _ => 4 * (n - i)
  | AtRefill i _ => 4 * (n - i) - 1
  | AtCommit i _ => 4 * (n - i) - 2
  | AtDone | AtRaised _ => 0
  end.

(** The row that [INSERT INTO im(station_id, simulation_id, value)] adds. *)
Definition value_row (v : Z * Z * float) : im_row := ImRow v.1.1 v.1.2 v.2.

(** While the task of the first file has failed, the build is still before
    the schema or has raised that failure. *)
Definition first_failed (e : exn) (cf : config) : Prop :=
  cf_db cf = no_tables ∧
  match cf_pc cf with
  | AtPrefetch _ | AtInit => True
  | AtRaised e' => e' = e
  | _ => False
  end.

(** A returned record stands for a stored station and carries its name cut
    to seven bytes. *)
Definition cut_name {num : Type} (db : database) (r : station_rec num) : Prop :=
  ∃ st, st ∈ stations_tbl db ∧ rec_id r = stn_id st ∧
        S7 (stn_name st) = Ok (rec_name r) ∧
        (String.length (rec_name r) ≤ 7)%nat ∧
        ((7 < String.length (stn_name st))%nat → rec_name r ≠ stn_name st).

(** The rows of the frame [df] of a station follow a sorted list of
    simulation identities: the labels are the names of these simulations,
    the first column holds the values stored with them, and each column
    holds values stored for the station in that order of identity. *)
Definition in_identity_order (db : database) (station : Z) (df : dataframe)
  : Prop :=
  ∃ ids,
    Sorted Z.le ids ∧
    Forall2 (λ id name, SimulationRow id name ∈ simulations_tbl db)
      ids (df_index df) ∧
    (∃ im0 tbl0 vals0,
       head (ims_tbl db) = Some im0 ∧
       im_tables db !! sql_name im0 = Some tbl0 ∧
       head (df_cols df) = Some (im0, vals0) ∧
       Forall2 (λ id v, ImRow station id v ∈ tbl0) ids vals0) ∧
    (∀ im vals, (im, vals) ∈ df_cols df →
       ∃ tbl ids', im_tables db !! sql_name im = Some tbl ∧
         Sorted Z.le ids' ∧
         Forall2 (λ id v, ImRow station id v ∈ tbl)
           ids' (take (length ids') vals)).

(** The loop has not gone past the file with index [i], and the simulations
    registered come from files before it. *)
Definition stopped_before (csvs : list source) (i : nat) (cf : config) : Prop :=
  map sim_name (simulations_tbl (cf_db cf))
    `sublist_of` map src_sim (take i csvs) ∧
  match cf_pc cf with
  | AtRaised _ => True
  | p => (position csvs p ≤ i)%nat
  end.

(** The file has a station of interest among its retained rows. *)
Definition has_stations (station_ll : gmap string (string * string))
    (src : source) : Prop :=
  match __pandas_loader (src_csv src) with
  | Ok c => listed_stations station_ll (index_values c) ≠ []
  | Raise _ => False
  end.

#[global] Instance has_stations_dec station_ll src :
  Decision (has_stations station_ll src).
Proof. unfold has_stations. destruct (__pandas_loader _); apply _. Defined.

(** Unless an exception has come, the simulations registered are the files
    gone past that have a station of interest, in the order of [glob]. *)
Definition registered (station_ll : gmap string (string * string))
    (csvs : list source) (cf : config) : Prop :=
  match cf_pc cf with
  | AtRaised _ => True
  | p => map sim_name (simulations_tbl (cf_db cf))
         = map src_sim
             (filter (has_stations station_ll) (take (position csvs p) csvs))
  end.

(** ** Properties of builds, stores and look-ups *)

Definition whole_name (name : string) : Prop :=
  is_ascii name = true ∧ (String.length name ≤ 7)%nat ∧
  ∀ k, String.get k name ≠ Some Ascii.zero.

(** The record [r] holds what the row [st] of the registry holds: its
    identity, its coordinates converted to [f4], and its name, whole when
    the stored name is ASCII text of at most seven bytes without a NUL. *)
Definition stands_for {num : Type} (f4_of_text : string → result num)
    (st : station_row) (r : station_rec num) : Prop :=
  rec_id r = stn_id st ∧
  f4_of_text (stn_longitude st) = Ok (rec_lon r) ∧
  f4_of_text (stn_latitude st) = Ok (rec_lat r) ∧
  S7 (stn_name st) = Ok (rec_name r) ∧
  (whole_name (stn_name st) → rec_name r = stn_name st).

(** The ways through lines 216-225 for file [i] with frame [c]. *)
Inductive commit_case (ll : gmap string (string * string)) (csvs : list source)
    (i : nat) (c : table) (db : database) (ids : gmap string Z)
    (out : list message)
  : database → gmap string Z → list message → option exn → Prop :=
| commit_no_file :
    csvs !! i = None →
    commit_case ll csvs i c db ids out db ids out (Some IndexError)
| commit_skipped src :
    csvs !! i = Some src →
    listed_stations ll (index_values c) = [] →
    commit_case ll csvs i c db ids out
      db ids (out ++ [MsgNoStations (src_sim src)]) None
| commit_simulation_failed src e :
    csvs !! i = Some src →
    listed_stations ll (index_values c) ≠ [] →
    __add_simulation db (src_sim src) = Raise e →
    commit_case ll csvs i c db ids out db ids out (Some e)
| commit_stations_failed src db1 sim e :
    csvs !! i = Some src →
    listed_stations ll (index_values c) ≠ [] →
    __add_simulation db (src_sim src) = Ok (db1, sim) →
    __expand_stations db1 ids (listed_stations ll (index_values c)) ll
    = Raise e →
    commit_case ll csvs i c db ids out db1 ids out (Some e)
| commit_values_failed src db1 sim db2 ids' e :
    csvs !! i = Some src →
    listed_stations ll (index_values c) ≠ [] →
    __add_simulation db (src_sim src) = Ok (db1, sim) →
    __expand_stations db1 ids (listed_stations ll (index_values c)) ll
    = Ok (db2, ids') →
    (t ← loc c (listed_stations ll (index_values c));
     __store_ims db2 t ids' sim) = Raise e →
    commit_case ll csvs i c db ids out db2 ids' out (Some e)
| commit_stored src db1 sim db2 ids' t db3 :
    csvs !! i = Some src →
    listed_stations ll (index_values c) ≠ [] →
    __add_simulation db (src_sim src) = Ok (db1, sim) →
    __expand_stations db1 ids (listed_stations ll (index_values c)) ll
    = Ok (db2, ids') →
    loc c (listed_stations ll (index_values c)) = Ok t →
    __store_ims db2 t ids' sim = Ok db3 →
    commit_case ll csvs i c db ids out
      db3 ids' (out ++ [MsgProgress sim (length csvs)]) None.

(** What holds of the store and the output at every program point of the
    main loop, once it holds after the schema is created and every commit
    carries it to the next file. *)
Definition at_position (csvs : list source)
    (R : nat → database → gmap string Z → list message → Prop)
    (cf : config) : Prop :=
  match cf_pc cf with
  | AtPrefetch _ | AtInit | AtRaised _ => True
  | AtDone =>
      ∃ out, cf_out cf = out ++ [MsgComplete] ∧
             R (length csvs) (cf_db cf) (cf_station_ids cf) out
  | p => R (position csvs p) (cf_db cf) (cf_station_ids cf) (cf_out cf)
  end.

(** The coordinates of a row are those of the station file. *)
Definition located (ll : gmap string (string * string)) (st : station_row)
  : Prop :=
  ll !! stn_name st = Some (stn_longitude st, stn_latitude st).

(** [station_ids] knows exactly the stations of the registry. *)
Definition mirrors (db : database) (ids : gmap string Z) : Prop :=
  ∀ s, is_Some (ids !! s) ↔ s ∈ map stn_name (stations_tbl db).

(** Station [s] labels a retained row of one of the files. *)
Definition seen (csvs : list source) (s : string) : Prop :=
  ∃ src c, src ∈ csvs ∧ __pandas_loader (src_csv src) = Ok c ∧
           s ∈ index_values c.

(** What holds of the two registries and of [station_ids] wherever the
    build stands, also after an exception. *)
Definition registry_inv (ll : gmap string (string * string))
    (csvs : list source) (db : database) (ids : gmap string Z) : Prop :=
  NoDup (map sim_name (simulations_tbl db)) ∧
  mirrors db ids ∧
  NoDup (map stn_name (stations_tbl db)) ∧
  Forall (λ st, located ll st ∧ seen csvs (stn_name st)) (stations_tbl db).

(** What the build prints for the files [files], [registered] simulations
    having been registered before them. *)
Fixpoint progress (ll : gmap string (string * string)) (total : nat)
    (files : list source) (registered : nat) : list message :=
  match files with
  | [] => []
  | src :: files' =>
      if decide (has_stations ll src)
      then MsgProgress (Z.of_nat registered + 1) total
             :: progress ll total files' (S registered)
      else MsgNoStations (src_sim src) :: progress ll total files' registered
  end.

(** What holds when the main loop has gone past [n] files: the stations of
    interest of these files are known, the measures are those of the first
    file, the columns of the files ingested name existing tables, and one
    line has been printed for each file. *)
Definition passed_inv (ll : gmap string (string * string))
    (csvs : list source) (n : nat) (db : database) (ids : gmap string Z)
    (out : list message) : Prop :=
  (∀ k src c s,
     (k < n)%nat → csvs !! k = Some src →
     __pandas_loader (src_csv src) = Ok c →
     s ∈ listed_stations ll (index_values c) → is_Some (ids !! s)) ∧
  (∃ src0 c0,
     csvs !! 0%nat = Some src0 ∧ __pandas_loader (src_csv src0) = Ok c0 ∧
     ims_tbl db = columns c0 ∧
     dom (im_tables db) = list_to_set (map sql_name (columns c0))) ∧
  (∀ k src c im,
     (k < n)%nat → csvs !! k = Some src →
     __pandas_loader (src_csv src) = Ok c →
     listed_stations ll (index_values c) ≠ [] →
     im ∈ columns c → sql_name im ∈ dom (im_tables db)) ∧
  out = progress ll (length csvs) (take n csvs) 0.

(** The frame of a file; a file that does not parse has none. *)
Definition frame_of (src : source) : table :=
  match __pandas_loader (src_csv src) with
  | Ok c => c
  | Raise _ => Table [] []
  end.

(** The files with a station of interest, in the order of [glob], each
    with the identity its simulation gets. *)
Definition ingested (ll : gmap string (string * string))
    (csvs : list source) : list (Z * source) :=
  imap (λ k src, ((Z.of_nat k + 1)%Z, src)) (filter (has_stations ll) csvs).

(** The rows of [c.loc[interesting_stations]]. *)
Definition rows_of_interest (ll : gmap string (string * string)) (c : table)
  : list (string * list float) :=
  flat_map (loc_rows (rows c)) (listed_stations ll (index_values c)).

(** The rows that one column of a file gives to its value table: a row for
    each row of interest, with the identity of the station, the identity of
    the simulation and the cell of the column. *)
Definition column_rows (ids : gmap string Z) (sim : Z) (cols : list string)
    (rs : list (string * list float)) (im : string) : list im_row :=
  match index_of im cols with
  | Some j =>
      map (λ r, ImRow (default 0%Z (ids !! r.1)) sim (nth j r.2 nan)) rs
  | None => []
  end.

(** The rows that a file gives to the table [key]: those of its columns
    that name the table, in the order of the columns. *)
Definition file_rows (ll : gmap string (string * string))
    (ids : gmap string Z) (key : string) (p : Z * source) : list im_row :=
  let c := frame_of p.2 in
  flat_map (λ im, if decide (sql_name im = key)
                  then column_rows ids p.1 (columns c) (rows_of_interest ll c) im
                  else [])
    (columns c).

(** The value tables when the loop has gone past [n] files. *)
Definition values_inv (ll : gmap string (string * string))
    (csvs : list source) (n : nat) (db : database) (ids : gmap string Z)
    (out : list message) : Prop :=
  ∀ key tbl, im_tables db !! key = Some tbl →
    tbl = flat_map (file_rows ll ids key) (ingested ll (take n csvs)).

(** The identities of the stations as the registry has them. *)
Definition identities (db : database) (ids : gmap string Z) : Prop :=
  ∀ s id, ids !! s = Some id ↔
          ∃ lon lat, StationRow id s lon lat ∈ stations_tbl db.

(** The file has a retained row for the station. *)
Definition labelled (station : string) (src : source) : Prop :=
  station ∈ index_values (frame_of src).

#[global] Instance labelled_dec (station : string) (src : source) :
  Decision (labelled station src).
Proof. unfold labelled. apply _. Defined.
#[global] Typeclasses Opaque labelled.

(** The cell of the column [im] in the first retained row of the file
    that carries the label [station]. *)
Definition reading (station im : string) (src : source) : float :=
  match filter (λ r, r.1 = station) (rows (frame_of src)),
        index_of im (columns (frame_of src)) with
  | r :: _, Some j => nth j r.2 nan
  | _, _ => nan
  end.

(** The frame of the station as the files have it: a row for each file
    with a retained row for the station, in the order of [glob], labelled
    with the simulation name of the file; a column for each measure. *)
Definition frame_from_files (csvs : list source) (cols : list string)
    (station : string) : dataframe :=
  let hits := filter (labelled station) csvs in
  DataFrame (map src_sim hits)
    (map (λ im, (im, map (reading station im) hits)) cols).

#[global] Instance by_simulation_id_trans : Transitive by_simulation_id.
Proof. intros r1 r2 r3. unfold by_simulation_id. lia. Qed.

#[global] Instance by_sim_id_trans : Transitive by_sim_id.
Proof. intros s1 s2 s3. unfold by_sim_id. lia. Qed.

(** Every value row names a station and a simulation of the registries. *)
Definition references_hold (db : database) : Prop :=
  ∀ key tbl r, im_tables db !! key = Some tbl → r ∈ tbl →
    row_station_id r ∈ map stn_id (stations_tbl db) ∧
    row_simulation_id r ∈ map sim_id (simulations_tbl db).

(** How a build ended and what it leaves. *)
Definition outcome_of (cf : config)
  : pc * database * gmap string Z * list message :=
  (cf_pc cf, cf_db cf, cf_station_ids cf, cf_out cf).

(** The main loop without a pool: a file is parsed when its turn comes. *)
Fixpoint ingest_from (ll : gmap string (string * string))
    (csvs : list source) (i : nat) (files : list source) (db : database)
    (ids : gmap string Z) (out : list message)
  : pc * database * gmap string Z * list message :=
  match files with
  | [] => (AtDone, db, ids, out ++ [MsgComplete])
  | src :: files' =>
      match __pandas_loader (src_csv src) with
      | Raise e => (AtRaised e, db, ids, out)
      | Ok c =>
          match commit ll csvs i c db ids out with
          | (db', ids', out', None) =>
              ingest_from ll csvs (S i) files' db' ids' out'
          | (db', ids', out', Some e) => (AtRaised e, db', ids', out')
          end
      end
  end.

(** [create_imdb] from line 196 on without a pool. *)
Definition sequential_build (ll : gmap string (string * string))
    (csvs : list source) (nproc : nat)
  : pc * database * gmap string Z * list message :=
  if decide (nproc = 0)%nat then (AtRaised ValueError, no_tables, ∅, [])
  else
    match csvs with
    | [] => (AtRaised KeyError, no_tables, ∅, [])
    | src0 :: _ =>
        match __pandas_loader (src_csv src0) with
        | Raise e => (AtRaised e, no_tables, ∅, [])
        | Ok c0 =>
            match __init_db (columns c0) with
            | Raise e => (AtRaised e, no_tables, ∅, [])
            | Ok db => ingest_from ll csvs 0 csvs db ∅ []
            end
        end
    end.

(** What the loop without a pool leaves when it takes over from a
    configuration of the build. *)
Definition taken_over (ll : gmap string (string * string))
    (csvs : list source) (nproc : nat) (cf : config)
  : pc * database * gmap string Z * list message :=
  match cf_pc cf with
  | AtPrefetch _ | AtInit => sequential_build ll csvs nproc
  | AtGet i =>
      ingest_from ll csvs i (drop i csvs) (cf_db cf) (cf_station_ids cf)
        (cf_out cf)
  | AtDel i c | AtRefill i c | AtCommit i c =>
      match commit ll csvs i c (cf_db cf) (cf_station_ids cf) (cf_out cf) with
      | (db', ids', out', None) =>
          ingest_from ll csvs (S i) (drop (S i) csvs) db' ids' out'
      | (db', ids', out', Some e) => (AtRaised e, db', ids', out')
      end
  | AtDone | AtRaised _ => outcome_of cf
  end.

(** Every cell of the retained rows of the stations of interest is there
    and is a number. *)
Definition cells_present (ll : gmap string (string * string)) (src : source)
  : Prop :=
  ∀ r j, r ∈ rows (frame_of src) → is_Some (ll !! r.1) →
         (j < length (columns (frame_of src)))%nat →
         PrimFloat.is_nan (nth j r.2 nan) = false.

(** Files from which [create_imdb] builds a store: they parse, the columns
    of the first name distinct tables that are free, the columns of the
    others name tables of the first, the files with a station of interest
    have distinct simulation names, a station of interest labels one
    retained row of a file at most, and no cell of such a row is missing
    or NaN. *)
Definition well_formed (ll : gmap string (string * string))
    (csvs : list source) : Prop :=
  Forall (λ src, __pandas_loader (src_csv src) = Ok (frame_of src)) csvs ∧
  (∃ src0, head csvs = Some src0 ∧
     NoDup (map sql_name (columns (frame_of src0))) ∧
     Forall (λ im, ¬ reserved_table im) (columns (frame_of src0)) ∧
     Forall (λ src, ∀ im, im ∈ columns (frame_of src) →
                          sql_name im ∈ map sql_name (columns (frame_of src0)))
       (filter (has_stations ll) csvs)) ∧
  NoDup (map src_sim (filter (has_stations ll) csvs)) ∧
  Forall (stations_once ll) csvs ∧
  Forall (cells_present ll) csvs.

(** ** A small run tree *)

Definition sample_station_file : list (list string) :=
  [["171.5"; "-42.5"; "LONGNAME1"]; ["172.0"; "-43.0"; "A"]].

Definition sample_station_ll : gmap string (string * string) :=
  <["A" := ("172.0", "-43.0")]> (<["LONGNAME1" := ("171.5", "-42.5")]> ∅).

(** Stations LONGNAME1, A and B; A also has a non-[geom] row. *)
Definition csv_one : csv_file :=
  Some (CsvFrame true ["PGA"; "PGV"]
          [CsvRow "LONGNAME1" "geom" [0.5; 10.5]%float;
           CsvRow "A" "geom" [1.5; 11.5]%float;
           CsvRow "B" "geom" [2.5; 12.5]%float;
           CsvRow "A" "000" [9.5; 19.5]%float]).

(** Station A alone. *)
Definition csv_two : csv_file :=
  Some (CsvFrame true ["PGA"; "PGV"] [CsvRow "A" "geom" [3.5; 13.5]%float]).

(** No station of the station file. *)
Definition csv_elsewhere : csv_file :=
  Some (CsvFrame true ["PGA"; "PGV"] [CsvRow "B" "geom" [5.5; 15.5]%float]).

Definition sample_csvs : list source :=
  [Source "run_1" csv_one; Source "run_2" csv_elsewhere; Source "run_3" csv_two].

Definition sample_store : database :=
  cf_db (create_imdb sample_station_file sample_csvs 2).

Definition sample_frame : dataframe :=
  DataFrame ["run_1"; "run_3"]
    [("PGA", [1.5; 3.5]%float); ("PGV", [11.5; 13.5]%float)].

(** The frame of [csv_elsewhere] after [__pandas_loader]. *)
Definition table_elsewhere : table :=
  Table ["PGA"; "PGV"] [("B", [5.5; 15.5]%float)].

(** Two files, each with stations A and B and the measure PGA; the station
    file has A alone. *)
Definition two_station_files : list source :=
  [Source "sim_1"
     (Some (CsvFrame true ["PGA"]
              [CsvRow "A" "geom" [0.25]%float; CsvRow "B" "geom" [0.5]%float]));
   Source "sim_2"
     (Some (CsvFrame true ["PGA"]
              [CsvRow "A" "geom" [0.75]%float; CsvRow "B" "geom" [1.5]%float]))].

Definition station_file_A : list (list string) := [["0.0"; "0.0"; "A"]].

(** A file with the measure PGA and the given rows. *)
Definition pga_file (rows : list csv_row) : csv_file :=
  Some (CsvFrame true ["PGA"] rows).

(** A station file that gives station A twice. *)
Definition station_file_twice : list (list string) :=
  [["1.0"; "2.0"; "A"]; ["3.0"; "4.0"; "A"]].

(** The dictionary of [station_file_A]. *)
Definition station_ll_A : gmap string (string * string) :=
  <["A" := ("0.0", "0.0")]> ∅.

(** The registry and [station_ids] with station A alone. *)
Definition store_A : database :=
  Database [] [StationRow 1 "A" "0.0" "0.0"] [] ∅.

Definition ids_A : gmap string Z := <["A" := 1%Z]> ∅.

(** Station A on one retained row of the first file and on two of the
    second. *)
Definition twice_files : list source :=
  [Source "sim_1" (pga_file [CsvRow "A" "geom" [0.25]%float]);
   Source "sim_2" (pga_file [CsvRow "A" "geom" [0.5]%float;
                             CsvRow "A" "geom" [0.75]%float])].

Definition twice_store : database := cf_db (build station_ll_A twice_files 1).

#[global] Instance by_simulation_id_total : Total by_simulation_id.
Proof. intros r1 r2. unfold by_simulation_id. lia. Qed.

#[global] Instance by_sim_id_total : Total by_sim_id.
Proof. intros s1 s2. unfold by_sim_id. lia. Qed.

(** * Proofs *)

(** ** The result monad *)

Lemma bind_Ok {A B : Type} (m : result A) (f : A → result B) (b : B) :
  (m ≫= f) = Ok b ↔ ∃ a, m = Ok a ∧ f a = Ok b.
Proof.
  destruct m as [a|e]; simpl.
  - split; [eauto | intros (a' & [= ->] & H); exact H].
  - split; [discriminate | intros (a' & [=] & _)].
Qed.

(** An invariant of the state carried by [foldM]. *)
Lemma foldM_invariant {A S : Type} (P : S → Prop) (f : S → A → result S)
    (l : list A) (s s' : S) :
  (∀ s0 a s1, a ∈ l → P s0 → f s0 a = Ok s1 → P s1) →
  P s → foldM f s l = Ok s' → P s'.
Proof.
  revert s. induction l as [|a l IH]; simpl; intros s Hf Hs Hfold.
  - by injection Hfold as <-.
  - apply bind_Ok in Hfold as (s1 & H1 & H2).
    apply (IH s1); [| |done].
    + intros s0 a0 s2 Hin. apply Hf. by right.
    + eapply Hf; [|done..]. by left.
Qed.

Lemma mapM_Forall2 {A B : Type} (f : A → result B) (l : list A) (bs : list B) :
  mapM f l = Ok bs → Forall2 (λ a b, f a = Ok b) l bs.
Proof.
  revert bs. induction l as [|a l IH]; simpl; intros bs H.
  - injection H as <-. constructor.
  - apply bind_Ok in H as (b & Hb & H).
    apply bind_Ok in H as (bs' & Hbs & [= <-]).
    constructor; [done | by apply IH].
Qed.

(** ** Schema initialisation *)

Lemma foldM_insert_im (ims acc names : list string) :
  foldM insert_im acc ims = Ok names → names = acc ++ ims.
Proof.
  revert acc. induction ims as [|im ims IH]; simpl; intros acc H.
  - injection H as <-. by rewrite app_nil_r.
  - apply bind_Ok in H as (acc' & H1 & H2). unfold insert_im in H1.
    destruct (decide (im ∈ acc)); [done|]. injection H1 as <-.
    apply IH in H2 as ->. by rewrite <- app_assoc.
Qed.

Lemma foldM_create_im_table (ims : list string)
    (tbls tbls' : gmap string (list im_row)) :
  foldM create_im_table tbls ims = Ok tbls' →
  ∀ im tbl, tbls' !! im = Some tbl → tbls !! im = Some tbl ∨ tbl = [].
Proof.
  revert tbls. induction ims as [|im0 ims IH]; simpl; intros tbls H im tbl Him.
  - injection H as <-. by left.
  - apply bind_Ok in H as (tbls1 & H1 & H2). unfold create_im_table in H1.
    destruct (decide (reserved_table im0)); [done|].
    destruct (tbls !! sql_name im0) eqn:E0; [done|]. injection H1 as <-.
    destruct (IH _ H2 im tbl Him) as [H|H]; [|by right].
    destruct (decide (sql_name im0 = im)) as [<-|Hne].
    + rewrite lookup_insert_eq in H. injection H as <-. by right.
    + rewrite lookup_insert_ne in H by done. by left.
Qed.

(** A store fresh from [__init_db] lists the measures it was given and has
    no station, no simulation and no value row. *)
Lemma init_db_fresh (ims : list string) (db : database) :
  __init_db ims = Ok db →
  ims_tbl db = ims ∧ stations_tbl db = [] ∧ simulations_tbl db = [] ∧
  ∀ im tbl, im_tables db !! im = Some tbl → tbl = [].
Proof.
  unfold __init_db. intros H.
  apply bind_Ok in H as (names & H1 & H). apply bind_Ok in H as (tbls & H2 & H).
  injection H as <-. simpl. apply foldM_insert_im in H1 as ->.
  repeat split; try done. intros im tbl Him.
  by destruct (foldM_create_im_table _ _ _ H2 im tbl Him) as [?|?].
Qed.

Lemma foldM_insert_im_ok (ims acc : list string) :
  NoDup (acc ++ ims) → foldM insert_im acc ims = Ok (acc ++ ims).
Proof.
  revert acc. induction ims as [|im ims IH]; simpl; intros acc Hnd.
  - by rewrite app_nil_r.
  - assert (insert_im acc im = Ok (acc ++ [im])) as ->.
    { unfold insert_im. case_decide as Hin; [|done].
      apply NoDup_app in Hnd as (_ & Hdisj & _). exfalso.
      apply (Hdisj im Hin). by left. }
    simpl. rewrite IH; rewrite <- app_assoc; done.
Qed.

Lemma foldM_create_im_table_ok (ims : list string)
    (tbls : gmap string (list im_row)) :
  NoDup (map sql_name ims) → Forall (λ im, ¬ reserved_table im) ims →
  (∀ im, im ∈ ims → tbls !! sql_name im = None) →
  ∃ tbls', foldM create_im_table tbls ims = Ok tbls' ∧
    ∀ name, tbls' !! name
            = if decide (name ∈ map sql_name ims) then Some [] else tbls !! name.
Proof.
  revert tbls. induction ims as [|im ims IH]; simpl; intros tbls Hnd Hres Hfree.
  - exists tbls. split; [done|]. intros name.
    destruct (decide (name ∈ [])) as [E|]; [by apply elem_of_nil in E | done].
  - apply NoDup_cons in Hnd as [Hni Hnd]. apply Forall_cons in Hres as [Hr Hres].
    assert (create_im_table tbls im = Ok (<[sql_name im := []]> tbls)) as ->.
    { unfold create_im_table. case_decide; [done|].
      by rewrite Hfree by (by left). }
    simpl.
    destruct (IH (<[sql_name im := []]> tbls) Hnd Hres) as (tbls' & Hfold & Hl).
    { intros im' Hin. rewrite lookup_insert_ne; [apply Hfree; by right|].
      intros E. apply Hni. rewrite E. by apply (list_elem_of_fmap_2 sql_name). }
    exists tbls'. split; [done|]. intros name. rewrite Hl.
    destruct (decide (name ∈ map sql_name ims)) as [Hin|Hni'];
      destruct (decide (name ∈ sql_name im :: map sql_name ims)) as [Hin'|Hni''];
      try done.
    + exfalso. apply Hni''. by right.
    + apply elem_of_cons in Hin' as [->|?]; [|done]. apply lookup_insert_eq.
    + apply lookup_insert_ne. intros <-. apply Hni''. by left.
Qed.


(** On the empty list. *)
Example init_db_empty_measures :
  __init_db [] = Ok (Database [] [] [] ∅).
Proof. reflexivity. Qed.


(** ** Queries *)

Lemma filter_name_absent (station : string) (tbl : list station_row) :
  station ∉ map stn_name tbl →
  filter (λ st, stn_name st = station) tbl = [].
Proof.
  induction tbl as [|st tbl IH]; simpl; intros H; [done|].
  rewrite filter_cons. destruct (decide (stn_name st = station)) as [<-|].
  - exfalso. apply H. by left.
  - apply IH. intros Hin. apply H. by right.
Qed.

Lemma filter_name_present (station : string) (tbl : list station_row) :
  station ∈ map stn_name tbl →
  filter (λ st, stn_name st = station) tbl ≠ [].
Proof.
  induction tbl as [|st tbl IH]; simpl; intros H.
  - by apply elem_of_nil in H.
  - rewrite filter_cons. destruct (decide (stn_name st = station)); [done|].
    apply IH. apply elem_of_cons in H as [?|?]; [congruence | done].
Qed.

(** C8: a station that is neither cached nor registered gives [None] and
    the message; store and cache stay as they were. *)
Theorem unknown_station_returns_none (db : database)
    (cache : gmap string dataframe) (station : string) (im : option string)
    (nproc : option nat) :
  station ∉ map stn_name (stations_tbl db) →
  cache !! station = None →
  let o := station_ims db cache station im nproc in
  o_result o = Ok ANone ∧ o_out o = [MsgStationNotFound station] ∧
  o_db o = db ∧ o_cache o = cache.
Proof.
  intros Hs Hc. unfold station_ims. rewrite Hc.
  by rewrite (filter_name_absent _ _ Hs).
Qed.

Lemma station_ims_cached (db : database) (cache : gmap string dataframe)
    (station : string) (im : option string) (nproc : option nat)
    (df : dataframe) :
  cache !! station = Some df →
  station_ims db cache station im nproc
  = Outcome (project df im) db cache [] [CacheRead station].
Proof. intros H. unfold station_ims. by rewrite H. Qed.

(** The store is only read. *)
Lemma station_ims_db (db : database) (cache : gmap string dataframe)
    (station : string) (im : option string) (nproc : option nat) :
  o_db (station_ims db cache station im nproc) = db.
Proof.
  unfold station_ims. destruct (cache !! station); [done|].
  destruct (filter _ _); [done|].
  by destruct (assemble _ _ _) as [[?|?] ?].
Qed.

(** Whatever a query of a registered station returns is in the cache
    afterwards. *)
Lemma station_ims_leaves_entry (db : database) (cache : gmap string dataframe)
    (station : string) (im : option string) (nproc : option nat) (a : answer) :
  station ∈ map stn_name (stations_tbl db) →
  o_result (station_ims db cache station im nproc) = Ok a →
  ∃ df, o_cache (station_ims db cache station im nproc) !! station = Some df
        ∧ project df im = Ok a.
Proof.
  intros Hs. unfold station_ims.
  destruct (cache !! station) as [df|] eqn:Hc; simpl.
  - intros Ha. by exists df.
  - pose proof (filter_name_present _ _ Hs) as Hne.
    destruct (filter _ (stations_tbl db)) as [|st sts]; [done|].
    destruct (assemble db (stn_id st) nproc) as [[df|e] fx]; simpl; [|done].
    intros Ha. exists df. by rewrite lookup_insert_eq.
Qed.


(** ** The build as a transition system *)

Lemma run_S ll csvs nproc (n : nat) :
  run ll csvs nproc (S n) = step ll csvs nproc (run ll csvs nproc n).
Proof. reflexivity. Qed.

(** Induction over the configurations a build goes through. *)
Lemma reachable_invariant ll csvs nproc (P : config → Prop) :
  P (init_config nproc) →
  (∀ cf, P cf → P (step ll csvs nproc cf)) →
  ∀ cf, reachable ll csvs nproc cf → P cf.
Proof.
  intros H0 Hstep cf [n <-]. induction n as [|n IH]; [exact H0|].
  rewrite run_S. by apply Hstep.
Qed.

Lemma set_seq_drop_first (lo len : nat) :
  (set_seq lo (S len) : gset nat) ∖ {[lo]} = set_seq (S lo) len.
Proof. apply set_eq. intros x. set_unfold. lia. Qed.

Lemma set_seq_add_last (lo len : nat) :
  ({[(lo + len)%nat]} ∪ set_seq lo len : gset nat) = set_seq lo (S len).
Proof. apply set_eq. intros x. set_unfold. lia. Qed.

Lemma apply_async_lt csvs (k : nat) :
  is_Some (apply_async csvs k) ↔ (k < length csvs)%nat.
Proof.
  unfold apply_async. rewrite fmap_is_Some. apply lookup_lt_is_Some.
Qed.

Lemma sink_inv_init csvs nproc : sink_inv csvs nproc (init_config nproc).
Proof.
  unfold sink_inv, init_config. simpl. split; [by intros k task|].
  destruct (decide (nproc = 0)%nat); simpl.
  - split; [|done]. exists 0%nat, 0%nat. split; [lia|]. by rewrite dom_empty_L.
  - split; [|intros k; lia]. split; [lia|]. by rewrite dom_empty_L.
Qed.

Lemma sink_inv_step ll csvs nproc cf :
  sink_inv csvs nproc cf → sink_inv csvs nproc (step ll csvs nproc cf).
Proof.
  destruct cf as [p sink db ids out]. unfold sink_inv, step. simpl.
  intros (Htask & Hpc & Hparsed).
  destruct p as [k| |i|i c|i c|i c| |e]; simpl in *.
  - (* AtPrefetch *)
    destruct Hpc as [[Hn Hk] Hdom].
    destruct (decide (k < step_size csvs nproc)%nat) as [Hlt|Hge].
    + destruct (apply_async csvs k) as [task|] eqn:Hk'; simpl.
      * split; [|split; [|intros ?; lia]].
        -- intros k' task'. rewrite lookup_insert.
           case_decide as E; [|auto]. subst. by intros [= <-].
        -- split; [lia|]. rewrite dom_insert_L, Hdom.
           apply (set_seq_add_last 0 k).
      * split; [done|]. split; [|done]. exists 0%nat, k. split; [lia|done].
    + simpl. split; [done|]. split; [|intros ?; lia]. split; [done|].
      by replace (step_size csvs nproc) with k by lia.
  - (* AtInit *)
    destruct Hpc as [Hn Hdom].
    assert (∃ lo len : nat, (len ≤ step_size csvs nproc)%nat
              ∧ dom sink = set_seq lo len) as Hraised by eauto.
    destruct (sink !! 0%nat) as [[c0|e]|] eqn:H0; simpl; [|done..].
    destruct (__init_db (columns c0)) as [db'|e]; simpl; [|done].
    split; [done|]. split; [|intros ?; lia]. split; [lia|].
    rewrite Hdom. f_equal. unfold step_size. lia.
  - (* AtGet *)
    destruct Hpc as [[Hn Hi] Hdom].
    destruct (decide (i < length csvs)%nat) as [Hlt|Hge]; simpl.
    + assert (∃ lo len : nat, (len ≤ step_size csvs nproc)%nat
              ∧ dom sink = set_seq lo len) as Hraised
        by eauto using Nat.le_min_l.
      destruct (sink !! i) as [[c|e]|] eqn:Hsi; simpl; [|done..].
      split; [done|]. split; [|done]. repeat split; auto.
    + split; [done|]. split; [|intros k Hk; apply Hparsed; lia].
      rewrite Hdom. replace (length csvs - i)%nat with 0%nat by lia.
      by rewrite Nat.min_0_r.
  - (* AtDel *)
    destruct Hpc as ([Hn Hi] & Hdom & Hc).
    split; [|split; [|done]].
    + intros k task Hk. apply lookup_delete_Some in Hk as [_ Hk]. auto.
    + repeat split; auto. rewrite dom_delete_L, Hdom.
      assert (0 < step_size csvs nproc)%nat by (unfold step_size; lia).
      destruct (Nat.min (step_size csvs nproc) (length csvs - i)) as [|m] eqn:Hm;
        [lia|]. rewrite set_seq_drop_first. f_equal. lia.
  - (* AtRefill *)
    destruct Hpc as ([Hn Hi] & Hdom & Hc).
    destruct (apply_async csvs (i + step_size csvs nproc)) as [task|] eqn:Ht; simpl.
    + assert (i + step_size csvs nproc < length csvs)%nat as Hlt
        by (apply apply_async_lt; eauto).
      split; [|split; [|done]].
      * intros k task'. rewrite lookup_insert.
        case_decide as E; [|auto]. subst. by intros [= <-].
      * repeat split; auto. rewrite dom_insert_L, Hdom.
        assert (0 < step_size csvs nproc)%nat by (unfold step_size; lia).
        replace (Nat.min (step_size csvs nproc) (length csvs - i) - 1)%nat
          with (step_size csvs nproc - 1)%nat by lia.
        replace (i + step_size csvs nproc)%nat
          with (S i + (step_size csvs nproc - 1))%nat by lia.
        rewrite set_seq_add_last. f_equal. lia.
    + assert (¬ (i + step_size csvs nproc < length csvs)%nat) as Hge.
      { intros Hlt. apply apply_async_lt in Hlt. rewrite Ht in Hlt.
        by destruct Hlt. }
      split; [done|]. split; [|done]. repeat split; auto.
      rewrite Hdom. f_equal. lia.
  - (* AtCommit *)
    destruct Hpc as ([Hn Hi] & Hdom & Hc).
    destruct (commit ll csvs i c db ids out) as [[[db' ids'] out'] [e|]]; simpl.
    + split; [done|]. split; [|done]. eauto using Nat.le_min_l.
    + split; [done|]. split.
      * split; [lia|done].
      * intros k Hk. destruct (decide (k = i)) as [->|]; [eauto|].
        apply Hparsed. lia.
  - done.
  - done.
Qed.

Lemma sink_inv_reachable ll csvs nproc cf :
  reachable ll csvs nproc cf → sink_inv csvs nproc cf.
Proof.
  apply reachable_invariant; [apply sink_inv_init | apply sink_inv_step].
Qed.

(** *** Termination *)

Lemma step_final ll csvs nproc cf : final cf → step ll csvs nproc cf = cf.
Proof. destruct cf as [[] ? ? ? ?]; simpl; done. Qed.

Lemma remaining_step ll csvs nproc cf :
  sink_inv csvs nproc cf →
  (remaining csvs nproc (cf_pc (step ll csvs nproc cf))
   ≤ remaining csvs nproc (cf_pc cf) - 1)%nat.
Proof.
  destruct cf as [p sink db ids out]. unfold sink_inv, step, remaining. simpl.
  intros (_ & Hpc & _).
  destruct p as [k| |i|i c|i c|i c| |e]; simpl in *.
  - destruct Hpc as [[Hn Hk] _]. case_decide; simpl; [|lia].
    destruct (apply_async csvs k); simpl; lia.
  - destruct (sink !! 0%nat) as [[c0|e]|]; simpl; try lia.
    destruct (__init_db (columns c0)); simpl; lia.
  - case_decide; simpl; [|lia].
    destruct (sink !! i) as [[c|e]|]; simpl; lia.
  - lia.
  - destruct Hpc as ([_ Hi] & _).
    destruct (apply_async csvs _); simpl; lia.
  - destruct Hpc as ([_ Hi] & _).
    destruct (commit ll csvs i c db ids out) as [[[db' ids'] out'] [e|]];
      simpl; lia.
  - lia.
  - lia.
Qed.

Lemma remaining_run ll csvs nproc (n : nat) :
  (remaining csvs nproc (cf_pc (run ll csvs nproc n)) ≤ fuel csvs nproc - n)%nat.
Proof.
  induction n as [|n IH].
  - unfold run, init_config, fuel, remaining. simpl.
    case_decide; simpl; lia.
  - rewrite run_S.
    pose proof (remaining_step ll csvs nproc (run ll csvs nproc n)
                  (sink_inv_reachable _ _ _ _ (ex_intro _ n eq_refl))).
    lia.
Qed.

Lemma remaining_0_final csvs nproc cf :
  sink_inv csvs nproc cf → remaining csvs nproc (cf_pc cf) = 0%nat → final cf.
Proof.
  destruct cf as [p sink db ids out]. unfold sink_inv, remaining, final. simpl.
  intros (_ & Hpc & _).
  destruct p as [k| |i|i c|i c|i c| |e]; simpl in *; try done; try lia.
Qed.

Lemma build_reachable ll csvs nproc : reachable ll csvs nproc (build ll csvs nproc).
Proof. by exists (fuel csvs nproc). Qed.

(** Every build ends: the configuration after [fuel] steps is final. *)
Lemma build_final ll csvs nproc : final (build ll csvs nproc).
Proof.
  apply (remaining_0_final csvs nproc).
  - apply (sink_inv_reachable ll), build_reachable.
  - pose proof (remaining_run ll csvs nproc (fuel csvs nproc)).
    unfold build. lia.
Qed.

(** *** Parse failures *)

Lemma apply_async_Some csvs (i : nat) (src : source) :
  csvs !! i = Some src →
  apply_async csvs i = Some (__pandas_loader (src_csv src)).
Proof. intros H. unfold apply_async. by rewrite H. Qed.

Lemma first_failed_step ll csvs nproc (src : source) (e : exn) cf :
  csvs !! 0%nat = Some src → __pandas_loader (src_csv src) = Raise e →
  sink_inv csvs nproc cf → first_failed e cf →
  first_failed e (step ll csvs nproc cf).
Proof.
  intros Hsrc He. destruct cf as [p sink db ids out].
  unfold sink_inv, first_failed, step. simpl.
  intros (Htask & Hpc & _) [-> Hp].
  destruct p as [k| |i|i c|i c|i c| |e']; simpl in *; try done.
  - destruct Hpc as [[Hn Hk] _]. case_decide as Hlt; simpl; [|done].
    destruct (apply_async csvs k) eqn:Hk'; simpl; [done|].
    assert (k < length csvs)%nat as Hlt' by (unfold step_size in Hlt; lia).
    apply apply_async_lt in Hlt'. rewrite Hk' in Hlt'. by destruct Hlt'.
  - destruct Hpc as [Hn Hdom].
    assert (0 < length csvs)%nat by (by eapply lookup_lt_Some).
    assert (0%nat ∈ dom sink) as Hin.
    { rewrite Hdom. apply elem_of_set_seq. unfold step_size. lia. }
    apply elem_of_dom in Hin as [task Htask0]. rewrite Htask0.
    apply Htask in Htask0. rewrite (apply_async_Some _ _ _ Hsrc), He in Htask0.
    by injection Htask0 as <-.
Qed.

(** C5: when the loop reaches the commit of a file none of whose retained
    stations is in the station list, the store and [station_ids] are left
    as they are, the skip is printed, and the loop goes on to the next
    file. *)
Theorem file_without_stations_is_skipped ll csvs nproc cf (i : nat) (c : table) :
  reachable ll csvs nproc cf → cf_pc cf = AtCommit i c →
  listed_stations ll (index_values c) = [] →
  ∃ src, csvs !! i = Some src ∧ __pandas_loader (src_csv src) = Ok c ∧
    step ll csvs nproc cf
    = Config (AtGet (S i)) (cf_sink cf) (cf_db cf) (cf_station_ids cf)
        (cf_out cf ++ [MsgNoStations (src_sim src)]).
Proof.
  intros Hreach Hpc Hnone.
  destruct (sink_inv_reachable _ _ _ _ Hreach) as (_ & Hinv & _).
  rewrite Hpc in Hinv. destruct Hinv as (_ & _ & Hc).
  unfold apply_async in Hc. destruct (csvs !! i) as [src|] eqn:Hsrc; [|done].
  injection Hc as Hc. exists src. repeat split; [done|].
  destruct cf as [p sink db ids out]. simpl in *. subst p.
  unfold step, commit. simpl. by rewrite Hsrc, Hnone.
Qed.

(** ** The helpers of the commit step *)

Lemma numbered_nil {A : Type} (id : A → Z) : numbered id [].
Proof. intros k row H. by rewrite lookup_nil in H. Qed.

Lemma numbered_snoc {A : Type} (id : A → Z) (tbl : list A) (row : A) :
  numbered id tbl → id row = next_rowid tbl → numbered id (tbl ++ [row]).
Proof.
  intros Htbl Hrow k row' Hk. apply lookup_app_Some in Hk as [Hk|[Hlen Hk]].
  - by apply Htbl.
  - apply list_lookup_singleton_Some in Hk as [Hk <-]. rewrite Hrow.
    unfold next_rowid. lia.
Qed.

(** Two rows of a numbered table with the same identity are one row. *)
Lemma numbered_inj {A : Type} (id : A → Z) (tbl : list A) (k1 k2 : nat)
    (r1 r2 : A) :
  numbered id tbl → tbl !! k1 = Some r1 → tbl !! k2 = Some r2 →
  id r1 = id r2 → r1 = r2.
Proof.
  intros Hn H1 H2 Hid. pose proof (Hn _ _ H1). pose proof (Hn _ _ H2).
  assert (k1 = k2) as -> by lia. congruence.
Qed.

Lemma numbered_NoDup {A : Type} (id : A → Z) (tbl : list A) :
  numbered id tbl → NoDup (map id tbl).
Proof.
  intros Hn. apply NoDup_alt. intros k1 k2 x H1 H2.
  rewrite list_lookup_fmap in H1, H2.
  destruct (tbl !! k1) as [r1|] eqn:E1; [|done].
  destruct (tbl !! k2) as [r2|] eqn:E2; [|done].
  simpl in *. injection H1 as H1. injection H2 as H2.
  pose proof (Hn _ _ E1). pose proof (Hn _ _ E2). lia.
Qed.

Lemma add_simulation_ok (db db1 : database) (name : string) (id : Z) :
  __add_simulation db name = Ok (db1, id) →
  id = next_rowid (simulations_tbl db) ∧
  db1 = Database (ims_tbl db) (stations_tbl db)
          (simulations_tbl db ++ [SimulationRow id name]) (im_tables db).
Proof.
  unfold __add_simulation. case_decide; [done|]. by intros [= <- <-].
Qed.

Lemma stations_inv_inj (stations : list station_row) (ids : gmap string Z)
    (s1 s2 : string) (id : Z) :
  stations_inv stations ids →
  ids !! s1 = Some id → ids !! s2 = Some id → s1 = s2.
Proof.
  intros [Hn Hids] H1 H2.
  destruct (Hids _ _ H1) as (k1 & lon1 & lat1 & Hk1).
  destruct (Hids _ _ H2) as (k2 & lon2 & lat2 & Hk2).
  by pose proof (numbered_inj _ _ _ _ _ _ Hn Hk1 Hk2 eq_refl) as [= -> _ _].
Qed.

Lemma insert_station_inv ll (st st' : list station_row * gmap string Z)
    (s : string) :
  insert_station ll st s = Ok st' →
  stations_inv st.1 st.2 → stations_inv st'.1 st'.2.
Proof.
  unfold insert_station. destruct (ll !! s) as [[lon lat]|]; [|done].
  case_decide; [done|]. intros [= <-] [Hn Hids]. simpl. split.
  - by apply numbered_snoc.
  - intros s' id. rewrite lookup_insert. case_decide as E.
    + subst s'. intros [= <-]. exists (length st.1), lon, lat.
      by rewrite lookup_app_r, Nat.sub_diag.
    + intros H'. destruct (Hids _ _ H') as (k & lon' & lat' & Hk).
      exists k, lon', lat'. by apply lookup_app_l_Some.
Qed.

Lemma expand_stations_ok ll (db db2 : database) (ids ids' : gmap string Z)
    (stations : list string) :
  __expand_stations db ids stations ll = Ok (db2, ids') →
  ims_tbl db2 = ims_tbl db ∧ simulations_tbl db2 = simulations_tbl db ∧
  im_tables db2 = im_tables db ∧
  (stations_inv (stations_tbl db) ids → stations_inv (stations_tbl db2) ids').
Proof.
  unfold __expand_stations. intros H.
  apply bind_Ok in H as ([stns ids1] & Hfold & [= <- <-]). simpl.
  do 3 (split; [done|]). intros Hinv.
  refine (foldM_invariant (λ st, stations_inv st.1 st.2) _ _
            (stations_tbl db, ids) (stns, ids1) _ Hinv Hfold).
  intros s0 a s1 _ H0 H1. by eapply insert_station_inv.
Qed.

Lemma foldM_insert_value (tbl tbl' : list im_row) (vals : list (Z * Z * float)) :
  foldM insert_value tbl vals = Ok tbl' →
  tbl' = tbl ++ map value_row vals ∧
  Forall (λ v, PrimFloat.is_nan v.2 = false) vals.
Proof.
  revert tbl. induction vals as [|[[st sim] x] vals IH]; simpl; intros tbl H.
  - injection H as <-. by rewrite app_nil_r.
  - apply bind_Ok in H as (tbl1 & H1 & H2). unfold insert_value in H1.
    destruct (PrimFloat.is_nan x) eqn:Hx; [done|]. injection H1 as <-.
    apply IH in H2 as [-> Hvals]. rewrite <- app_assoc. split; [done|].
    by constructor.
Qed.

Lemma insert_values_ok (tbls tbls' : gmap string (list im_row)) (im : string)
    (vals : list (Z * Z * float)) :
  insert_values tbls im vals = Ok tbls' →
  ∃ tbl, tbls !! sql_name im = Some tbl ∧
         tbls' = <[sql_name im := tbl ++ map value_row vals]> tbls ∧
         Forall (λ v, PrimFloat.is_nan v.2 = false) vals.
Proof.
  unfold insert_values. destruct (tbls !! sql_name im) as [tbl|]; [|done].
  intros H. apply bind_Ok in H as (tbl' & H & [= <-]).
  apply foldM_insert_value in H as [-> Hv]. by exists tbl.
Qed.

Lemma lookup_ids_acc (ids : gmap string Z) (labels : list string)
    (acc sts : list Z) :
  foldM (λ acc s, match ids !! s with
                  | Some id => Ok (acc ++ [id])
                  | None => Raise KeyError
                  end) acc labels = Ok sts →
  ∃ new, sts = acc ++ new ∧ Forall2 (λ s id, ids !! s = Some id) labels new.
Proof.
  revert acc. induction labels as [|s labels IH]; simpl; intros acc H.
  - injection H as <-. exists []. by rewrite app_nil_r.
  - apply bind_Ok in H as (acc' & H1 & H2).
    destruct (ids !! s) as [id|] eqn:Hs; [|done]. injection H1 as <-.
    apply IH in H2 as (new & -> & Hnew). exists (id :: new).
    rewrite <- app_assoc. split; [done|]. by constructor.
Qed.

Lemma lookup_ids_ok (ids : gmap string Z) (labels : list string) (sts : list Z) :
  lookup_ids ids labels = Ok sts →
  Forall2 (λ s id, ids !! s = Some id) labels sts.
Proof.
  intros H. by apply lookup_ids_acc in H as (new & -> & H).
Qed.

(** Distinct labels have distinct identities. *)
Lemma lookup_ids_NoDup (stations : list station_row) (ids : gmap string Z)
    (labels : list string) (sts : list Z) :
  stations_inv stations ids → NoDup labels →
  Forall2 (λ s id, ids !! s = Some id) labels sts → NoDup sts.
Proof.
  intros Hinv Hnd H. induction H as [|s id labels sts Hs H IH].
  - constructor.
  - apply NoDup_cons in Hnd as [Hni Hnd]. constructor; [|by apply IH].
    intros Hin. apply Hni.
    apply list_elem_of_lookup in Hin as [k Hk].
    destruct (Forall2_lookup_r _ _ _ _ _ H Hk) as (s' & Hs' & Hid).
    rewrite (stations_inv_inj _ _ _ _ _ Hinv Hs Hid).
    by eapply list_elem_of_lookup_2.
Qed.

Lemma zip_fst_take {A B : Type} (l : list A) (k : list B) :
  (zip l k).*1 = take (length k) l.
Proof.
  revert k. induction l as [|a l IH]; intros [|b k]; simpl; try done.
  by rewrite IH.
Qed.

(** The pairs of the rows [__store_ims] adds to one table. *)
Lemma new_rows_pairs (sts : list Z) (sim : Z) (vals : list float) :
  map pair_of (map value_row (zip (zip sts (replicate (length sts) sim)) vals))
  = take (length vals) (map (λ st, (st, sim)) sts).
Proof.
  rewrite map_map.
  rewrite (map_ext _ fst) by (by intros [[??]?]).
  change (map fst ?l) with (l.*1). rewrite zip_fst_take. f_equal.
  induction sts as [|st sts IH]; simpl; [done|]. by rewrite IH.
Qed.

Lemma new_rows_unique (sts : list Z) (sim : Z) (vals : list float) :
  NoDup sts →
  NoDup (map pair_of
           (map value_row (zip (zip sts (replicate (length sts) sim)) vals))).
Proof.
  intros Hnd. rewrite new_rows_pairs.
  eapply sublist_NoDup; [|apply sublist_take].
  by apply (NoDup_fmap_2 (λ st, (st, sim))).
Qed.

Lemma new_rows_simulation (sts : list Z) (sim : Z) (vals : list float) :
  Forall (λ r, row_simulation_id r = sim)
    (map value_row (zip (zip sts (replicate (length sts) sim)) vals)).
Proof.
  apply Forall_forall. intros r Hr.
  assert (pair_of r ∈ map pair_of
            (map value_row (zip (zip sts (replicate (length sts) sim)) vals)))
    as Hp by (by apply list_elem_of_fmap_2).
  rewrite new_rows_pairs in Hp.
  apply (subseteq_take _ _) in Hp. apply list_elem_of_fmap in Hp as (st & E & _).
  unfold pair_of in E. by injection E.
Qed.

Lemma unique_pairs_app (tbl new : list im_row) (sim : Z) :
  unique_pairs tbl → Forall (λ r, (row_simulation_id r < sim)%Z) tbl →
  NoDup (map pair_of new) → Forall (λ r, row_simulation_id r = sim) new →
  unique_pairs (tbl ++ new).
Proof.
  intros Htbl Hold Hnew Hsim. unfold unique_pairs. rewrite map_app.
  apply NoDup_app. split; [done|]. split; [|done].
  intros p Hp Hp'.
  apply list_elem_of_fmap in Hp as (r & -> & Hr).
  apply list_elem_of_fmap in Hp' as (r' & E & Hr').
  rewrite Forall_forall in Hold, Hsim.
  specialize (Hold _ Hr). specialize (Hsim _ Hr').
  unfold pair_of in E. injection E as _ E. lia.
Qed.

Lemma store_column_ok (t : table) (sts sims : list Z)
    (tbls tbls' : gmap string (list im_row)) (im : string) :
  store_column t sts sims tbls im = Ok tbls' →
  ∃ tbl vals,
    tbls !! sql_name im = Some tbl ∧
    tbls' = <[sql_name im := tbl ++ map value_row (zip (zip sts sims) vals)]>
              tbls ∧
    Forall (λ v, PrimFloat.is_nan v.2 = false) (zip (zip sts sims) vals).
Proof.
  unfold store_column. intros H. apply bind_Ok in H as (vals & _ & H).
  apply insert_values_ok in H as (tbl & ? & ? & ?). by exists tbl, vals.
Qed.

Lemma store_ims_ok (db db3 : database) (t : table) (ids : gmap string Z)
    (sim : Z) :
  __store_ims db t ids sim = Ok db3 →
  ims_tbl db3 = ims_tbl db ∧ stations_tbl db3 = stations_tbl db ∧
  simulations_tbl db3 = simulations_tbl db ∧
  ∃ sts, Forall2 (λ s id, ids !! s = Some id) (index_values t) sts ∧
         foldM (store_column t sts (replicate (length sts) sim))
           (im_tables db) (columns t)
         = Ok (im_tables db3).
Proof.
  unfold __store_ims. intros H. apply bind_Ok in H as (sts & Hsts & H).
  apply bind_Ok in H as (tbls & Hfold & [= <-]). simpl.
  do 3 (split; [done|]). exists sts. split; [by apply lookup_ids_ok | done].
Qed.

Lemma store_columns_present (t : table) (sts sims : list Z)
    (cols : list string) (tbls tbls' : gmap string (list im_row)) :
  foldM (store_column t sts sims) tbls cols = Ok tbls' →
  (∀ im tbl, tbls !! im = Some tbl → values_present tbl) →
  ∀ im tbl, tbls' !! im = Some tbl → values_present tbl.
Proof.
  intros Hfold Hinv.
  refine (foldM_invariant
            (λ m, ∀ im tbl, m !! im = Some tbl → values_present tbl)
            _ cols tbls tbls' _ Hinv Hfold).
  intros m im0 m' _ Hm Hstep im tbl.
  apply store_column_ok in Hstep as (tbl0 & vals & H0 & -> & Hvals).
  rewrite lookup_insert. case_decide as E; [|apply Hm].
  intros [= <-]. apply Forall_app. split; [by eapply Hm|].
  apply Forall_fmap. eapply Forall_impl; [exact Hvals|]. by intros [[??]?].
Qed.

Lemma store_columns_pairs (t : table) (sts : list Z) (sim : Z)
    (cols : list string) (tbls tbls' : gmap string (list im_row)) :
  NoDup (map sql_name cols) → NoDup sts →
  foldM (store_column t sts (replicate (length sts) sim)) tbls cols
  = Ok tbls' →
  (∀ im tbl, tbls !! im = Some tbl →
     unique_pairs tbl ∧ Forall (λ r, (row_simulation_id r ≤ sim)%Z) tbl ∧
     (im ∈ map sql_name cols →
      Forall (λ r, (row_simulation_id r < sim)%Z) tbl)) →
  ∀ im tbl, tbls' !! im = Some tbl →
    unique_pairs tbl ∧ Forall (λ r, (row_simulation_id r ≤ sim)%Z) tbl.
Proof.
  intros Hcols Hsts. revert tbls.
  induction cols as [|im0 cols IH]; simpl; intros tbls Hfold Hinv im tbl Him.
  - injection Hfold as <-. destruct (Hinv _ _ Him) as (? & ? & _). done.
  - apply NoDup_cons in Hcols as [Hni Hcols].
    apply bind_Ok in Hfold as (tbls1 & Hstep & Hfold).
    apply (IH Hcols tbls1 Hfold) with im; [|done]. clear im tbl Him.
    apply store_column_ok in Hstep as (tbl0 & vals & H0 & -> & _).
    intros im tbl. rewrite lookup_insert. case_decide as E.
    + subst im. intros [= <-].
      destruct (Hinv _ _ H0) as (Hu & Hle & Hlt).
      specialize (Hlt ltac:(by left)).
      pose proof (new_rows_simulation sts sim vals) as Hsim.
      split; [|split; [|done]].
      * eapply unique_pairs_app; [done..| |done]. by apply new_rows_unique.
      * apply Forall_app. split; [done|].
        eapply Forall_impl; [exact Hsim|]. simpl. intros; lia.
    + intros Him. destruct (Hinv _ _ Him) as (Hu & Hle & Hlt).
      split; [done|]. split; [done|]. intros Hin. apply Hlt. by right.
Qed.

(** *** [loc] on labels that occur once *)

Lemma loc_rows_index (rs : list (string * list float)) (label : string) :
  map fst (loc_rows rs label) = filter (λ l, l = label) (map fst rs).
Proof.
  unfold loc_rows. induction rs as [|r rs IH]; simpl; [done|].
  rewrite !filter_cons. case_decide; simpl; by rewrite IH.
Qed.

Lemma filter_eq_filter (P : string → Prop) `{∀ x, Decision (P x)}
    (label : string) (l : list string) :
  P label →
  filter (λ x, x = label) (filter P l) = filter (λ x, x = label) l.
Proof.
  intros HP. induction l as [|x l IH]; simpl; [done|].
  rewrite !filter_cons. destruct (decide (P x)) as [|Hn].
  - rewrite filter_cons. case_decide; by rewrite IH.
  - case_decide; [by subst|done].
Qed.

Lemma filter_eq_absent (label : string) (l : list string) :
  label ∉ l → filter (λ x, x = label) l = [].
Proof.
  induction l as [|x l IH]; intros Hni; [done|].
  rewrite filter_cons. apply not_elem_of_cons in Hni as [Hne Hni].
  case_decide; [congruence | by apply IH].
Qed.

Lemma filter_eq_NoDup (label : string) (l : list string) :
  NoDup l → label ∈ l → filter (λ x, x = label) l = [label].
Proof.
  induction 1 as [|x l Hx Hnd IH]; intros Hin; [by apply elem_of_nil in Hin|].
  rewrite filter_cons. case_decide as E.
  - subst x. f_equal. by apply filter_eq_absent.
  - apply IH. apply elem_of_cons in Hin as [?|?]; [congruence | done].
Qed.

Lemma loc_ok (c t : table) (labels : list string) :
  loc c labels = Ok t →
  columns t = columns c ∧ rows t = flat_map (loc_rows (rows c)) labels.
Proof. unfold loc. case_decide; [|done]. by intros [= <-]. Qed.

(** When each station of interest labels one row, [c.loc[...]] is indexed
    by the stations of interest themselves. *)
Lemma loc_listed_index ll (c t : table) :
  NoDup (listed_stations ll (index_values c)) →
  loc c (listed_stations ll (index_values c)) = Ok t →
  index_values t = listed_stations ll (index_values c).
Proof.
  intros Hnd Hloc. apply loc_ok in Hloc as [_ Hrows].
  unfold index_values at 1. rewrite Hrows.
  assert (Forall (λ l, map fst (loc_rows (rows c) l) = [l])
            (listed_stations ll (index_values c))) as Hone.
  { apply Forall_forall. intros l Hl. rewrite loc_rows_index.
    pose proof Hl as Hl'. unfold listed_stations in Hl'.
    apply list_elem_of_filter in Hl' as [HP _].
    rewrite <- (filter_eq_filter (λ s, is_Some (ll !! s)) l _ HP).
    by apply filter_eq_NoDup. }
  clear Hnd Hrows. induction Hone as [|l ls Hl _ IH]; simpl; [done|].
  by rewrite map_app, Hl, IH.
Qed.

(** *** The commit step keeps the store well-formed *)

Lemma commit_inv ll csvs (i : nat) (c : table) (db db' : database)
    (ids ids' : gmap string Z) (out out' : list message) (oe : option exn) :
  commit ll csvs i c db ids out = (db', ids', out', oe) →
  numbered sim_id (simulations_tbl db) →
  stations_inv (stations_tbl db) ids →
  (∀ im tbl, im_tables db !! im = Some tbl → values_present tbl) →
  (numbered sim_id (simulations_tbl db') ∧
   stations_inv (stations_tbl db') ids' ∧
   (∀ im tbl, im_tables db' !! im = Some tbl → values_present tbl)) ∧
  (simulations_tbl db' = simulations_tbl db ∨
   ∃ src sim, csvs !! i = Some src ∧
     simulations_tbl db'
     = simulations_tbl db ++ [SimulationRow sim (src_sim src)]) ∧
  (NoDup (map sql_name (columns c)) →
   NoDup (listed_stations ll (index_values c)) →
   pairs_inv db → pairs_inv db').
Proof.
  intros Hcommit Hsims Hstns Hvals. unfold commit in Hcommit.
  assert ((numbered sim_id (simulations_tbl db) ∧
           stations_inv (stations_tbl db) ids ∧
           (∀ im tbl, im_tables db !! im = Some tbl → values_present tbl)) ∧
          (simulations_tbl db = simulations_tbl db ∨
           ∃ src sim, csvs !! i = Some src ∧
             simulations_tbl db
             = simulations_tbl db ++ [SimulationRow sim (src_sim src)]) ∧
          (NoDup (map sql_name (columns c)) →
   NoDup (listed_stations ll (index_values c)) →
           pairs_inv db → pairs_inv db)) as Hsame
    by (split; [done|]; split; [by left | done]).
  destruct (csvs !! i) as [src|] eqn:Hsrc;
    [|by injection Hcommit as <- <- <- <-].
  case_decide; [by injection Hcommit as <- <- <- <-|].
  destruct (__add_simulation db (src_sim src)) as [[db1 sim]|e] eqn:Hadd;
    [|by injection Hcommit as <- <- <- <-].
  clear Hsame.
  apply add_simulation_ok in Hadd as [Hsim Hdb1].
  assert (numbered sim_id (simulations_tbl db1)) as Hsims1.
  { subst db1. simpl. by apply numbered_snoc. }
  assert (length (simulations_tbl db1) = S (length (simulations_tbl db)))
    as Hlen1 by (subst db1; simpl; rewrite length_app; simpl; lia).
  assert (pairs_inv db → ∀ im tbl, im_tables db1 !! im = Some tbl →
            unique_pairs tbl ∧
            Forall (λ r, (row_simulation_id r < sim)%Z) tbl) as Hpairs1.
  { intros Hp im tbl Him. subst db1. simpl in Him.
    destruct (Hp _ _ Him) as [Hu Hle]. split; [done|].
    eapply Forall_impl; [exact Hle|]. simpl. unfold next_rowid in Hsim. lia. }
  assert (pairs_inv db → pairs_inv db1) as Hp1.
  { intros Hp im tbl Him. destruct (Hpairs1 Hp _ _ Him) as [Hu Hlt].
    split; [done|]. eapply Forall_impl; [exact Hlt|]. simpl.
    unfold next_rowid in Hsim. lia. }
  assert (simulations_tbl db1
          = simulations_tbl db ++ [SimulationRow sim (src_sim src)]) as Hs1
    by (by subst db1).
  assert (stations_tbl db1 = stations_tbl db ∧ im_tables db1 = im_tables db)
    as [Hst1 Htb1] by (by subst db1).
  clear Hdb1.
  destruct (__expand_stations db1 ids _ ll) as [[db2 ids2]|e] eqn:Hexp.
  2:{ injection Hcommit as <- <- <- <-. rewrite Hst1, Htb1.
      split; [done|]. split; [right; eauto | auto]. }
  apply expand_stations_ok in Hexp as (_ & Hs2 & Htb2 & Hinv2).
  rewrite Hst1 in Hinv2. specialize (Hinv2 Hstns).
  destruct (loc c _ ≫= _) as [db3|e] eqn:Hstore.
  2:{ injection Hcommit as <- <- <- <-. rewrite Hs2, Htb2, Htb1.
      split; [done|]. split; [right; eauto|].
      intros _ _ Hp im tbl Him. rewrite Hs2. apply (Hp1 Hp im).
      by rewrite <- Htb2. }
  injection Hcommit as <- <- <- <-.
  apply bind_Ok in Hstore as (t & Hloc & Hstore).
  apply store_ims_ok in Hstore as (_ & Hst3 & Hs3 & sts & Hsts & Hfold).
  rewrite Hs3, Hs2, Hst3. split; [|split; [right; eauto|]].
  - split; [done|]. split; [done|].
    eapply store_columns_present; [exact Hfold|]. by rewrite Htb2, Htb1.
  - intros Hcols Hnd Hp im tbl Him.
    pose proof (loc_ok _ _ _ Hloc) as [Hcolumns _].
    rewrite (loc_listed_index _ _ _ Hnd Hloc) in Hsts.
    pose proof (lookup_ids_NoDup _ _ _ _ Hinv2 Hnd Hsts) as Hnd'.
    rewrite Hcolumns in Hfold.
    destruct (store_columns_pairs _ _ _ _ _ _ Hcols Hnd' Hfold) with im tbl
      as [Hu Hle]; [|done|].
    + intros im' tbl' Him'. rewrite Htb2 in Him'.
      destruct (Hpairs1 Hp _ _ Him') as [Hu Hlt]. split; [done|].
      split; [|done]. eapply Forall_impl; [exact Hlt|]. simpl. lia.
    + split; [done|]. eapply Forall_impl; [exact Hle|]. simpl.
      rewrite Hs3, Hs2, Hs1, length_app. simpl. unfold next_rowid in Hsim. lia.
Qed.

(** *** Invariants of the store along a build *)

Lemma sublist_take_mono {A : Type} (l : list A) (n m : nat) :
  (n ≤ m)%nat → take n l `sublist_of` take m l.
Proof.
  intros Hnm. replace n with (Nat.min n m) by lia.
  rewrite <- take_take. apply sublist_take.
Qed.

Lemma sublist_take_all {A : Type} (l : list A) (n : nat) :
  take n l `sublist_of` take (length l) l.
Proof. rewrite firstn_all. apply sublist_take. Qed.

Lemma store_inv_init csvs nproc : store_inv csvs (init_config nproc).
Proof.
  unfold store_inv, init_config. simpl. split; [apply numbered_nil|].
  split; [apply sublist_nil_l|]. split.
  - split; [apply numbered_nil|]. intros s id H. by rewrite lookup_empty in H.
  - intros im tbl H. by rewrite lookup_empty in H.
Qed.

Lemma store_inv_later csvs (p p' : pc) sink sink' db ids out out' :
  (position csvs p ≤ position csvs p')%nat ∨ p' = AtDone ∨ (∃ e, p' = AtRaised e) →
  store_inv csvs (Config p sink db ids out) →
  store_inv csvs (Config p' sink' db ids out').
Proof.
  unfold store_inv. simpl. intros Hpos (Hn & Hsub & Hrest).
  split; [done|]. split; [|done].
  etransitivity; [exact Hsub|]. apply (fmap_sublist src_sim).
  destruct Hpos as [Hle|[->|[e ->]]]; simpl.
  - by apply sublist_take_mono.
  - apply sublist_take_all.
  - apply sublist_take_all.
Qed.

Lemma store_inv_step ll csvs nproc cf :
  store_inv csvs cf → store_inv csvs (step ll csvs nproc cf).
Proof.
  destruct cf as [p sink db ids out]. intros Hinv. unfold step. simpl.
  destruct p as [k| |i|i c|i c|i c| |e]; simpl.
  - case_decide; [destruct (apply_async csvs k)|];
      (eapply store_inv_later; [|exact Hinv]); simpl; eauto.
  - destruct (sink !! 0%nat) as [[c0|e]|];
      [|eapply store_inv_later; [|exact Hinv]; eauto..].
    destruct (__init_db (columns c0)) as [db0|e] eqn:Hdb;
      [|eapply store_inv_later; [|exact Hinv]; eauto].
    apply init_db_fresh in Hdb as (_ & Hst & Hs & Htb).
    unfold store_inv. simpl. rewrite Hst, Hs. split; [apply numbered_nil|].
    split; [apply sublist_nil_l|]. split.
    + split; [apply numbered_nil|]. intros s id H. by rewrite lookup_empty in H.
    + intros im tbl H. rewrite (Htb _ _ H). constructor.
  - case_decide; [destruct (sink !! i) as [[c|e]|]|];
      (eapply store_inv_later; [|exact Hinv]); simpl; eauto.
  - eapply store_inv_later; [|exact Hinv]; simpl; eauto.
  - destruct (apply_async csvs _);
      (eapply store_inv_later; [|exact Hinv]); simpl; eauto.
  - destruct Hinv as (Hn & Hsub & Hst & Hv). simpl in *.
    destruct (commit ll csvs i c db ids out) as [[[db' ids'] out'] oe] eqn:Hc.
    destruct (commit_inv _ _ _ _ _ _ _ _ _ _ _ Hc Hn Hst Hv)
      as ((Hn' & Hst' & Hv') & Hsims & _).
    assert (map sim_name (simulations_tbl db')
              `sublist_of` map src_sim (take (S i) csvs)) as Hsub'.
    { destruct Hsims as [->|(src & sim & Hsrc & ->)].
      - etransitivity; [exact Hsub|]. apply (fmap_sublist src_sim).
        apply sublist_take_mono. lia.
      - rewrite (take_S_r _ _ _ Hsrc), !map_app. simpl.
        by apply sublist_app. }
    destruct oe as [e|]; unfold store_inv; simpl; (split; [done|]);
      (split; [|done]); [|done].
    etransitivity; [exact Hsub'|]. apply (fmap_sublist src_sim), sublist_take_all.
  - done.
  - done.
Qed.

Lemma store_inv_reachable ll csvs nproc cf :
  reachable ll csvs nproc cf → store_inv csvs cf.
Proof.
  apply reachable_invariant; [apply store_inv_init | apply store_inv_step].
Qed.

(** The primary key of [simulations] in a store under construction. *)
Lemma simulation_ids_distinct ll csvs nproc cf :
  reachable ll csvs nproc cf → NoDup (map sim_id (simulations_tbl (cf_db cf))).
Proof.
  intros H. apply numbered_NoDup. by apply store_inv_reachable in H as [? _].
Qed.

Lemma commit_sublist ll csvs (i : nat) (c : table) (db db' : database)
    (ids ids' : gmap string Z) (out out' : list message) (oe : option exn) :
  store_inv csvs (Config (AtCommit i c) ∅ db ids out) →
  commit ll csvs i c db ids out = (db', ids', out', oe) →
  map sim_name (simulations_tbl db')
    `sublist_of` map src_sim (take (S i) csvs).
Proof.
  intros (Hn & Hsub & Hst & Hv) Hc. simpl in *.
  destruct (commit_inv _ _ _ _ _ _ _ _ _ _ _ Hc Hn Hst Hv)
    as (_ & Hsims & _).
  destruct Hsims as [->|(src & sim & Hsrc & ->)].
  - etransitivity; [exact Hsub|]. apply (fmap_sublist src_sim).
    apply sublist_take_mono. lia.
  - rewrite (take_S_r _ _ _ Hsrc), !map_app. simpl. by apply sublist_app.
Qed.

Lemma stopped_before_step ll csvs nproc (i : nat) (src : source) (e : exn) cf :
  csvs !! i = Some src → __pandas_loader (src_csv src) = Raise e →
  sink_inv csvs nproc cf → store_inv csvs cf →
  stopped_before csvs i cf → stopped_before csvs i (step ll csvs nproc cf).
Proof.
  intros Hsrc He. pose proof (lookup_lt_Some _ _ _ Hsrc) as Hlt.
  destruct cf as [p sink db ids out]. unfold stopped_before, step.
  intros (Htask & Hpc & _) Hstore [Hsub Hpos]. simpl in *.
  destruct p as [k| |j|j c|j c|j c| |e']; simpl in *; try done.
  - case_decide; [destruct (apply_async csvs k)|]; simpl; split; done || lia.
  - destruct (sink !! 0%nat) as [[c0|e0]|]; try done.
    destruct (__init_db (columns c0)) as [db0|e0] eqn:Hdb; [|done]. simpl.
    apply init_db_fresh in Hdb as (_ & _ & -> & _). split; [|lia].
    apply sublist_nil_l.
  - case_decide; [|lia]. by destruct (sink !! j) as [[c|e0]|].
  - by destruct (apply_async csvs (j + step_size csvs nproc)).
  - destruct Hpc as (_ & _ & Hc).
    assert (j ≠ i) as Hne.
    { intros ->. rewrite (apply_async_Some _ _ _ Hsrc), He in Hc.
      discriminate Hc. }
    destruct (commit ll csvs j c db ids out) as [[[db' ids'] out'] oe] eqn:Hcm.
    assert (map sim_name (simulations_tbl db')
              `sublist_of` map src_sim (take i csvs)) as Hsub'.
    { etransitivity; [by eapply (commit_sublist ll csvs j c db db')|].
      apply (fmap_sublist src_sim), sublist_take_mono. lia. }
    destruct oe; simpl; (split; [done|]); [done | lia].
Qed.


(** What a commit step that raised nothing has done. *)
Lemma commit_done ll csvs (i : nat) (c : table) (db db' : database)
    (ids ids' : gmap string Z) (out out' : list message) :
  commit ll csvs i c db ids out = (db', ids', out', None) →
  ∃ src, csvs !! i = Some src ∧
    ((listed_stations ll (index_values c) = [] ∧ db' = db ∧ ids' = ids ∧
      out' = out ++ [MsgNoStations (src_sim src)]) ∨
     (listed_stations ll (index_values c) ≠ [] ∧
      ∃ sim, simulations_tbl db'
             = simulations_tbl db ++ [SimulationRow sim (src_sim src)])).
Proof.
  unfold commit. destruct (csvs !! i) as [src|]; [|done].
  intros H. exists src. split; [done|]. case_decide as Hlen.
  - left. injection H as <- <- <-. split; [|done].
    by destruct (listed_stations ll (index_values c)).
  - right. split; [by intros E; rewrite E in Hlen|].
    destruct (__add_simulation db (src_sim src)) as [[db1 sim]|e] eqn:Hadd;
      [|done].
    apply add_simulation_ok in Hadd as [_ ->].
    destruct (__expand_stations _ ids _ ll) as [[db2 ids2]|e] eqn:Hexp; [|done].
    apply expand_stations_ok in Hexp as (_ & Hs2 & _).
    destruct (loc c _ ≫= _) as [db3|e] eqn:Hstore; [|done].
    apply bind_Ok in Hstore as (t & _ & Hstore).
    apply store_ims_ok in Hstore as (_ & _ & Hs3 & _).
    injection H as <- _ _. exists sim. by rewrite Hs3, Hs2.
Qed.

Lemma registered_step ll csvs nproc cf :
  sink_inv csvs nproc cf → registered ll csvs cf →
  registered ll csvs (step ll csvs nproc cf).
Proof.
  destruct cf as [p sink db ids out]. unfold sink_inv, registered, step.
  simpl. intros (_ & Hpc & _) Hreg.
  destruct p as [k| |i|i c|i c|i c| |e]; simpl in *; try done.
  - case_decide; [destruct (apply_async csvs k)|]; by simpl.
  - destruct (sink !! 0%nat) as [[c0|e]|]; try done.
    destruct (__init_db (columns c0)) as [db0|e] eqn:Hdb; [|done]. simpl.
    by apply init_db_fresh in Hdb as (_ & _ & -> & _).
  - destruct Hpc as [[_ Hi] _].
    case_decide; [by destruct (sink !! i) as [[c|e]|]|]. simpl.
    rewrite Hreg. do 2 f_equal. rewrite !take_ge by lia. done.
  - by destruct (apply_async csvs (i + step_size csvs nproc)).
  - destruct Hpc as (_ & _ & Hc).
    destruct (commit ll csvs i c db ids out) as [[[db' ids'] out'] [e|]] eqn:Hcm;
      [done|]. simpl.
    apply commit_done in Hcm as (src & Hsrc & Hcases).
    rewrite (apply_async_Some _ _ _ Hsrc) in Hc. injection Hc as Hc.
    rewrite (take_S_r _ _ _ Hsrc), filter_app, map_app, <- Hreg.
    rewrite filter_cons, filter_nil.
    assert (has_stations ll src ↔ listed_stations ll (index_values c) ≠ [])
      as Hhas by (unfold has_stations; by rewrite Hc).
    destruct Hcases as [(Hnone & -> & _)|(Hsome & sim & ->)].
    + destruct (decide (has_stations ll src)) as [H|_];
        [by apply Hhas in H|]. simpl. by rewrite app_nil_r.
    + destruct (decide (has_stations ll src)) as [_|H];
        [|by destruct H; apply Hhas]. by rewrite map_app.
Qed.

(** The simulations of a store under construction. *)
Lemma registered_reachable ll csvs nproc cf :
  reachable ll csvs nproc cf → registered ll csvs cf.
Proof.
  intros Hreach.
  assert (sink_inv csvs nproc cf ∧ registered ll csvs cf) as [_ H]; [|done].
  apply (reachable_invariant ll csvs nproc
           (λ cf, sink_inv csvs nproc cf ∧ registered ll csvs cf));
    [| |done].
  - split; [apply sink_inv_init|]. unfold registered, init_config. simpl.
    by case_decide.
  - intros cf' [H1 H2]. split; [by apply sink_inv_step|].
    by apply registered_step.
Qed.

(** A completed build has registered the files with a station of interest,
    each once, in the order of [glob]. *)
Lemma completed_build_simulations ll csvs nproc :
  cf_pc (build ll csvs nproc) = AtDone →
  map sim_name (simulations_tbl (cf_db (build ll csvs nproc)))
  = map src_sim (filter (has_stations ll) csvs).
Proof.
  intros Hdone.
  pose proof (registered_reachable _ _ _ _ (build_reachable ll csvs nproc)) as H.
  unfold registered in H. rewrite Hdone in H. simpl in H.
  by rewrite firstn_all in H.
Qed.

(** C2: with a pool of [nproc >= 1] workers, wherever the build stands
    [sink] holds at most [nproc] tasks; a task about to be waited for is in
    [sink] and no task in [sink] has a smaller key; and the simulations
    registered so far are, in the order of their identities, files the loop
    has gone past, in the order [glob] gave them. *)
Theorem prefetch_window_bounded ll csvs nproc cf :
  (1 ≤ nproc)%nat → reachable ll csvs nproc cf →
  (size (cf_sink cf) ≤ nproc)%nat ∧
  (∀ k, awaited csvs cf = Some k →
        (csvs ≠ [] → k ∈ dom (cf_sink cf)) ∧
        ∀ j, j ∈ dom (cf_sink cf) → (k ≤ j)%nat) ∧
  numbered sim_id (simulations_tbl (cf_db cf)) ∧
  map sim_name (simulations_tbl (cf_db cf))
    `sublist_of` map src_sim (take (position csvs (cf_pc cf)) csvs).
Proof.
  intros Hn Hreach.
  pose proof (sink_inv_reachable _ _ _ _ Hreach) as (_ & Hpc & _).
  pose proof (store_inv_reachable _ _ _ _ Hreach) as (Hnum & Hsub & _).
  split; [|split; [|done]].
  - rewrite <- size_dom.
    assert (∃ lo len, (len ≤ nproc)%nat
                      ∧ dom (cf_sink cf) = (set_seq lo len : gset nat))
      as (lo & len & Hlen & ->).
    { pose proof (Nat.le_min_l nproc (length csvs)) as Hw.
      fold (step_size csvs nproc) in Hw.
      destruct (cf_pc cf) as [k| |i|i c|i c|i c| |e]; simpl in Hpc.
      - exists 0%nat, k. split; [lia | apply Hpc].
      - exists 0%nat, (step_size csvs nproc). split; [lia | apply Hpc].
      - eexists _, _. split; [|apply Hpc]. lia.
      - eexists _, _. split; [|apply Hpc]. lia.
      - eexists _, _. split; [|apply Hpc]. lia.
      - eexists _, _. split; [|apply Hpc]. lia.
      - exists 0%nat, 0%nat. split; [lia | apply Hpc].
      - destruct Hpc as (lo & len & ? & ?). exists lo, len. split; [lia|done]. }
    by rewrite size_set_seq.
  - intros k Hk. unfold awaited in Hk.
    destruct (cf_pc cf) as [k'| |i|i c|i c|i c| |e]; simpl in Hpc; try done.
    + injection Hk as <-. destruct Hpc as [_ ->]. split; [|intros; lia].
      intros Hne. apply elem_of_set_seq. unfold step_size.
      destruct csvs; [done|]. simpl. lia.
    + case_decide; [|done]. injection Hk as <-. destruct Hpc as [_ ->].
      split.
      * intros _. apply elem_of_set_seq. unfold step_size. lia.
      * intros j Hj. apply elem_of_set_seq in Hj. lia.
Qed.

Lemma pairs_inv_fresh (db : database) :
  (∀ im tbl, im_tables db !! im = Some tbl → tbl = []) → pairs_inv db.
Proof.
  intros H im tbl Him. rewrite (H _ _ Him). split; constructor.
Qed.

Lemma pairs_inv_step ll csvs nproc cf :
  Forall distinct_columns csvs → Forall (stations_once ll) csvs →
  sink_inv csvs nproc cf → store_inv csvs cf →
  pairs_inv (cf_db cf) → pairs_inv (cf_db (step ll csvs nproc cf)).
Proof.
  intros Hcols Honce. destruct cf as [p sink db ids out].
  intros (_ & Hpc & _) (Hn & _ & Hst & Hv) Hp. unfold step. simpl in *.
  destruct p as [k| |i|i c|i c|i c| |e]; simpl; try done.
  - case_decide; [destruct (apply_async csvs k)|]; by simpl.
  - destruct (sink !! 0%nat) as [[c0|e]|]; try done.
    destruct (__init_db (columns c0)) as [db0|e] eqn:Hdb; [|done]. simpl.
    apply init_db_fresh in Hdb as (_ & _ & _ & Htb). by apply pairs_inv_fresh.
  - case_decide; [destruct (sink !! i) as [[c|e]|]|]; by simpl.
  - by destruct (apply_async csvs (i + step_size csvs nproc)).
  - destruct Hpc as (_ & _ & Hc). unfold apply_async in Hc.
    destruct (csvs !! i) as [src|] eqn:Hsrc; [|done]. injection Hc as Hc.
    apply list_elem_of_lookup_2 in Hsrc.
    rewrite Forall_forall in Hcols, Honce.
    destruct (commit ll csvs i c db ids out) as [[[db' ids'] out'] oe] eqn:Hcm.
    destruct (commit_inv _ _ _ _ _ _ _ _ _ _ _ Hcm Hn Hst Hv) as (_ & _ & H).
    assert (pairs_inv db') as Hp'.
    { apply H; [by apply (Hcols src) | by apply (Honce src) | done]. }
    by destruct oe.
Qed.

(** C3 (as the code has it): wherever a build stands, and so when it has
    completed, no row of a value table has a null value; and a value table
    has at most one row for a (station identity, simulation identity) pair
    as long as no file has the same station of interest on two of its
    retained rows, nor two measure columns that name the same table. *)
Theorem value_tables_well_formed ll csvs nproc cf (im : string)
    (tbl : list im_row) :
  reachable ll csvs nproc cf →
  im_tables (cf_db cf) !! im = Some tbl →
  values_present tbl ∧
  (Forall (stations_once ll) csvs → Forall distinct_columns csvs →
   unique_pairs tbl).
Proof.
  intros Hreach Him. split.
  - pose proof (store_inv_reachable _ _ _ _ Hreach) as (_ & _ & _ & Hv).
    by eapply Hv.
  - intros Honce Hcols.
    assert (sink_inv csvs nproc cf ∧ store_inv csvs cf ∧ pairs_inv (cf_db cf))
      as (_ & _ & Hp).
    { apply (reachable_invariant ll csvs nproc
               (λ cf, sink_inv csvs nproc cf ∧ store_inv csvs cf
                      ∧ pairs_inv (cf_db cf))); [| |exact Hreach].
      - split; [apply sink_inv_init|]. split; [apply store_inv_init|].
        intros im' tbl' H. unfold init_config in H. simpl in H.
        by rewrite lookup_empty in H.
      - intros cf' (H1 & H2 & H3). split; [by apply sink_inv_step|].
        split; [by apply store_inv_step|]. by apply pairs_inv_step. }
    by destruct (Hp _ _ Him).
Qed.

(** ** Row order of an assembled frame *)

Lemma select_station_sorted (tbl : list im_row) (station : Z) :
  Sorted Z.le (map row_simulation_id (select_station tbl station)).
Proof.
  apply (Sorted_fmap _ by_simulation_id); [done|].
  apply Sorted_merge_sort, _.
Qed.

Lemma select_station_rows (tbl : list im_row) (station : Z) (r : im_row) :
  r ∈ select_station tbl station → r ∈ tbl ∧ row_station_id r = station.
Proof.
  unfold select_station. rewrite merge_sort_Permutation.
  intros H. by apply list_elem_of_filter in H as [? ?].
Qed.

Lemma select_station_length (tbl : list im_row) (station : Z) :
  length (select_station tbl station)
  = length (filter (λ r, row_station_id r = station) tbl).
Proof. unfold select_station. by rewrite merge_sort_Permutation. Qed.

Lemma fill_values_exact (rs : list im_row) :
  fill_values (length rs) rs
  = Ok (map row_simulation_id rs, map row_value rs).
Proof.
  unfold fill_values. case_decide; [|lia].
  by rewrite Nat.sub_diag, !app_nil_r.
Qed.

(** The names [select_names] returns, with the identities they belong to. *)
Lemma select_names_resolved (db : database) (ids : list Z) :
  NoDup (map sim_id (simulations_tbl db)) →
  ∃ sel, select_names db ids = map sim_name sel ∧
         Forall (λ s, s ∈ simulations_tbl db ∧ sim_id s ∈ ids) sel ∧
         Sorted Z.le (map sim_id sel) ∧ NoDup (map sim_id sel).
Proof.
  intros Hn. unfold select_names.
  set (sel := merge_sort by_sim_id _). exists sel. split; [done|].
  assert (sel ≡ₚ filter (λ s, sim_id s ∈ ids) (simulations_tbl db)) as Hperm
    by apply merge_sort_Permutation.
  split; [|split].
  - apply Forall_forall. intros s Hs. rewrite Hperm in Hs.
    by apply list_elem_of_filter in Hs as [? ?].
  - apply (Sorted_fmap _ by_sim_id); [done|]. apply Sorted_merge_sort, _.
  - change (map sim_id sel) with (sim_id <$> sel). rewrite Hperm.
    eapply sublist_NoDup; [exact Hn|].
    apply (fmap_sublist sim_id), sublist_filter.
Qed.

(** As many names as identities: the names are those of the identities,
    one by one. *)
Lemma select_names_aligned (db : database) (ids : list Z) :
  NoDup (map sim_id (simulations_tbl db)) → Sorted Z.le ids →
  length (select_names db ids) = length ids →
  Forall2 (λ id name, SimulationRow id name ∈ simulations_tbl db)
    ids (select_names db ids).
Proof.
  intros Hn Hsorted Hlen.
  destruct (select_names_resolved db ids Hn) as (sel & Hsel & Hin & Hs & Hnd).
  rewrite Hsel in Hlen |- *. rewrite length_map in Hlen.
  assert (map sim_id sel = ids) as <-.
  { apply (Sorted_unique Z.le); [done..|].
    apply submseteq_length_Permutation; [|rewrite length_map; lia].
    apply NoDup_submseteq; [done|]. intros id Hid.
    apply list_elem_of_fmap in Hid as (s & -> & Hs').
    rewrite Forall_forall in Hin. by apply Hin. }
  clear -Hin. induction Hin as [|s sel' [Hs _] _ IH]; simpl; constructor.
  - by destruct s.
  - done.
Qed.

Lemma im_at_station_rows (db : database) (im : string) (station : Z)
    (n_sim : nat) (ids : list Z) (vals : list float) :
  __im_at_station db im station n_sim = Ok (ids, vals) →
  ∃ tbl ids', im_tables db !! sql_name im = Some tbl ∧ Sorted Z.le ids' ∧
    Forall2 (λ id v, ImRow station id v ∈ tbl) ids' (take (length ids') vals).
Proof.
  unfold __im_at_station.
  destruct (im_tables db !! sql_name im) as [tbl|]; [|done].
  unfold fill_values. case_decide; [|done]. intros [= <- <-].
  exists tbl, (map row_simulation_id (select_station tbl station)).
  split; [done|]. split; [apply select_station_sorted|].
  rewrite length_map, <- (length_map row_value), take_app_length.
  apply Forall2_fmap, Forall_Forall2_diag, Forall_forall. intros r Hr.
  apply select_station_rows in Hr as [Hr <-]. by destruct r.
Qed.

Lemma assemble_in_identity_order (db : database) (station : Z)
    (nproc : option nat) (df : dataframe) (fx : list effect) :
  NoDup (map sim_id (simulations_tbl db)) →
  assemble db station nproc = (Ok df, fx) → in_identity_order db station df.
Proof.
  intros Hpk. unfold assemble.
  destruct (ims_tbl db) as [|im0 ims] eqn:Hims; [done|].
  destruct (im_tables db !! sql_name im0) as [tbl0|] eqn:Htbl0; [|done].
  case_decide; [done|].
  destruct (mapM _ (im0 :: ims)) as [id_vals|e] eqn:Hmap; [|done].
  case_decide as Hlen; [|done]. intros [= <- _].
  pose proof (mapM_Forall2 _ _ _ Hmap) as Hall.
  destruct id_vals as [|[ids0 vals0] id_vals]; [by inversion Hall|].
  simpl in Hlen.
  assert (ids0 = map row_simulation_id (select_station tbl0 station)
          ∧ vals0 = map row_value (select_station tbl0 station))
    as [Hids0 Hvals0].
  { apply Forall2_cons_1 in Hall as [H0 _]. unfold __im_at_station in H0.
    rewrite Htbl0, <- select_station_length, fill_values_exact in H0.
    by injection H0 as <- <-. }
  assert (Sorted Z.le ids0) as Hsorted
    by (rewrite Hids0; apply select_station_sorted).
  exists ids0. simpl. split; [done|]. split; [|split].
  - apply select_names_aligned; [done..|].
    by rewrite Hlen, Hids0, length_map, select_station_length.
  - exists im0, tbl0, vals0. split; [by rewrite Hims|].
    do 2 (split; [done|]). rewrite Hids0, Hvals0.
    apply Forall2_fmap, Forall_Forall2_diag, Forall_forall. intros r Hr.
    apply select_station_rows in Hr as [Hr <-]. by destruct r.
  - intros im vals Hcol. apply list_elem_of_lookup in Hcol as [j Hj].
    change ((im0, vals0) :: zip ims (map snd id_vals))
      with (zip (im0 :: ims) (map snd ((ids0, vals0) :: id_vals))) in Hj.
    apply lookup_zip_with_Some in Hj as (im' & vals' & [= <- <-] & Him & Hv).
    change (map snd ?l) with (l.*2) in Hv.
    rewrite list_lookup_fmap in Hv.
    destruct (((ids0, vals0) :: id_vals) !! j) as [[idsj valsj]|] eqn:Hj;
      [|done].
    simpl in Hv. injection Hv as ->.
    pose proof (Forall2_lookup_lr _ _ _ _ _ _ Hall Him Hj) as Hat.
    simpl in Hat. by eapply im_at_station_rows.
Qed.

(** C7: what an uncached query of a registered station returns is the
    frame it has assembled, or one column of it, and the rows of that frame
    are in non-decreasing order of simulation identity: there is a sorted
    list of identities, one per row, such that the row labels are the names
    of these simulations, the first column holds the values stored for the
    station with these simulations, and every column holds, from its first
    row on, values stored for the station in non-decreasing order of
    simulation identity.  The first hypothesis is the [PRIMARY KEY] of
    [simulations]. *)
Theorem assembled_rows_in_identity_order (db : database)
    (cache : gmap string dataframe) (station : string) (im : option string)
    (nproc : option nat) (a : answer) :
  NoDup (map sim_id (simulations_tbl db)) →
  station ∈ map stn_name (stations_tbl db) →
  cache !! station = None →
  o_result (station_ims db cache station im nproc) = Ok a →
  ∃ st df,
    st ∈ stations_tbl db ∧ stn_name st = station ∧
    project df im = Ok a ∧ in_identity_order db (stn_id st) df.
Proof.
  intros Hpk Hreg Hcache. unfold station_ims. rewrite Hcache.
  pose proof (filter_name_present _ _ Hreg) as Hne.
  destruct (filter _ (stations_tbl db)) as [|st sts] eqn:Hst; [done|].
  assert (st ∈ stations_tbl db ∧ stn_name st = station) as [Hin Hname].
  { assert (st ∈ filter (λ st, stn_name st = station) (stations_tbl db)) as H
      by (rewrite Hst; by left).
    by apply list_elem_of_filter in H as [? ?]. }
  destruct (assemble db (stn_id st) nproc) as [[df|e] fx] eqn:Hasm; [|done].
  simpl. intros Ha. exists st, df. do 3 (split; [done|]).
  by eapply assemble_in_identity_order.
Qed.

(** ** Station names in returned records *)

Lemma rstrip_nul_length (s : string) :
  (String.length (rstrip_nul s) ≤ String.length s)%nat.
Proof.
  induction s as [|a s IH]; simpl; [done|].
  destruct (rstrip_nul s); [destruct (Ascii.eqb a Ascii.zero)|]; simpl in *; lia.
Qed.

Lemma substring_length_le (n : nat) (s : string) :
  (String.length (String.substring 0 n s) ≤ n)%nat.
Proof.
  revert s. induction n as [|n IH]; intros [|a s]; simpl; try lia.
  specialize (IH s). lia.
Qed.

Lemma S7_length (name cut : string) :
  S7 name = Ok cut → (String.length cut ≤ 7)%nat.
Proof.
  unfold S7. destruct (is_ascii name); [|done]. intros [= <-].
  pose proof (rstrip_nul_length (String.substring 0 7 name)).
  pose proof (substring_length_le 7 name). lia.
Qed.

Lemma S7_long_name (name cut : string) :
  S7 name = Ok cut → (7 < String.length name)%nat → cut ≠ name.
Proof.
  intros H Hlen ->. apply S7_length in H. lia.
Qed.

Section StationFacts.
Variable num : Type.
Variable f4_of_text : string → result num.
Variable of_float : float → num.
Variable of_Z : Z → num.
Variable to_f4 : num → num.
Variables add sub mul div : num → num → num.
Variables np_sin np_cos np_radians np_sqrt : num → num.
Variable np_arctan2 : num → num → num.
Variable earth_radius : num.
Variable precedes : num → num → bool.

Lemma to_record_cut (db : database) (st : station_row) (r : station_rec num) :
  st ∈ stations_tbl db → to_record num f4_of_text st = Ok r → cut_name db r.
Proof.
  intros Hin H. unfold to_record in H.
  apply bind_Ok in H as (name & Hname & H).
  apply bind_Ok in H as (lon & _ & H). apply bind_Ok in H as (lat & _ & H).
  injection H as <-. exists st. simpl. repeat split; try done.
  - by eapply S7_length.
  - by apply S7_long_name.
Qed.

Lemma records_cut (db : database) (sel : list station_row)
    (rs : list (station_rec num)) (r : station_rec num) :
  sel ⊆ stations_tbl db → mapM (to_record num f4_of_text) sel = Ok rs →
  r ∈ rs → cut_name db r.
Proof.
  intros Hsub H Hr. apply mapM_Forall2 in H.
  apply list_elem_of_lookup in Hr as [i Hi].
  destruct (Forall2_lookup_r _ _ _ _ _ H Hi) as (st & Hst & Hrec).
  eapply to_record_cut; [|done]. apply Hsub. by eapply list_elem_of_lookup_2.
Qed.

Lemma argmin_from_bound (best_i i : nat) (best : num) (l : list num) :
  (best_i < i)%nat →
  (argmin_from num precedes best_i best i l < i + length l)%nat.
Proof.
  revert best_i best i. induction l as [|x l IH]; simpl; intros best_i best i Hi.
  - lia.
  - destruct (precedes x best).
    + specialize (IH i x (S i)). lia.
    + specialize (IH best_i best (S i)). lia.
Qed.

(** On a registry with a station, all of whose fields convert,
    [closest_station] returns one of the records together with the distance
    computed for it. *)
Lemma closest_station_returns (db : database) (lon lat : float)
    (rs : list (station_rec num)) :
  mapM (to_record num f4_of_text) (stations_tbl db) = Ok rs → rs ≠ [] →
  ∃ r, r ∈ rs ∧
    closest_station num f4_of_text of_float of_Z to_f4 add sub mul div
      np_sin np_cos np_radians np_sqrt np_arctan2 earth_radius precedes
      db lon lat
    = Ok (r, haversine num of_float of_Z to_f4 add sub mul div np_sin np_cos
               np_radians np_sqrt np_arctan2 earth_radius lon lat r).
Proof.
  intros Hrs Hne. unfold closest_station. rewrite Hrs. simpl.
  destruct rs as [|r0 rs]; [done|]. simpl.
  set (h := haversine num of_float of_Z to_f4 add sub mul div np_sin np_cos
              np_radians np_sqrt np_arctan2 earth_radius lon lat).
  pose proof (argmin_from_bound 0 1 (h r0) (map h rs) ltac:(lia)) as Hi.
  rewrite length_map in Hi.
  set (i := argmin_from num precedes 0 (h r0) 1 (map h rs)) in *.
  destruct (lookup_lt_is_Some_2 (r0 :: rs) i) as [r Hr]; [simpl; lia|].
  change (h r0 :: map h rs) with (map h (r0 :: rs)).
  change (map h (r0 :: rs)) with (h <$> (r0 :: rs)).
  rewrite Hr, list_lookup_fmap, Hr. simpl.
  exists r. split; [by eapply list_elem_of_lookup_2 | done].
Qed.

End StationFacts.

(** * Further properties *)

(** ** The station file *)

Lemma foldM_app {A S : Type} (f : S → A → result S) (s : S) (l1 l2 : list A) :
  foldM f s (l1 ++ l2) = s' ← foldM f s l1; foldM f s' l2.
Proof.
  revert s. induction l1 as [|a l1 IH]; intros s; simpl; [done|].
  destruct (f s a) as [s1|e]; simpl; [apply IH|done].
Qed.

Lemma read_station_file_snoc (lines : list (list string)) (toks : list string)
    (ll : gmap string (string * string)) :
  read_station_file (lines ++ [toks]) = Ok ll →
  ∃ ll1 lon lat name, read_station_file lines = Ok ll1 ∧
    toks = [lon; lat; name] ∧ ll = <[name := (lon, lat)]> ll1.
Proof.
  unfold read_station_file. rewrite foldM_app.
  destruct (foldM _ ∅ lines) as [ll1|e]; simpl; [|done].
  destruct toks as [|lon [|lat [|name [|]]]]; try done.
  intros [= <-]. by exists ll1, lon, lat, name.
Qed.

(** X1: the station file is read when every line has exactly three fields;
    a line with fewer or more fields, a blank line among them, raises
    [ValueError]. *)
Theorem station_file_fields (lines : list (list string)) :
  match read_station_file lines with
  | Ok _ => Forall (λ toks, length toks = 3%nat) lines
  | Raise e => e = ValueError ∧ ¬ Forall (λ toks, length toks = 3%nat) lines
  end.
Proof.
  induction lines as [|toks lines IH] using rev_ind; [by constructor|].
  unfold read_station_file in *. rewrite foldM_app.
  destruct (foldM _ ∅ lines) as [ll1|e]; simpl.
  - destruct toks as [|lon [|lat [|name [|]]]]; simpl;
      try (split; [done|]; intros [_ H]%Forall_app; by inversion H).
    apply Forall_app. split; [done|]. by repeat constructor.
  - destruct IH as [-> Hn]. split; [done|]. by intros [H _]%Forall_app.
Qed.

(** X2: a station has the coordinates of the last line of the station file
    that names it: a later line replaces an earlier one. *)
Theorem station_file_last_line_wins (lines : list (list string))
    (ll : gmap string (string * string)) (name lon lat : string) :
  read_station_file lines = Ok ll →
  ll !! name = Some (lon, lat) ↔
  ∃ k, lines !! k = Some [lon; lat; name] ∧
       ∀ k' toks, (k < k')%nat → lines !! k' = Some toks →
                  toks !! 2%nat ≠ Some name.
Proof.
  revert ll. induction lines as [|toks lines IH] using rev_ind; intros ll Hr.
  - injection Hr as <-. rewrite lookup_empty. split; [done|].
    by intros (k & Hk & _).
  - apply read_station_file_snoc in Hr
      as (ll1 & lon' & lat' & name' & Hr & -> & ->).
    specialize (IH ll1 Hr).
    destruct (decide (name' = name)) as [->|Hne].
    + rewrite lookup_insert_eq. split.
      * intros [= -> ->]. exists (length lines). split.
        { by rewrite lookup_app_r, Nat.sub_diag by lia. }
        intros k' toks Hlt Hk'. apply lookup_lt_Some in Hk'.
        rewrite length_app in Hk'. simpl in Hk'. lia.
      * intros (k & Hk & Hlast).
        destruct (decide (k < length lines)%nat) as [Hlt|Hge].
        { exfalso. apply (Hlast (length lines) [lon'; lat'; name] Hlt); [|done].
          by rewrite lookup_app_r, Nat.sub_diag by lia. }
        rewrite lookup_app_r in Hk by lia.
        destruct (k - length lines)%nat; [|done].
        by injection Hk as -> ->.
    + rewrite lookup_insert_ne by done. rewrite IH. split.
      * intros (k & Hk & Hlast). exists k. split.
        { by apply lookup_app_l_Some. }
        intros k' toks Hlt Hk'.
        destruct (decide (k' < length lines)%nat) as [Hlt'|Hge].
        { rewrite lookup_app_l in Hk' by done. by apply (Hlast k'). }
        rewrite lookup_app_r in Hk' by lia.
        destruct (k' - length lines)%nat; [|done].
        injection Hk' as <-. simpl. congruence.
      * intros (k & Hk & Hlast).
        destruct (decide (k < length lines)%nat) as [Hlt|Hge].
        { rewrite lookup_app_l in Hk by done. exists k. split; [done|].
          intros k' toks Hlt' Hk'. apply (Hlast k' toks Hlt').
          by apply lookup_app_l_Some. }
        rewrite lookup_app_r in Hk by lia.
        destruct (k - length lines)%nat; [|done].
        injection Hk as _ _ ?. congruence.
Qed.

(** ** Measure names in file format *)

Lemma replace_dot_length (s : string) :
  String.length (replace_dot s) = String.length s.
Proof. induction s as [|a s IH]; simpl; congruence. Qed.

Lemma replace_dot_no_dot (s : string) (k : nat) :
  String.get k (replace_dot s) ≠ Some char_dot.
Proof.
  revert k. induction s as [|a s IH]; intros k; simpl; [done|].
  destruct k as [|k]; [|apply IH].
  destruct (Ascii.eqb a char_dot) eqn:Ha.
  - by vm_compute.
  - intros [= ->]. by rewrite Ascii.eqb_refl in Ha.
Qed.

Lemma prefix_pSA (im : string) :
  String.prefix "pSA" im = true →
  ∃ a rest, im = String a rest ∧ fmt_file im = replace_dot rest ∧
    String.prefix "SA" (replace_dot rest) = true ∧
    String.prefix "pSA" (replace_dot rest) = false.
Proof.
  intros Hp. unfold fmt_file. rewrite Hp.
  destruct im as [|a [|b [|c rest]]]; cbn [String.prefix] in Hp; try done;
    repeat (destruct (Ascii.ascii_dec _ _) as [<-|]; try done).
  eexists _, _. split; [done|]. split; [done|].
  cbn [replace_dot]. by destruct (replace_dot rest); split; vm_compute.
Qed.

Lemma fmt_file_never_pSA (im : string) :
  String.prefix "pSA" (fmt_file im) = false.
Proof.
  destruct (String.prefix "pSA" im) eqn:Hp.
  - apply prefix_pSA in Hp as (a & rest & _ & -> & _ & H). done.
  - unfold fmt_file. by rewrite Hp.
Qed.


(** ** Names of at most seven bytes *)

Lemma substring_whole (n : nat) (s : string) :
  (String.length s ≤ n)%nat → String.substring 0 n s = s.
Proof.
  revert n. induction s as [|a s IH]; intros [|n]; simpl; try done; try lia.
  intros H. f_equal. apply IH. lia.
Qed.

Lemma rstrip_nul_no_nul (s : string) :
  (∀ k, String.get k s ≠ Some Ascii.zero) → rstrip_nul s = s.
Proof.
  induction s as [|a s IH]; intros H; simpl; [done|].
  rewrite IH by (intros k; apply (H (S k))).
  destruct s; [|done].
  destruct (Ascii.eqb a Ascii.zero) eqn:Ha; [|done].
  apply Ascii.eqb_eq in Ha. subst a. by destruct (H 0%nat).
Qed.

Lemma S7_whole_name (name : string) : whole_name name → S7 name = Ok name.
Proof.
  intros (Ha & Hlen & Hz). unfold S7. rewrite Ha.
  by rewrite substring_whole, rstrip_nul_no_nul.
Qed.

Lemma filter_absent {A B : Type} `{EqDecision B} (f : A → B) (l : list A)
    (b : B) :
  b ∉ map f l → filter (λ y, f y = b) l = [].
Proof.
  induction l as [|y l IH]; simpl; intros H; [done|].
  rewrite filter_cons, decide_False.
  - apply IH. intros Hin. apply H. by right.
  - intros Heq. apply H. rewrite Heq. by left.
Qed.

Lemma filter_unique {A B : Type} `{EqDecision B} (f : A → B) (l : list A)
    (x : A) :
  NoDup (map f l) → x ∈ l → filter (λ y, f y = f x) l = [x].
Proof.
  induction l as [|y l IH]; simpl; intros Hnd Hx; [by apply elem_of_nil in Hx|].
  apply NoDup_cons in Hnd as [Hy Hnd]. rewrite filter_cons.
  apply elem_of_cons in Hx as [->|Hx].
  - rewrite decide_True by done. f_equal. by apply filter_absent.
  - rewrite decide_False; [by apply IH|].
    intros Heq. apply Hy. rewrite Heq. apply (list_elem_of_fmap_2 f), Hx.
Qed.

Section StationLookups.
Variable num : Type.
Variable f4_of_text : string → result num.
Variable of_float : float → num.
Variable of_Z : Z → num.
Variable to_f4 : num → num.
Variables add sub mul div : num → num → num.
Variables np_sin np_cos np_radians np_sqrt : num → num.
Variable np_arctan2 : num → num → num.
Variable earth_radius : num.
Variable precedes : num → num → bool.

Lemma to_record_stands_for (st : station_row) (r : station_rec num) :
  to_record num f4_of_text st = Ok r ↔ stands_for f4_of_text st r.
Proof.
  unfold to_record, stands_for. split.
  - intros H. apply bind_Ok in H as (name & Hname & H).
    apply bind_Ok in H as (lon & Hlon & H). apply bind_Ok in H as (lat & Hlat & H).
    injection H as <-. simpl. repeat split; try done.
    intros Hw. apply S7_whole_name in Hw. congruence.
  - intros (Hid & Hlon & Hlat & Hname & _). rewrite Hname. simpl.
    rewrite Hlon. simpl. rewrite Hlat. simpl. destruct r. simpl in *.
    by rewrite Hid.
Qed.

Lemma mapM_Ok {A B : Type} (f : A → result B) (l : list A) (bs : list B) :
  Forall2 (λ a b, f a = Ok b) l bs → mapM f l = Ok bs.
Proof.
  induction 1 as [|a b l bs Hab _ IH]; simpl; [done|].
  rewrite Hab. simpl. by rewrite IH.
Qed.

(** X18: with no selection, [station_details] returns one record for each
    station of the registry, in the order of the registry. *)
Theorem station_details_lists_registry (db : database) (ds : details num) :
  station_details num f4_of_text db None None = Ok ds →
  Forall2 (stands_for f4_of_text) (stations_tbl db) (details_records ds).
Proof.
  unfold station_details. intros H. apply bind_Ok in H as (rs & Hrs & H).
  apply mapM_Forall2 in Hrs.
  assert (details_records ds = rs) as ->.
  { destruct rs as [|r0 [|r1 rs]]; by injection H as <-. }
  eapply Forall2_impl; [done|]. intros st r. by apply to_record_stands_for.
Qed.

(** X19: a name or an identity selects the one station that carries it, and
    the record is returned bare; a name or an identity that no station
    carries gives the empty array.  The name is what selects when both a
    name and an identity are given. *)
Theorem station_details_selects (db : database) :
  NoDup (map stn_name (stations_tbl db)) →
  NoDup (map stn_id (stations_tbl db)) →
  (∀ st r station_id,
     st ∈ stations_tbl db → stands_for f4_of_text st r →
     station_details num f4_of_text db (Some (stn_name st)) station_id
     = Ok (OneStation r)) ∧
  (∀ st r,
     st ∈ stations_tbl db → stands_for f4_of_text st r →
     station_details num f4_of_text db None (Some (stn_id st))
     = Ok (OneStation r)) ∧
  (∀ name station_id,
     name ∉ map stn_name (stations_tbl db) →
     station_details num f4_of_text db (Some name) station_id
     = Ok (Stations [])) ∧
  (∀ id,
     id ∉ map stn_id (stations_tbl db) →
     station_details num f4_of_text db None (Some id) = Ok (Stations [])).
Proof.
  intros Hn Hi. unfold station_details. repeat split.
  - intros st r sid Hst Hr. rewrite (filter_unique stn_name) by done.
    apply to_record_stands_for in Hr. simpl. by rewrite Hr.
  - intros st r Hst Hr. rewrite (filter_unique stn_id) by done.
    apply to_record_stands_for in Hr. simpl. by rewrite Hr.
  - intros name sid Hname. by rewrite (filter_absent stn_name).
  - intros id Hid. by rewrite (filter_absent stn_id).
Qed.

(** X20: on a registry whose fields all convert, [closest_station] raises
    [ValueError] when there is no station, and otherwise returns one of the
    records of the registry with the distance computed for that record. *)
Theorem closest_station_on_registry (db : database) (lon lat : float)
    (rs : list (station_rec num)) :
  Forall2 (stands_for f4_of_text) (stations_tbl db) rs →
  let found :=
    closest_station num f4_of_text of_float of_Z to_f4 add sub mul div
      np_sin np_cos np_radians np_sqrt np_arctan2 earth_radius precedes
      db lon lat in
  match rs with
  | [] => found = Raise ValueError
  | _ =>
      ∃ r, r ∈ rs ∧
        found
        = Ok (r, haversine num of_float of_Z to_f4 add sub mul div np_sin
                   np_cos np_radians np_sqrt np_arctan2 earth_radius
                   lon lat r)
  end.
Proof.
  intros Hrs found.
  assert (mapM (to_record num f4_of_text) (stations_tbl db) = Ok rs) as Hm.
  { apply mapM_Ok. eapply Forall2_impl; [done|].
    intros st r. by apply to_record_stands_for. }
  destruct rs as [|r0 rs].
  - subst found. unfold closest_station. by rewrite Hm.
  - by apply closest_station_returns.
Qed.
End StationLookups.

Lemma commit_cases ll csvs (i : nat) (c : table) (db db' : database)
    (ids ids' : gmap string Z) (out out' : list message) (oe : option exn) :
  commit ll csvs i c db ids out = (db', ids', out', oe) →
  commit_case ll csvs i c db ids out db' ids' out' oe.
Proof.
  unfold commit. destruct (csvs !! i) as [src|] eqn:Hsrc.
  2:{ intros [= <- <- <- <-]. by constructor. }
  case_decide as Hlen.
  { intros [= <- <- <- <-]. apply commit_skipped; [done|].
    by destruct (listed_stations ll (index_values c)). }
  assert (listed_stations ll (index_values c) ≠ []) as Hne
    by (by intros E; rewrite E in Hlen).
  destruct (__add_simulation db (src_sim src)) as [[db1 sim]|e] eqn:Hadd.
  2:{ intros [= <- <- <- <-]. by eapply commit_simulation_failed. }
  destruct (__expand_stations db1 ids _ ll) as [[db2 ids2]|e] eqn:Hexp.
  2:{ intros [= <- <- <- <-]. by eapply commit_stations_failed. }
  destruct (loc c _ ≫= _) as [db3|e] eqn:Hstore.
  2:{ intros [= <- <- <- <-]. by eapply commit_values_failed. }
  intros [= <- <- <- <-]. apply bind_Ok in Hstore as (t & Hloc & Hstore).
  by eapply commit_stored.
Qed.

(** ** Induction along a build *)

Lemma reachable_ind ll csvs nproc (P : config → Prop) :
  P (init_config nproc) →
  (∀ cf, reachable ll csvs nproc cf → P cf → P (step ll csvs nproc cf)) →
  ∀ cf, reachable ll csvs nproc cf → P cf.
Proof.
  intros H0 Hstep cf [n <-]. induction n as [|n IH]; [exact H0|].
  rewrite run_S. apply Hstep; [by exists n | done].
Qed.

(** The frame at a commit is the frame of the file. *)
Lemma commit_frame ll csvs nproc (i : nat) (c : table) sink db ids out :
  reachable ll csvs nproc (Config (AtCommit i c) sink db ids out) →
  ∃ src, csvs !! i = Some src ∧ __pandas_loader (src_csv src) = Ok c.
Proof.
  intros Hreach.
  destruct (sink_inv_reachable _ _ _ _ Hreach) as (_ & Hinv & _).
  simpl in Hinv. destruct Hinv as (_ & _ & Hc).
  unfold apply_async in Hc. destruct (csvs !! i) as [src|] eqn:Hsrc; [|done].
  injection Hc as Hc. by exists src.
Qed.

Lemma build_invariant ll csvs nproc
    (R : nat → database → gmap string Z → list message → Prop) :
  (∀ src0 c0 db,
     csvs !! 0%nat = Some src0 → __pandas_loader (src_csv src0) = Ok c0 →
     __init_db (columns c0) = Ok db → R 0%nat db ∅ []) →
  (∀ i src c sink db ids out db' ids' out',
     reachable ll csvs nproc (Config (AtCommit i c) sink db ids out) →
     csvs !! i = Some src → __pandas_loader (src_csv src) = Ok c →
     R i db ids out →
     commit ll csvs i c db ids out = (db', ids', out', None) →
     R (S i) db' ids' out') →
  ∀ cf, reachable ll csvs nproc cf → at_position csvs R cf.
Proof.
  intros Hinit Hcommit cf Hreach.
  assert (at_position csvs R cf ∧
          match cf_pc cf with
          | AtPrefetch _ | AtInit => cf_out cf = []
          | _ => True
          end) as [H _]; [|done].
  revert cf Hreach. apply reachable_ind.
  { unfold at_position, init_config. simpl. by case_decide. }
  intros cf Hreach [HR Hout].
  pose proof (sink_inv_reachable _ _ _ _ Hreach) as (Htask & Hpc & _).
  destruct cf as [p sink db ids out]. unfold at_position, step in *.
  simpl in *. destruct p as [k| |i|i c|i c|i c| |e]; simpl in *.
  - case_decide; [destruct (apply_async csvs k)|]; by simpl.
  - destruct (sink !! 0%nat) as [[c0|e]|] eqn:H0; try done.
    destruct (__init_db (columns c0)) as [db0|e] eqn:Hdb; [|done]. simpl.
    split; [|done]. apply Htask in H0. unfold apply_async in H0.
    destruct (csvs !! 0%nat) as [src0|] eqn:Hsrc0; [|done].
    injection H0 as H0. subst out. by eapply Hinit.
  - destruct Hpc as [[_ Hi] _].
    case_decide; [by destruct (sink !! i) as [[c|e]|]|]. simpl.
    split; [|done]. exists out. split; [done|].
    by replace (length csvs) with i by lia.
  - done.
  - by destruct (apply_async csvs (i + step_size csvs nproc)).
  - destruct (commit_frame _ _ _ _ _ _ _ _ _ Hreach) as (src & Hsrc & Hc).
    destruct (commit ll csvs i c db ids out) as [[[db' ids'] out'] [e|]] eqn:Hcm;
      [done|]. simpl. split; [|done]. by eapply Hcommit.
  - done.
  - done.
Qed.

Lemma store_invariant ll csvs nproc (P : database → gmap string Z → Prop) :
  P no_tables ∅ →
  (∀ src0 c0 db,
     csvs !! 0%nat = Some src0 → __pandas_loader (src_csv src0) = Ok c0 →
     __init_db (columns c0) = Ok db → P db ∅) →
  (∀ i src c sink db ids out db' ids' out' oe,
     reachable ll csvs nproc (Config (AtCommit i c) sink db ids out) →
     csvs !! i = Some src → __pandas_loader (src_csv src) = Ok c →
     P db ids →
     commit ll csvs i c db ids out = (db', ids', out', oe) →
     P db' ids') →
  ∀ cf, reachable ll csvs nproc cf → P (cf_db cf) (cf_station_ids cf).
Proof.
  intros H0 Hinit Hcommit. apply reachable_ind.
  { by unfold init_config. }
  intros cf Hreach HP.
  pose proof (sink_inv_reachable _ _ _ _ Hreach) as (Htask & Hpc & _).
  destruct cf as [p sink db ids out]. unfold step in *.
  simpl in *. destruct p as [k| |i|i c|i c|i c| |e]; simpl in *.
  - case_decide; [destruct (apply_async csvs k)|]; by simpl.
  - destruct (sink !! 0%nat) as [[c0|e]|] eqn:Hs0; try done.
    destruct (__init_db (columns c0)) as [db0|e] eqn:Hdb; [|done]. simpl.
    apply Htask in Hs0. unfold apply_async in Hs0.
    destruct (csvs !! 0%nat) as [src0|] eqn:Hsrc0; [|done].
    injection Hs0 as Hs0. by eapply Hinit.
  - case_decide; [by destruct (sink !! i) as [[c|e]|]|]. done.
  - done.
  - by destruct (apply_async csvs (i + step_size csvs nproc)).
  - destruct (commit_frame _ _ _ _ _ _ _ _ _ Hreach) as (src & Hsrc & Hc).
    destruct (commit ll csvs i c db ids out) as [[[db' ids'] out'] oe] eqn:Hcm.
    assert (P db' ids') by (by eapply Hcommit).
    by destruct oe.
  - done.
  - done.
Qed.

(** ** [__expand_stations] *)

Lemma filter_none {A : Type} (P : A → Prop) `{∀ x, Decision (P x)}
    (l : list A) :
  (∀ x, x ∈ l → ¬ P x) → filter P l = [].
Proof.
  induction l as [|x l IH]; intros Hl; [done|].
  rewrite filter_cons, decide_False by (apply Hl; by left).
  apply IH. intros y Hy. apply Hl. by right.
Qed.

Lemma foldM_insert_station ll (new : list string)
    (st st' : list station_row * gmap string Z) :
  foldM (insert_station ll) st new = Ok st' →
  ∃ rows, st'.1 = st.1 ++ rows ∧ map stn_name rows = new ∧
    Forall (located ll) rows ∧
    (∀ s, s ∈ new → is_Some (st'.2 !! s)) ∧
    (∀ s, s ∉ new → st'.2 !! s = st.2 !! s) ∧
    NoDup new ∧ (∀ s, s ∈ new → s ∉ map stn_name st.1).
Proof.
  revert st. induction new as [|s new IH]; simpl; intros st H.
  - injection H as <-. exists []. rewrite app_nil_r.
    repeat split; try done; try constructor.
    + intros s Hs. by apply elem_of_nil in Hs.
    + intros s Hs. by apply elem_of_nil in Hs.
  - apply bind_Ok in H as (st1 & H1 & H). unfold insert_station in H1.
    destruct (ll !! s) as [[lon lat]|] eqn:Hll; [|done].
    case_decide as Hfresh; [done|]. injection H1 as <-.
    destruct (IH _ H) as (rows & Hrows & Hnames & Hloc & Hin & Hout & Hnd & Hdisj).
    simpl in *.
    assert (s ∉ new) as Hs.
    { intros Hs. apply (Hdisj s Hs). rewrite map_app. apply elem_of_app.
      right. simpl. by left. }
    exists (StationRow (next_rowid st.1) s lon lat :: rows). repeat split.
    + by rewrite Hrows, <- app_assoc.
    + simpl. by rewrite Hnames.
    + constructor; [done|done].
    + intros s' [->|Hs']%elem_of_cons; [|by apply Hin].
      rewrite Hout by done. rewrite lookup_insert_eq. by eexists.
    + intros s' Hs'. rewrite Hout.
      * apply lookup_insert_ne. intros ->. apply Hs'. by left.
      * intros ?. apply Hs'. by right.
    + by constructor.
    + intros s' [->|Hs']%elem_of_cons; [done|].
      intros Hin'. apply (Hdisj s' Hs'). rewrite map_app. apply elem_of_app.
      by left.
Qed.

Lemma foldM_insert_station_listed ll (new : list string)
    (st : list station_row * gmap string Z) :
  (∀ s, s ∈ new → is_Some (ll !! s)) →
  match foldM (insert_station ll) st new with
  | Ok _ => True
  | Raise e =>
      e = IntegrityError ∧
      ¬ (NoDup new ∧ ∀ s, s ∈ new → s ∉ map stn_name st.1)
  end.
Proof.
  revert st. induction new as [|s new IH]; simpl; intros st Hll; [done|].
  unfold insert_station at 2. destruct (Hll s) as [[lon lat] ->]; [by left|].
  case_decide as Hfresh; simpl.
  { split; [done|]. intros [_ H]. apply (H s); [by left | done]. }
  specialize (IH (st.1 ++ [StationRow (next_rowid st.1) s lon lat],
                  <[s := next_rowid st.1]> st.2)).
  destruct (foldM _ _ new) as [st'|e]; [done|].
  destruct IH as [-> Hno]; [intros s' Hs'; apply Hll; by right|].
  split; [done|]. intros [Hnd Hdisj]. apply Hno.
  apply NoDup_cons in Hnd as [Hs Hnd]. split; [done|]. simpl.
  intros s' Hs'. rewrite map_app. intros [Hin|Hin]%elem_of_app.
  - apply (Hdisj s'); [by right | done].
  - simpl in Hin. apply list_elem_of_singleton in Hin as ->. done.
Qed.

(** What a successful [__expand_stations] has done. *)
Lemma expand_stations_grows ll (db db2 : database)
    (ids ids2 : gmap string Z) (stations : list string) :
  __expand_stations db ids stations ll = Ok (db2, ids2) →
  (∀ s, s ∈ stations → is_Some (ids2 !! s)) ∧
  (∀ s id, ids !! s = Some id → ids2 !! s = Some id) ∧
  (∃ rows, stations_tbl db2 = stations_tbl db ++ rows ∧
     map stn_name rows = filter (λ s, ids !! s = None) stations ∧
     NoDup (map stn_name rows) ∧ Forall (located ll) rows).
Proof.
  unfold __expand_stations at 1. intros H.
  apply bind_Ok in H as ([stns ids1] & Hfold & [= <- <-]).
  apply foldM_insert_station in Hfold
    as (rows & Hrows & Hnames & Hloc & Hin & Hout & Hnd & _).
  simpl in *. split; [|split].
  - intros s Hs. destruct (ids !! s) as [id|] eqn:Hid.
    + rewrite Hout; [by rewrite Hid|].
      intros [E _]%list_elem_of_filter. congruence.
    + apply Hin. by apply list_elem_of_filter.
  - intros s id Hid. rewrite Hout; [done|].
    intros [E _]%list_elem_of_filter. congruence.
  - exists rows. by rewrite Hnames.
Qed.

(** X4: a successful [__expand_stations] leaves every requested station
    with an identity, changes no identity that was known, appends one row
    for each station that was not known, with the coordinates of the
    station file, and is idempotent. *)
Theorem expand_stations_registers ll (db db2 : database)
    (ids ids2 : gmap string Z) (stations : list string) :
  __expand_stations db ids stations ll = Ok (db2, ids2) →
  (∀ s, s ∈ stations → is_Some (ids2 !! s)) ∧
  (∀ s id, ids !! s = Some id → ids2 !! s = Some id) ∧
  (∃ rows, stations_tbl db2 = stations_tbl db ++ rows ∧
     map stn_name rows = filter (λ s, ids !! s = None) stations ∧
     NoDup (map stn_name rows) ∧ Forall (located ll) rows) ∧
  __expand_stations db2 ids2 stations ll = Ok (db2, ids2).
Proof.
  intros H. destruct (expand_stations_grows _ _ _ _ _ _ H) as (Hall & Hkeep & Hrows).
  do 3 (split; [done|]).
  unfold __expand_stations. rewrite filter_none; [by destruct db2|].
  intros s Hs E. apply Hall in Hs as [id Hid]. congruence.
Qed.

Lemma expand_stations_raises ll (db : database) (ids : gmap string Z)
    (stations : list string) (e : exn) :
  mirrors db ids → (∀ s, s ∈ stations → is_Some (ll !! s)) →
  __expand_stations db ids stations ll = Raise e →
  e = IntegrityError ∧ ¬ NoDup (filter (λ s, ids !! s = None) stations).
Proof.
  intros Hm Hll. unfold __expand_stations.
  pose proof (foldM_insert_station_listed ll
                (filter (λ s, ids !! s = None) stations)
                (stations_tbl db, ids)) as Hl.
  destruct (foldM _ _ _) as [st'|e'] eqn:Hfold; simpl; [done|].
  intros [= <-]. destruct Hl as [-> Hno].
  { intros s [_ Hs]%list_elem_of_filter. by apply Hll. }
  split; [done|]. intros Hnd. apply Hno. split; [done|]. simpl.
  intros s [E _]%list_elem_of_filter Hin. apply Hm in Hin as [id Hid].
  congruence.
Qed.

(** X5: when [station_ids] mirrors the registry and every requested station
    is in the station file, [__expand_stations] fails exactly when a station
    that is not known yet is requested twice, and then with
    [IntegrityError]. *)
Theorem expand_stations_rejects ll (db : database) (ids : gmap string Z)
    (stations : list string) :
  mirrors db ids → (∀ s, s ∈ stations → is_Some (ll !! s)) →
  match __expand_stations db ids stations ll with
  | Ok _ => NoDup (filter (λ s, ids !! s = None) stations)
  | Raise e =>
      e = IntegrityError ∧ ¬ NoDup (filter (λ s, ids !! s = None) stations)
  end.
Proof.
  intros Hm Hll.
  destruct (__expand_stations db ids stations ll) as [[db' ids']|e] eqn:H.
  - apply expand_stations_grows in H as (_ & _ & rows & _ & <- & ? & _). done.
  - by eapply expand_stations_raises.
Qed.

(** ** The registries along a build *)

Lemma add_simulation_fresh (db db1 : database) (name : string) (id : Z) :
  __add_simulation db name = Ok (db1, id) →
  name ∉ map sim_name (simulations_tbl db).
Proof. unfold __add_simulation. by case_decide. Qed.

Lemma listed_stations_spec ll (labels : list string) (s : string) :
  s ∈ listed_stations ll labels ↔ is_Some (ll !! s) ∧ s ∈ labels.
Proof. unfold listed_stations. by rewrite list_elem_of_filter. Qed.

Lemma registry_inv_expand ll csvs (src : source) (c : table)
    (db db1 db2 : database) (sim : Z) (ids ids' : gmap string Z) :
  src ∈ csvs → __pandas_loader (src_csv src) = Ok c →
  registry_inv ll csvs db ids →
  __add_simulation db (src_sim src) = Ok (db1, sim) →
  (registry_inv ll csvs db1 ids) ∧
  (__expand_stations db1 ids (listed_stations ll (index_values c)) ll
   = Ok (db2, ids') →
   registry_inv ll csvs db2 ids').
Proof.
  intros Hsrc Hc (Hsims & Hm & Hnd & Hst) Hadd.
  pose proof (add_simulation_fresh _ _ _ _ Hadd) as Hfresh.
  apply add_simulation_ok in Hadd as [_ ->].
  assert (registry_inv ll csvs
            (Database (ims_tbl db) (stations_tbl db)
               (simulations_tbl db ++ [SimulationRow sim (src_sim src)])
               (im_tables db)) ids) as H1.
  { split; [|done]. simpl. rewrite map_app. apply NoDup_app.
    split; [done|]. split; [|by apply NoDup_singleton].
    intros s Hs Hs'. simpl in Hs'. apply list_elem_of_singleton in Hs' as ->.
    done. }
  split; [done|]. intros Hexp.
  pose proof (expand_stations_ok _ _ _ _ _ _ Hexp) as (_ & Hs2 & _).
  unfold __expand_stations in Hexp.
  apply bind_Ok in Hexp as ([stns ids1] & Hfold & [= <- <-]).
  apply foldM_insert_station in Hfold
    as (rows & Hrows & Hnames & Hloc & Hin & Hout & Hndn & Hdisj).
  simpl in *. split; [|split; [|split]]; simpl.
  - rewrite map_app. apply NoDup_app.
    split; [done|]. split; [|by apply NoDup_singleton].
    intros s Hs Hs'. simpl in Hs'. apply list_elem_of_singleton in Hs' as ->.
    done.
  - intros s. simpl. rewrite Hrows, map_app, elem_of_app, Hnames.
    destruct (decide (s ∈ filter (λ s, ids !! s = None)
                            (listed_stations ll (index_values c))))
      as [Hs|Hs].
    + split; [by right | intros _; by apply Hin].
    + rewrite Hout by done. rewrite (Hm s). simpl. split; [by left|].
      by intros [?|?].
  - rewrite Hrows, map_app. apply NoDup_app. split; [done|]. split.
    + intros s Hs Hs'. rewrite Hnames in Hs'. by apply (Hdisj s).
    + by rewrite Hnames.
  - rewrite Hrows. apply Forall_app. split; [done|].
    apply Forall_forall. intros st Hin'. split.
    + by eapply Forall_forall in Hloc.
    + assert (stn_name st ∈ filter (λ s, ids !! s = None)
                                (listed_stations ll (index_values c))) as Hl.
      { rewrite <- Hnames. by apply (list_elem_of_fmap_2 stn_name). }
      apply list_elem_of_filter in Hl as [_ Hl].
      apply listed_stations_spec in Hl as [_ Hl]. by exists src, c.
Qed.

Lemma registry_inv_store (ll : gmap string (string * string))
    (csvs : list source) (db db' : database) (ids : gmap string Z) :
  simulations_tbl db' = simulations_tbl db →
  stations_tbl db' = stations_tbl db →
  registry_inv ll csvs db ids → registry_inv ll csvs db' ids.
Proof.
  unfold registry_inv, mirrors. by intros -> ->.
Qed.

Lemma registry_inv_reachable ll csvs nproc cf :
  reachable ll csvs nproc cf →
  registry_inv ll csvs (cf_db cf) (cf_station_ids cf).
Proof.
  apply store_invariant.
  - split; [constructor|]. split; [|split; constructor].
    intros s. simpl. rewrite lookup_empty. split; [by intros [? ?]|].
    by intros ?%elem_of_nil.
  - intros src0 c0 db _ _ Hdb.
    apply init_db_fresh in Hdb as (_ & Hst & Hs & _).
    unfold registry_inv, mirrors. rewrite Hst, Hs.
    split; [constructor|]. split; [|split; constructor].
    intros s. simpl. rewrite lookup_empty. split; [by intros [? ?]|].
    by intros ?%elem_of_nil.
  - intros i src c sink db ids out db' ids' out' oe _ Hsrc Hc Hinv Hcm.
    apply list_elem_of_lookup_2 in Hsrc as Hin.
    apply commit_cases in Hcm.
    destruct Hcm as [ |src' _ _|src' e _ _ _|src' db1 sim e Hsrc' _ Hadd _
                    |src' db1 sim db2 ids2 e Hsrc' _ Hadd Hexp _
                    |src' db1 sim db2 ids2 t db3 Hsrc' _ Hadd Hexp _ Hstore];
      try done.
    + assert (src' = src) as -> by congruence.
      by destruct (registry_inv_expand ll csvs src c db db1 db1 sim ids ids
                     Hin Hc Hinv Hadd) as [? _].
    + assert (src' = src) as -> by congruence.
      destruct (registry_inv_expand ll csvs src c db db1 db2 sim ids ids2
                  Hin Hc Hinv Hadd) as [_ H]. by apply H.
    + assert (src' = src) as -> by congruence.
      destruct (registry_inv_expand ll csvs src c db db1 db2 sim ids ids2
                  Hin Hc Hinv Hadd) as [_ H].
      apply store_ims_ok in Hstore as (_ & Hst3 & Hs3 & _).
      eapply registry_inv_store; [done..|]. by apply H.
Qed.

(** ** What the main loop has done when it has gone past [n] files *)

Lemma foldM_create_im_table_dom (ims : list string)
    (tbls tbls' : gmap string (list im_row)) :
  foldM create_im_table tbls ims = Ok tbls' →
  dom tbls' = dom tbls ∪ list_to_set (map sql_name ims).
Proof.
  revert tbls. induction ims as [|im ims IH]; simpl; intros tbls H.
  - injection H as <-. by rewrite union_empty_r_L.
  - apply bind_Ok in H as (tbls1 & H1 & H2). unfold create_im_table in H1.
    case_decide; [done|]. destruct (tbls !! sql_name im); [done|].
    injection H1 as <-. rewrite (IH _ H2), dom_insert_L.
    by rewrite (union_comm_L {[sql_name im]} (dom tbls)), union_assoc_L.
Qed.

Lemma init_db_dom (ims : list string) (db : database) :
  __init_db ims = Ok db →
  dom (im_tables db) = list_to_set (map sql_name ims).
Proof.
  unfold __init_db. intros H.
  apply bind_Ok in H as (names & _ & H). apply bind_Ok in H as (tbls & H2 & H).
  injection H as <-. simpl. rewrite (foldM_create_im_table_dom _ _ _ H2).
  by rewrite dom_empty_L, union_empty_l_L.
Qed.

Lemma store_columns_dom (t : table) (sts sims : list Z) (cols : list string)
    (tbls tbls' : gmap string (list im_row)) :
  foldM (store_column t sts sims) tbls cols = Ok tbls' →
  dom tbls' = dom tbls ∧ ∀ im, im ∈ cols → sql_name im ∈ dom tbls.
Proof.
  revert tbls. induction cols as [|im cols IH]; simpl; intros tbls H.
  - injection H as <-. split; [done|]. by intros im ?%elem_of_nil.
  - apply bind_Ok in H as (tbls1 & H1 & H2).
    apply store_column_ok in H1 as (tbl & vals & Hl & -> & _).
    destruct (IH _ H2) as [Hd Hin].
    assert (dom (<[sql_name im := tbl ++ map value_row (zip (zip sts sims) vals)]>
                   tbls) = dom tbls) as Hsame.
    { apply dom_insert_lookup_L. by eexists. }
    rewrite Hsame in *. split; [done|].
    intros im' [->|Him']%elem_of_cons; [|by apply Hin].
    apply elem_of_dom. by eexists.
Qed.

Lemma progress_snoc ll (total : nat) (files : list source) (src : source)
    (registered : nat) :
  progress ll total (files ++ [src]) registered
  = progress ll total files registered
    ++ [if decide (has_stations ll src)
        then MsgProgress
               (Z.of_nat
                  (registered + length (filter (has_stations ll) files)) + 1)
               total
        else MsgNoStations (src_sim src)].
Proof.
  revert registered. induction files as [|f files IH]; intros r; simpl.
  - rewrite Nat.add_0_r. by destruct (decide (has_stations ll src)).
  - rewrite filter_cons. destruct (decide (has_stations ll f)); simpl;
      rewrite IH; [|done].
    do 2 f_equal. destruct (decide (has_stations ll src)); [|done].
    do 2 f_equal. lia.
Qed.

Lemma has_stations_frame ll (src : source) (c : table) :
  __pandas_loader (src_csv src) = Ok c →
  has_stations ll src ↔ listed_stations ll (index_values c) ≠ [].
Proof. intros H. unfold has_stations. by rewrite H. Qed.

Lemma passed_inv_reachable ll csvs nproc cf :
  reachable ll csvs nproc cf → at_position csvs (passed_inv ll csvs) cf.
Proof.
  apply build_invariant.
  - intros src0 c0 db Hsrc0 Hc0 Hdb. split; [intros; lia|]. split; [|split].
    + exists src0, c0. do 2 (split; [done|]).
      split; [by apply init_db_fresh in Hdb as [? _] | by apply init_db_dom].
    + intros; lia.
    + done.
  - intros i src c sink db ids out db' ids' out' Hreach Hsrc Hc
      (Hknown & Hims & Hcols & Hout) Hcm.
    pose proof (registered_reachable _ _ _ _ Hreach) as Hreg.
    unfold registered in Hreg. simpl in Hreg.
    pose proof (has_stations_frame ll src c Hc) as Hhas.
    apply commit_cases in Hcm. inversion Hcm
      as [ |src' Hsrc' Hnone| | |
         |src' db1 sim db2 ids2 t db3 Hsrc' Hsome Hadd Hexp Hloc Hstore];
      subst; assert (src' = src) as -> by congruence.
    + (* the file is skipped *)
      split; [|split; [done|split]].
      * intros k src' c' s Hk Hsrc'' Hc' Hs.
        destruct (decide (k = i)) as [->|Hne].
        -- assert (src' = src) as -> by congruence.
           assert (c' = c) as -> by congruence.
           rewrite Hnone in Hs. by apply elem_of_nil in Hs.
        -- eapply Hknown; [|done..]. lia.
      * intros k src' c' im Hk Hsrc'' Hc' Hne.
        destruct (decide (k = i)) as [->|Hne'].
        -- assert (src' = src) as -> by congruence.
           assert (c' = c) as -> by congruence. done.
        -- eapply Hcols; [|done..]. lia.
      * rewrite (take_S_r _ _ _ Hsrc), progress_snoc.
        rewrite decide_False; [done|]. intros H. by apply Hhas in H.
    + (* the file is stored *)
      pose proof (add_simulation_ok _ _ _ _ Hadd) as [Hsim ->].
      pose proof (expand_stations_ok _ _ _ _ _ _ Hexp) as (Hi2 & _ & Ht2 & _).
      apply expand_stations_grows in Hexp as (Hall & Hkeep & _).
      pose proof (loc_ok _ _ _ Hloc) as [Hcolumns _].
      apply store_ims_ok in Hstore as (Hi3 & _ & _ & sts & _ & Hfold).
      apply store_columns_dom in Hfold as [Hdom Hin].
      simpl in *. rewrite Ht2 in Hdom, Hin.
      split; [|split; [|split]].
      * intros k src' c' s Hk Hsrc'' Hc' Hs.
        destruct (decide (k = i)) as [->|Hne].
        -- assert (src' = src) as -> by congruence.
           assert (c' = c) as -> by congruence. by apply Hall.
        -- destruct (Hknown k src' c' s) as [id Hid]; [lia|done..|].
           exists id. by apply Hkeep.
      * destruct Hims as (src0 & c0 & H0 & Hc0 & Hi & Hd).
        exists src0, c0. do 2 (split; [done|]).
        split; [by rewrite Hi3, Hi2 | by rewrite Hdom].
      * intros k src' c' im Hk Hsrc'' Hc' Hne Him. rewrite Hdom.
        destruct (decide (k = i)) as [->|Hne'].
        -- assert (src' = src) as -> by congruence.
           assert (c' = c) as -> by congruence.
           apply Hin. by rewrite Hcolumns.
        -- eapply Hcols; [|done..]. lia.
      * rewrite (take_S_r _ _ _ Hsrc), progress_snoc.
        rewrite decide_True by (by apply Hhas). do 3 f_equal.
        rewrite Hsim. unfold next_rowid.
        by rewrite <- (length_map sim_name), Hreg, length_map.
Qed.

Lemma completed_build_passed ll csvs nproc :
  cf_pc (build ll csvs nproc) = AtDone →
  ∃ out, cf_out (build ll csvs nproc) = out ++ [MsgComplete] ∧
    passed_inv ll csvs (length csvs) (cf_db (build ll csvs nproc))
      (cf_station_ids (build ll csvs nproc)) out.
Proof.
  intros Hdone.
  pose proof (passed_inv_reachable _ _ _ _ (build_reachable ll csvs nproc)) as H.
  unfold at_position in H. by rewrite Hdone in H.
Qed.

(** ** The registries of a build *)


Lemma completed_build_simulation_rows ll csvs nproc :
  cf_pc (build ll csvs nproc) = AtDone →
  simulations_tbl (cf_db (build ll csvs nproc))
  = imap (λ k src, SimulationRow (Z.of_nat k + 1) (src_sim src))
      (filter (has_stations ll) csvs).
Proof.
  intros Hdone.
  pose proof (completed_build_simulations _ _ _ Hdone) as Hnames.
  pose proof (build_reachable ll csvs nproc) as Hreach.
  pose proof (store_inv_reachable _ _ _ _ Hreach) as (Hnum & _).
  apply list_eq. intros k. rewrite list_lookup_imap.
  assert (sim_name <$> simulations_tbl (cf_db (build ll csvs nproc)) !! k
          = src_sim <$> filter (has_stations ll) csvs !! k) as Hk.
  { rewrite <- !list_lookup_fmap. by f_equal. }
  destruct (simulations_tbl _ !! k) as [[id name]|] eqn:Hrow;
    destruct (filter _ csvs !! k) as [src|]; simpl in *; try done.
  apply Hnum in Hrow. simpl in Hrow. congruence.
Qed.


(** X10: when a build has completed there was a file, and the measures of
    the store are the columns of the first file [glob] found, in the order
    of the file, whether or not that file has a station of interest; there
    is one value table for each of them; and every column of a file that
    was ingested names one of these tables. *)
Theorem completed_build_measures ll csvs nproc :
  cf_pc (build ll csvs nproc) = AtDone →
  ∃ src0 c0,
    csvs !! 0%nat = Some src0 ∧ __pandas_loader (src_csv src0) = Ok c0 ∧
    ims (cf_db (build ll csvs nproc)) "imdb" = columns c0 ∧
    (∀ key, is_Some (im_tables (cf_db (build ll csvs nproc)) !! key)
            ↔ key ∈ map sql_name (columns c0)) ∧
    ∀ src c im,
      src ∈ csvs → __pandas_loader (src_csv src) = Ok c →
      listed_stations ll (index_values c) ≠ [] → im ∈ columns c →
      sql_name im ∈ map sql_name (columns c0).
Proof.
  intros Hdone.
  destruct (completed_build_passed _ _ _ Hdone)
    as (out & _ & _ & (src0 & c0 & H0 & Hc0 & Hims & Hdom) & Hcols & _).
  exists src0, c0. do 3 (split; [done|]). split.
  - intros key. rewrite <- elem_of_dom, Hdom. apply elem_of_list_to_set.
  - intros src c im Hsrc Hc Hne Him.
    apply list_elem_of_lookup in Hsrc as [k Hk].
    apply (elem_of_list_to_set (C:=gset string)). rewrite <- Hdom.
    apply (Hcols k src c im); [by eapply lookup_lt_Some|done..].
Qed.


(** X6: without a worker [Pool] raises [ValueError]; with a worker and no
    file, [sink[0]] raises [KeyError].  Either way no schema is created and
    nothing is printed. *)
Theorem build_without_worker_or_file ll csvs nproc :
  nproc = 0%nat ∨ csvs = [] →
  build ll csvs nproc
  = Config (AtRaised (if decide (nproc = 0%nat) then ValueError else KeyError))
      ∅ no_tables ∅ [].
Proof.
  intros H. unfold build, run. case_decide as Hn.
  - assert (init_config nproc = Config (AtRaised ValueError) ∅ no_tables ∅ [])
      as -> by (unfold init_config; by rewrite decide_True).
    induction (fuel csvs nproc) as [|n IH]; [done|]. simpl. by rewrite IH.
  - destruct H as [?| ->]; [done|].
    assert (fuel [] nproc = 3%nat) as ->
      by (unfold fuel, step_size; simpl; lia).
    simpl. unfold init_config. rewrite decide_False by done.
    unfold step at 3. simpl. rewrite decide_False
      by (unfold step_size; simpl; lia).
    done.
Qed.

Lemma ingested_snoc ll (files : list source) (src : source) :
  ingested ll (files ++ [src])
  = ingested ll files
    ++ if decide (has_stations ll src)
       then [((Z.of_nat (length (filter (has_stations ll) files)) + 1)%Z, src)]
       else [].
Proof.
  unfold ingested. rewrite filter_app, imap_app. f_equal.
  rewrite filter_cons, filter_nil. case_decide; [|done]. simpl.
  by rewrite Nat.add_0_r.
Qed.

Lemma store_columns_rows (t : table) (sts sims : list Z) (cols : list string)
    (tbls tbls' : gmap string (list im_row)) (key : string)
    (tbl' : list im_row) :
  foldM (store_column t sts sims) tbls cols = Ok tbls' →
  tbls' !! key = Some tbl' →
  ∃ tbl, tbls !! key = Some tbl ∧
    tbl' = tbl ++
      flat_map (λ im, if decide (sql_name im = key)
                      then match column_values t im with
                           | Ok vals => map value_row (zip (zip sts sims) vals)
                           | Raise _ => []
                           end
                      else []) cols.
Proof.
  revert tbls. induction cols as [|im cols IH]; simpl; intros tbls H Hl.
  - injection H as <-. exists tbl'. by rewrite app_nil_r.
  - apply bind_Ok in H as (tbls1 & H1 & H2).
    destruct (IH _ H2 Hl) as (tbl1 & Hl1 & ->).
    unfold store_column in H1. apply bind_Ok in H1 as (vals & Hvals & H1).
    rewrite Hvals.
    apply insert_values_ok in H1 as (tbl & Htbl & -> & _).
    destruct (decide (sql_name im = key)) as [<-|Hne].
    + rewrite lookup_insert_eq in Hl1. injection Hl1 as <-.
      exists tbl. split; [done|]. by rewrite <- app_assoc.
    + rewrite lookup_insert_ne in Hl1 by done. exists tbl1. by split.
Qed.

Lemma new_rows_column (ids : gmap string Z) (sim : Z) (t : table)
    (sts : list Z) (im : string) :
  Forall2 (λ s id, ids !! s = Some id) (index_values t) sts →
  match column_values t im with
  | Ok vals =>
      map value_row (zip (zip sts (replicate (length sts) sim)) vals)
  | Raise _ => []
  end
  = column_rows ids sim (columns t) (rows t) im.
Proof.
  unfold column_values, column_rows, index_values.
  destruct (index_of im (columns t)) as [j|]; [|done].
  generalize (rows t). intros rs. revert sts.
  induction rs as [|r rs IH]; intros sts H; simpl in *.
  - apply Forall2_nil_inv_l in H as ->. done.
  - apply Forall2_cons_inv_l in H as (id & sts' & Hid & H & ->). simpl.
    rewrite Hid. simpl. f_equal. by apply IH.
Qed.

Lemma rows_of_interest_listed ll (c : table) (r : string * list float) :
  r ∈ rows_of_interest ll c → r.1 ∈ listed_stations ll (index_values c).
Proof.
  unfold rows_of_interest. rewrite list_elem_of_In, in_flat_map.
  intros (label & Hl & Hr). apply list_elem_of_In in Hl, Hr.
  unfold loc_rows in Hr. apply list_elem_of_filter in Hr as [-> _]. done.
Qed.

Lemma file_rows_ext ll (ids ids' : gmap string Z) (key : string)
    (p : Z * source) :
  (∀ s, s ∈ listed_stations ll (index_values (frame_of p.2)) →
        ids' !! s = ids !! s) →
  file_rows ll ids' key p = file_rows ll ids key p.
Proof.
  intros Hagree. unfold file_rows. apply flat_map_ext. intros im.
  case_decide; [|done]. unfold column_rows.
  destruct (index_of im _) as [j|]; [|done].
  apply map_ext_in. intros r Hr. apply list_elem_of_In in Hr.
  by rewrite (Hagree _ (rows_of_interest_listed _ _ _ Hr)).
Qed.

Lemma flat_map_ext_elem {A B : Type} (f g : A → list B) (l : list A) :
  (∀ x, x ∈ l → f x = g x) → flat_map f l = flat_map g l.
Proof.
  induction l as [|x l IH]; intros H; simpl; [done|].
  rewrite (H x) by (by left). f_equal. apply IH. intros y Hy. apply H.
  by right.
Qed.

Lemma ingested_lookup ll (csvs : list source) (p : Z * source) :
  p ∈ ingested ll csvs →
  ∃ k, csvs !! k = Some p.2 ∧ has_stations ll p.2.
Proof.
  unfold ingested. intros Hp. apply list_elem_of_lookup in Hp as [j Hj].
  rewrite list_lookup_imap in Hj.
  destruct (filter _ csvs !! j) as [src|] eqn:Hsrc; [|done].
  injection Hj as <-. simpl. apply list_elem_of_lookup_2 in Hsrc.
  apply list_elem_of_filter in Hsrc as [Hhas Hin].
  apply list_elem_of_lookup in Hin as [k Hk]. by exists k.
Qed.

Lemma has_stations_frame_of ll (src : source) :
  has_stations ll src →
  __pandas_loader (src_csv src) = Ok (frame_of src) ∧
  listed_stations ll (index_values (frame_of src)) ≠ [].
Proof.
  unfold has_stations, frame_of.
  by destruct (__pandas_loader (src_csv src)).
Qed.

Lemma values_inv_reachable ll csvs nproc cf :
  reachable ll csvs nproc cf → at_position csvs (values_inv ll csvs) cf.
Proof.
  intros Hreach. revert cf Hreach. apply build_invariant.
  - intros src0 c0 db Hsrc0 Hc0 Hdb key tbl Hl.
    apply init_db_fresh in Hdb as (_ & _ & _ & Hempty).
    by rewrite (Hempty _ _ Hl).
  - intros i src c sink db ids out db' ids' out' Hreach Hsrc Hc Hvals Hcm
      key tbl' Hl'.
    pose proof (passed_inv_reachable _ _ _ _ Hreach) as (Hknown & _).
    simpl in Hknown.
    rewrite (take_S_r _ _ _ Hsrc), ingested_snoc, flat_map_app.
    pose proof (has_stations_frame ll src c Hc) as Hhas.
    pose proof (registered_reachable _ _ _ _ Hreach) as Hreg.
    unfold registered in Hreg. simpl in Hreg.
    apply commit_cases in Hcm. inversion Hcm
      as [ |src' Hsrc' Hnone| | |
         |src' db1 sim db2 ids2 t db3 Hsrc' Hsome Hadd Hexp Hloc Hstore];
      subst; assert (src' = src) as -> by congruence.
    + rewrite decide_False by (intros H; by apply Hhas in H).
      simpl. rewrite app_nil_r. by apply Hvals.
    + rewrite decide_True by (by apply Hhas). simpl. rewrite app_nil_r.
      pose proof (add_simulation_ok _ _ _ _ Hadd) as [Hsim ->].
      pose proof (expand_stations_ok _ _ _ _ _ _ Hexp) as (_ & _ & Ht2 & _).
      apply expand_stations_grows in Hexp as (_ & Hkeep & _).
      pose proof (loc_ok _ _ _ Hloc) as [Hcolumns Hrows].
      apply store_ims_ok in Hstore as (_ & _ & _ & sts & Hsts & Hfold).
      destruct (store_columns_rows _ _ _ _ _ _ _ _ Hfold Hl')
        as (tbl & Hl & ->).
      rewrite Ht2 in Hl. simpl in Hl. f_equal.
      * rewrite (Hvals _ _ Hl). apply flat_map_ext_elem. intros p Hp.
        symmetry. apply file_rows_ext. intros s Hs.
        apply ingested_lookup in Hp as (k & Hk & Hp).
        apply lookup_take_Some in Hk as [Hk Hlt].
        apply has_stations_frame_of in Hp as [Hframe _].
        destruct (Hknown k p.2 (frame_of p.2) s Hlt Hk Hframe Hs) as [id Hid].
        rewrite Hid. by apply Hkeep.
      * unfold file_rows, frame_of. simpl. rewrite Hc, <- Hcolumns.
        apply flat_map_ext. intros im. case_decide; [|done].
        rewrite (new_rows_column ids' sim t sts im Hsts).
        unfold rows_of_interest. rewrite <- Hrows. f_equal.
        rewrite Hsim. unfold next_rowid.
        by rewrite <- (length_map sim_name), Hreg, length_map.
Qed.

Lemma completed_build_tables ll csvs nproc (key : string)
    (tbl : list im_row) :
  cf_pc (build ll csvs nproc) = AtDone →
  im_tables (cf_db (build ll csvs nproc)) !! key = Some tbl →
  tbl = flat_map (file_rows ll (cf_station_ids (build ll csvs nproc)) key)
          (ingested ll csvs).
Proof.
  intros Hdone Hl.
  pose proof (values_inv_reachable _ _ _ _ (build_reachable ll csvs nproc)) as H.
  unfold at_position in H. rewrite Hdone in H.
  destruct H as (out & _ & H). unfold values_inv in H.
  rewrite firstn_all in H. by apply H.
Qed.

Lemma identities_reachable ll csvs nproc cf :
  reachable ll csvs nproc cf → identities (cf_db cf) (cf_station_ids cf).
Proof.
  intros Hreach s id.
  pose proof (store_inv_reachable _ _ _ _ Hreach) as (_ & _ & [_ Hrows] & _).
  pose proof (registry_inv_reachable _ _ _ _ Hreach) as (_ & Hm & Hnd & _).
  split.
  - intros Hid. destruct (Hrows _ _ Hid) as (k & lon & lat & Hk).
    exists lon, lat. by eapply list_elem_of_lookup_2.
  - intros (lon & lat & Hin).
    assert (s ∈ map stn_name (stations_tbl (cf_db cf))) as Hs
      by (by apply (list_elem_of_fmap_2 stn_name) in Hin).
    apply Hm in Hs as [id' Hid']. rewrite Hid'. f_equal.
    destruct (Hrows _ _ Hid') as (k & lon' & lat' & Hk).
    apply list_elem_of_lookup_2 in Hk.
    pose proof (filter_unique stn_name _ _ Hnd Hin) as Hf. simpl in Hf.
    assert (StationRow id' s lon' lat'
              ∈ filter (λ y, stn_name y = s) (stations_tbl (cf_db cf))) as Hin'
      by (by apply list_elem_of_filter).
    rewrite Hf in Hin'. apply list_elem_of_singleton in Hin'. congruence.
Qed.


(** ** Lists *)

Lemma merge_sort_sorted {A : Type} (R : relation A) `{∀ x y, Decision (R x y)}
    `{!Transitive R} `{!Total R} (l : list A) :
  Sorted R l → (∀ x y, x ∈ l → y ∈ l → R x y → R y x → x = y) →
  merge_sort R l = l.
Proof.
  intros Hs Hanti.
  apply (Sorted_unique_strong R); [| |done|apply merge_sort_Permutation].
  - intros x y Hx Hy. apply Hanti; [|done].
    by rewrite <- (merge_sort_Permutation R l).
  - by apply Sorted_merge_sort.
Qed.

Lemma filter_fmap {A B : Type} (f : A → B) (P : B → Prop)
    `{∀ y, Decision (P y)} (l : list A) :
  filter P (map f l) = map f (filter (λ x, P (f x)) l).
Proof.
  induction l as [|x l IH]; simpl; [done|].
  rewrite !filter_cons. case_decide; simpl; by rewrite IH.
Qed.

Lemma filter_flat_map {A B : Type} (f : A → list B) (P : B → Prop)
    `{∀ y, Decision (P y)} (l : list A) :
  filter P (flat_map f l) = flat_map (λ x, filter P (f x)) l.
Proof.
  induction l as [|x l IH]; simpl; [done|]. by rewrite filter_app, IH.
Qed.

Lemma flat_map_singletons {A B : Type} (Q : A → Prop) `{∀ x, Decision (Q x)}
    (g : A → B) (l : list A) :
  flat_map (λ x, if decide (Q x) then [g x] else []) l = map g (filter Q l).
Proof.
  induction l as [|x l IH]; simpl; [done|].
  rewrite filter_cons. case_decide; simpl; by rewrite IH.
Qed.

Lemma flat_map_nil {A B : Type} (l : list A) :
  flat_map (λ _ : A, @nil B) l = [].
Proof. by induction l. Qed.

Lemma flat_map_select {A B C : Type} `{EqDecision B} (f : A → B)
    (g : A → list C) (l : list A) (x : A) :
  NoDup (map f l) → x ∈ l →
  flat_map (λ y, if decide (f y = f x) then g y else []) l = g x.
Proof.
  induction l as [|y l IH]; simpl; intros Hnd Hx; [by apply elem_of_nil in Hx|].
  apply NoDup_cons in Hnd as [Hy Hnd]. apply elem_of_cons in Hx as [->|Hx].
  - rewrite decide_True by done.
    rewrite (flat_map_ext_elem _ (λ _, [])), flat_map_nil, app_nil_r; [done|].
    intros z Hz. rewrite decide_False; [done|]. intros E. apply Hy.
    rewrite <- E. by apply (list_elem_of_fmap_2 f).
  - rewrite decide_False.
    + by apply IH.
    + intros E. apply Hy. rewrite E. by apply (list_elem_of_fmap_2 f).
Qed.

Lemma zip_map_diag {A B : Type} (h : A → B) (l : list A) :
  zip l (map h l) = map (λ x, (x, h x)) l.
Proof. induction l as [|x l IH]; simpl; [done|]. by rewrite IH. Qed.

Lemma index_of_elem (x : string) (l : list string) :
  x ∈ l → is_Some (index_of x l).
Proof.
  induction l as [|y l IH]; simpl; intros Hx; [by apply elem_of_nil in Hx|].
  case_decide; [by eexists|].
  apply elem_of_cons in Hx as [?|Hx]; [done|].
  destruct (IH Hx) as [j ->]. by eexists.
Qed.

Lemma StronglySorted_filter {A : Type} (R : relation A) (P : A → Prop)
    `{∀ x, Decision (P x)} (l : list A) :
  StronglySorted R l → StronglySorted R (filter P l).
Proof.
  induction 1 as [|x l Hl IH Hx]; [constructor|].
  rewrite filter_cons. case_decide; [|done]. constructor; [done|].
  apply Forall_forall. intros y [_ Hy]%list_elem_of_filter.
  by eapply Forall_forall in Hx.
Qed.

Lemma numbered_from_sorted {A : Type} (id : A → Z) (l : list A) (n : nat) :
  (∀ k row, l !! k = Some row → id row = (Z.of_nat (n + k) + 1)%Z) →
  StronglySorted (λ x y, (id x < id y)%Z) l.
Proof.
  revert n. induction l as [|x l IH]; intros n Hn; constructor.
  - apply (IH (S n)). intros k row Hk. rewrite (Hn (S k) row Hk).
    f_equal. lia.
  - apply Forall_forall. intros y Hy. apply list_elem_of_lookup in Hy as [k Hk].
    rewrite (Hn 0%nat x eq_refl), (Hn (S k) y Hk). lia.
Qed.

Lemma numbered_sorted {A : Type} (id : A → Z) (l : list A) :
  numbered id l → StronglySorted (λ x y, (id x < id y)%Z) l.
Proof. intros H. apply (numbered_from_sorted id l 0). exact H. Qed.

(** A strictly sorted list has no two elements with the same key. *)
Lemma sorted_keys_inj {A : Type} (id : A → Z) (l : list A) (x y : A) :
  StronglySorted (λ x y, (id x < id y)%Z) l →
  x ∈ l → y ∈ l → id x = id y → x = y.
Proof.
  induction 1 as [|z l Hl IH Hz]; intros Hx Hy E; [by apply elem_of_nil in Hx|].
  apply elem_of_cons in Hx as [->|Hx]; apply elem_of_cons in Hy as [->|Hy].
  - done.
  - eapply Forall_forall in Hz; [|exact Hy]. lia.
  - eapply Forall_forall in Hz; [|exact Hx]. lia.
  - by apply IH.
Qed.

Lemma filter_ext_elem {A : Type} (P Q : A → Prop) `{∀ x, Decision (P x)}
    `{∀ x, Decision (Q x)} (l : list A) :
  (∀ x, x ∈ l → P x ↔ Q x) → filter P l = filter Q l.
Proof.
  induction l as [|x l IH]; intros Hl; [done|]. rewrite !filter_cons.
  rewrite IH by (intros y Hy; apply Hl; by right).
  destruct (decide (P x)) as [HP|HP], (decide (Q x)) as [HQ|HQ]; try done.
  - destruct HQ. by apply (Hl x); [left|].
  - destruct HP. by apply (Hl x); [left|].
Qed.

(** A label that occurs once among the labels of interest has one row. *)
Lemma single_row (P : string → Prop) `{∀ s, Decision (P s)}
    (rs : list (string * list float)) (s : string) :
  NoDup (filter P (map fst rs)) → P s → s ∈ map fst rs →
  ∃ r, filter (λ r, r.1 = s) rs = [r].
Proof.
  induction rs as [|r0 rs IH]; simpl; intros Hnd HP Hs;
    [by apply elem_of_nil in Hs|].
  rewrite filter_cons in Hnd. rewrite filter_cons.
  destruct (decide (r0.1 = s)) as [E|Hne].
  - exists r0. f_equal. rewrite decide_True in Hnd by (by rewrite E).
    apply NoDup_cons in Hnd as [Hr0 _]. apply filter_none.
    intros r Hr E'. apply Hr0. apply list_elem_of_filter. rewrite E.
    split; [done|]. rewrite <- E'. by apply (list_elem_of_fmap_2 fst).
  - apply IH; [|done|].
    + case_decide; [by apply NoDup_cons in Hnd as [_ ?] | done].
    + apply elem_of_cons in Hs as [?|?]; [congruence | done].
Qed.

Lemma filter_loc_rows (rs : list (string * list float))
    (labels : list string) (s : string) :
  NoDup labels →
  filter (λ r, r.1 = s) (flat_map (loc_rows rs) labels)
  = if decide (s ∈ labels) then filter (λ r, r.1 = s) rs else [].
Proof.
  intros Hnd. rewrite filter_flat_map.
  rewrite (flat_map_ext_elem _
             (λ l, if decide (l = s) then filter (λ r, r.1 = s) rs else [])).
  2:{ intros l _. unfold loc_rows. rewrite list_filter_filter.
      case_decide as E.
      - subst l. apply filter_ext_elem. intros r _. split; [by intros [? _]|done].
      - apply filter_none. intros r _ [E1 E2]. congruence. }
  case_decide as Hin.
  - change (λ l, if decide (l = s) then ?g else [])
      with (λ l : string, if decide (id l = id s) then (λ _, g) l else []).
    apply (flat_map_select id (λ _, filter (λ r, r.1 = s) rs)); [|done].
    by rewrite map_id.
  - rewrite (flat_map_ext_elem _ (λ _, [])); [apply flat_map_nil|].
    intros l Hl. rewrite decide_False; [done|]. by intros ->.
Qed.

Section RoundTrip.
Variable ll : gmap string (string * string).
Variable csvs : list source.
Variable nproc : nat.
Variable cols : list string.
Variable station : string.

Hypothesis Hdone : cf_pc (build ll csvs nproc) = AtDone.
Hypothesis Honce : Forall (stations_once ll) csvs.
Hypothesis Hcols : ∀ src, src ∈ csvs → columns (frame_of src) = cols.
Hypothesis Hdistinct : NoDup (map sql_name cols).
Hypothesis Hreg :
  station ∈ map stn_name (stations_tbl (cf_db (build ll csvs nproc))).

Local Notation "'db'" := (cf_db (build ll csvs nproc)).
Local Notation "'ids'" := (cf_station_ids (build ll csvs nproc)).
Local Notation "'hits'" :=
  (filter (λ p : Z * source, labelled station p.2) (ingested ll csvs)).

Lemma station_listed : is_Some (ll !! station).
Proof.
  destruct (registry_inv_reachable _ _ _ _ (build_reachable ll csvs nproc))
    as (_ & _ & _ & Hloc).
  apply list_elem_of_fmap in Hreg as (st & -> & Hst).
  eapply Forall_forall in Hloc as [Hloc _]; [|exact Hst]. by eexists.
Qed.

Lemma ingested_numbered : numbered fst (ingested ll csvs).
Proof.
  intros k p Hk. unfold ingested in Hk. rewrite list_lookup_imap in Hk.
  destruct (filter _ csvs !! k); [|done]. by injection Hk as <-.
Qed.

Lemma ingested_files : map snd (ingested ll csvs) = filter (has_stations ll) csvs.
Proof.
  unfold ingested. generalize (filter (has_stations ll) csvs). intros l.
  apply list_eq. intros k. change (map snd ?l) with (snd <$> l).
  rewrite list_lookup_fmap, list_lookup_imap. by destruct (l !! k).
Qed.

Lemma ingested_file (p : Z * source) :
  p ∈ ingested ll csvs →
  p.2 ∈ csvs ∧ __pandas_loader (src_csv p.2) = Ok (frame_of p.2) ∧
  listed_stations ll (index_values (frame_of p.2)) ≠ [] ∧
  NoDup (listed_stations ll (index_values (frame_of p.2))) ∧
  columns (frame_of p.2) = cols.
Proof.
  intros Hp. apply ingested_lookup in Hp as (k & Hk & Hhas).
  apply list_elem_of_lookup_2 in Hk.
  apply has_stations_frame_of in Hhas as [Hframe Hne].
  do 3 (split; [done|]). split; [|by apply Hcols].
  eapply Forall_forall in Honce; [|exact Hk]. by apply Honce.
Qed.

Lemma hits_files : map snd hits = filter (labelled station) csvs.
Proof.
  rewrite <- (filter_fmap snd (labelled station)), ingested_files.
  rewrite list_filter_filter. apply filter_ext_elem. intros src Hsrc.
  split; [by intros [? _]|]. intros Hl. split; [done|].
  unfold labelled, frame_of in Hl. unfold has_stations.
  destruct (__pandas_loader (src_csv src)) as [c|e];
    [|by apply elem_of_nil in Hl].
  intros E. assert (station ∈ listed_stations ll (index_values c)) as Hin
    by (apply listed_stations_spec; split; [apply station_listed | done]).
  rewrite E in Hin. by apply elem_of_nil in Hin.
Qed.

Lemma simulations_of_ingested :
  simulations_tbl db
  = map (λ p, SimulationRow p.1 (src_sim p.2)) (ingested ll csvs).
Proof.
  rewrite (completed_build_simulation_rows _ _ _ Hdone).
  unfold ingested. apply list_eq. intros k.
  change (map ?f ?l) with (f <$> l).
  rewrite list_lookup_fmap, !list_lookup_imap.
  by destruct (filter _ csvs !! k).
Qed.

Lemma measures_of_store :
  ims_tbl db = cols ∧
  ∀ im, im ∈ cols → is_Some (im_tables db !! sql_name im).
Proof.
  destruct (completed_build_passed _ _ _ Hdone)
    as (out & _ & _ & (src0 & c0 & H0 & Hc0 & Hims & Hdom) & _).
  assert (columns c0 = cols) as Hc.
  { rewrite <- (Hcols src0) by (by eapply list_elem_of_lookup_2).
    unfold frame_of. by rewrite Hc0. }
  rewrite Hims, Hc. split; [done|].
  intros im Him. apply elem_of_dom. rewrite Hdom, Hc.
  apply elem_of_list_to_set. by apply (list_elem_of_fmap_2 sql_name).
Qed.

Lemma table_of_measure (im : string) (tbl : list im_row) :
  im ∈ cols → im_tables db !! sql_name im = Some tbl →
  tbl = flat_map
          (λ p, column_rows ids p.1 cols
                  (rows_of_interest ll (frame_of p.2)) im)
          (ingested ll csvs).
Proof.
  intros Him Hl.
  rewrite (completed_build_tables _ _ _ _ _ Hdone Hl).
  apply flat_map_ext_elem. intros p Hp.
  apply ingested_file in Hp as (_ & _ & _ & _ & Hc).
  unfold file_rows. rewrite Hc.
  by apply (flat_map_select sql_name
              (λ im', column_rows _ p.1 cols _ im')).
Qed.
(** The identity of the station. *)
Lemma station_identity :
  ∃ st, filter (λ st, stn_name st = station) (stations_tbl db) = [st] ∧
    ids !! station = Some (stn_id st) ∧
    ∀ s, ids !! s = Some (stn_id st) → s = station.
Proof.
  pose proof (build_reachable ll csvs nproc) as Hreach.
  pose proof (store_inv_reachable _ _ _ _ Hreach) as (_ & _ & Hinv & _).
  pose proof (registry_inv_reachable _ _ _ _ Hreach) as (_ & Hm & Hnd & _).
  pose proof Hreg as Hin. apply list_elem_of_fmap in Hin as (st & Hname & Hst).
  exists st. assert (filter (λ y, stn_name y = station) (stations_tbl db) = [st])
    as Hfilter by (rewrite Hname; by apply filter_unique).
  split; [done|].
  assert (ids !! station = Some (stn_id st)) as Hid.
  { apply Hm in Hreg as [id Hid]. rewrite Hid. f_equal.
    destruct Hinv as [_ Hrows].
    destruct (Hrows _ _ Hid) as (k & lon & lat & Hk).
    apply list_elem_of_lookup_2 in Hk.
    assert (StationRow id station lon lat
              ∈ filter (λ y, stn_name y = station) (stations_tbl db)) as Hf
      by (by apply list_elem_of_filter).
    rewrite Hfilter in Hf. apply list_elem_of_singleton in Hf. by subst st. }
  split; [done|]. intros s Hs. by eapply stations_inv_inj.
Qed.

(** The rows that a file gives the table of a measure for the station. *)
Lemma rows_for_station (im : string) (st : station_row) (p : Z * source) :
  ids !! station = Some (stn_id st) →
  (∀ s, ids !! s = Some (stn_id st) → s = station) →
  im ∈ cols → p ∈ ingested ll csvs →
  filter (λ r, row_station_id r = stn_id st)
    (column_rows ids p.1 cols (rows_of_interest ll (frame_of p.2)) im)
  = if decide (labelled station p.2)
    then [ImRow (stn_id st) p.1 (reading station im p.2)]
    else [].
Proof.
  intros Hid Hinj Him Hp.
  destruct (completed_build_passed _ _ _ Hdone) as (out & _ & Hknown & _).
  pose proof (ingested_lookup _ _ _ Hp) as (k & Hk & _).
  apply ingested_file in Hp as (Hsrc & Hframe & Hne & Hnd & Hc).
  unfold column_rows. destruct (index_of_elem _ _ Him) as [j Hj]. rewrite Hj.
  rewrite filter_fmap. simpl.
  rewrite (filter_ext_elem _ (λ r, r.1 = station)).
  2:{ intros r Hr. apply rows_of_interest_listed in Hr.
      destruct (Hknown k p.2 (frame_of p.2) r.1) as [id Hr1];
        [by eapply lookup_lt_Some|done..|].
      rewrite Hr1. simpl. split; [intros ->; by apply Hinj|].
      intros E. rewrite E in Hr1. congruence. }
  unfold rows_of_interest. rewrite (filter_loc_rows _ _ _ Hnd).
  assert (station ∈ listed_stations ll (index_values (frame_of p.2))
          ↔ labelled station p.2) as Hiff.
  { rewrite listed_stations_spec. unfold labelled.
    split; [by intros [_ ?] | intros ?; split; [apply station_listed | done]]. }
  destruct (decide (labelled station p.2)) as [Hl|Hl].
  - rewrite decide_True by (by apply Hiff).
    destruct (single_row (λ s, is_Some (ll !! s)) (rows (frame_of p.2)) station)
      as [r Hr]; [done|apply station_listed|done|].
    assert (r.1 = station) as Hr1.
    { assert (r ∈ filter (λ r, r.1 = station) (rows (frame_of p.2))) as Hin
        by (rewrite Hr; by left).
      by apply list_elem_of_filter in Hin as [? _]. }
    rewrite Hr. simpl. unfold reading. rewrite Hr, Hc, Hj, Hr1. by rewrite Hid.
  - rewrite decide_False; [done|]. intros H. by apply Hl, Hiff.
Qed.

Lemma station_rows (im : string) (st : station_row) (tbl : list im_row) :
  ids !! station = Some (stn_id st) →
  (∀ s, ids !! s = Some (stn_id st) → s = station) →
  im ∈ cols → im_tables db !! sql_name im = Some tbl →
  filter (λ r, row_station_id r = stn_id st) tbl
  = map (λ p, ImRow (stn_id st) p.1 (reading station im p.2)) hits.
Proof.
  intros Hid Hinj Him Hl. rewrite (table_of_measure _ _ Him Hl).
  rewrite filter_flat_map.
  rewrite <- (flat_map_singletons (λ p, labelled station p.2)).
  apply flat_map_ext_elem. intros p Hp. by apply rows_for_station.
Qed.

Lemma hits_sorted : StronglySorted (λ p q : Z * source, (p.1 < q.1)%Z) hits.
Proof. apply StronglySorted_filter, numbered_sorted, ingested_numbered. Qed.

Lemma station_selected (im : string) (st : station_row) (tbl : list im_row) :
  ids !! station = Some (stn_id st) →
  (∀ s, ids !! s = Some (stn_id st) → s = station) →
  im ∈ cols → im_tables db !! sql_name im = Some tbl →
  select_station tbl (stn_id st)
  = map (λ p, ImRow (stn_id st) p.1 (reading station im p.2)) hits.
Proof.
  intros Hid Hinj Him Hl. unfold select_station.
  rewrite (station_rows _ _ _ Hid Hinj Him Hl).
  rewrite merge_sort_sorted; [done|apply _|apply _| |].
  - apply StronglySorted_Sorted.
    apply (StronglySorted_fmap _ (λ p q : Z * source, (p.1 < q.1)%Z));
      [|apply hits_sorted].
    intros p q Hpq. unfold by_simulation_id. simpl. lia.
  - intros x y Hx Hy Hxy Hyx.
    apply list_elem_of_fmap in Hx as (p & -> & Hp).
    apply list_elem_of_fmap in Hy as (q & -> & Hq).
    unfold by_simulation_id in *. simpl in *.
    assert (p = q) as ->; [|done].
    apply (sorted_keys_inj fst _ _ _ hits_sorted Hp Hq). lia.
Qed.

Lemma station_names :
  select_names db (map fst hits) = map (λ p, src_sim p.2) hits.
Proof.
  unfold select_names. rewrite simulations_of_ingested, filter_fmap. simpl.
  rewrite (filter_ext_elem _ (λ p, labelled station p.2)).
  2:{ intros p Hp. split.
      - intros Hin. apply list_elem_of_fmap in Hin as (q & E & Hq).
        pose proof Hq as [Hl Hq']%list_elem_of_filter.
        assert (p = q) as ->; [|done].
        apply (sorted_keys_inj fst (ingested ll csvs)); [|done..].
        apply numbered_sorted, ingested_numbered.
      - intros Hl. apply (list_elem_of_fmap_2 fst).
        by apply list_elem_of_filter. }
  rewrite merge_sort_sorted; [by rewrite map_map|apply _|apply _| |].
  - apply StronglySorted_Sorted.
    apply (StronglySorted_fmap _ (λ p q : Z * source, (p.1 < q.1)%Z));
      [|apply hits_sorted].
    intros p q Hpq. unfold by_sim_id. simpl. lia.
  - intros x y Hx Hy Hxy Hyx.
    apply list_elem_of_fmap in Hx as (p & -> & Hp).
    apply list_elem_of_fmap in Hy as (q & -> & Hq).
    unfold by_sim_id in *. simpl in *.
    assert (p = q) as ->; [|done].
    apply (sorted_keys_inj fst _ _ _ hits_sorted Hp Hq). lia.
Qed.
Lemma mapM_map {A B : Type} (f : A → result B) (g : A → B) (l : list A) :
  (∀ x, x ∈ l → f x = Ok (g x)) → mapM f l = Ok (map g l).
Proof.
  induction l as [|x l IH]; intros H; simpl; [done|].
  rewrite (H x) by (by left). simpl.
  rewrite IH by (intros y Hy; apply H; by right). done.
Qed.

Lemma im_at_station_of_files (im : string) (st : station_row) :
  ids !! station = Some (stn_id st) →
  (∀ s, ids !! s = Some (stn_id st) → s = station) →
  im ∈ cols →
  __im_at_station db im (stn_id st) (length hits)
  = Ok (map fst hits, map (λ p, reading station im p.2) hits).
Proof.
  intros Hid Hinj Him. unfold __im_at_station.
  destruct measures_of_store as [_ Htbl]. destruct (Htbl im Him) as [tbl Hl].
  rewrite Hl, (station_selected _ _ _ Hid Hinj Him Hl).
  rewrite <- (length_map (λ p, ImRow (stn_id st) p.1 (reading station im p.2))).
  rewrite fill_values_exact. by rewrite !map_map.
Qed.

End RoundTrip.

(** ** Rejected measure lists *)

Lemma foldM_insert_im_dup (ims acc : list string) :
  NoDup acc → ¬ NoDup (acc ++ ims) →
  foldM insert_im acc ims = Raise IntegrityError.
Proof.
  revert acc. induction ims as [|im ims IH]; simpl; intros acc Hacc Hdup.
  - by rewrite app_nil_r in Hdup.
  - unfold insert_im at 2. case_decide as Hin; [done|]. simpl.
    apply IH.
    + apply NoDup_app. split; [done|]. split; [|by apply NoDup_singleton].
      intros x Hx Hx'. apply list_elem_of_singleton in Hx' as ->. done.
    + by rewrite <- app_assoc.
Qed.

Lemma foldM_create_im_table_Ok (ims : list string)
    (tbls tbls' : gmap string (list im_row)) :
  foldM create_im_table tbls ims = Ok tbls' →
  NoDup (map sql_name ims) ∧ Forall (λ im, ¬ reserved_table im) ims.
Proof.
  revert tbls. induction ims as [|im ims IH]; simpl; intros tbls H.
  - split; constructor.
  - apply bind_Ok in H as (tbls1 & H1 & H2). unfold create_im_table in H1.
    case_decide as Hres; [done|].
    destruct (tbls !! sql_name im) eqn:Hl; [done|]. injection H1 as <-.
    destruct (IH _ H2) as [Hnd Hall]. split; [|by constructor].
    constructor; [|done]. intros Hin.
    apply list_elem_of_fmap in Hin as (im' & E & Hin).
    assert (sql_name im' ∈ dom (<[sql_name im := []]> tbls)) as Hdom
      by (rewrite <- E; apply elem_of_dom; rewrite lookup_insert_eq; by eexists).
    clear IH. revert H2 Hin Hdom. generalize (<[sql_name im := []]> tbls).
    clear. induction ims as [|im0 ims IH]; simpl; intros tbls H Hin Hdom;
      [by apply elem_of_nil in Hin|].
    apply bind_Ok in H as (tbls1 & H1 & H2). unfold create_im_table in H1.
    case_decide; [done|]. destruct (tbls !! sql_name im0) eqn:Hl; [done|].
    injection H1 as <-. apply elem_of_cons in Hin as [->|Hin].
    + apply elem_of_dom in Hdom as [? ?]. congruence.
    + apply (IH _ H2 Hin). rewrite dom_insert_L. apply elem_of_union. by right.
Qed.

Lemma foldM_create_im_table_error (ims : list string)
    (tbls : gmap string (list im_row)) (e : exn) :
  foldM create_im_table tbls ims = Raise e → e = OperationalError.
Proof.
  revert tbls. induction ims as [|im ims IH]; simpl; intros tbls H; [done|].
  unfold create_im_table at 2 in H. case_decide; [by injection H as <-|].
  destruct (tbls !! sql_name im); [by injection H as <-|]. by eapply IH.
Qed.

(** X3: [__init_db] raises [IntegrityError] when a measure name is given
    twice; given distinct names, it raises [OperationalError] when two of
    them name the same table or one names a table that is taken. *)
Theorem init_db_rejects (ims : list string) :
  (¬ NoDup ims → __init_db ims = Raise IntegrityError) ∧
  (NoDup ims →
   ¬ (NoDup (map sql_name ims) ∧ Forall (λ im, ¬ reserved_table im) ims) →
   __init_db ims = Raise OperationalError).
Proof.
  unfold __init_db. split.
  - intros Hdup. rewrite foldM_insert_im_dup; [done|constructor|done].
  - intros Hnd Hbad. rewrite (foldM_insert_im_ok ims []) by done. simpl.
    destruct (foldM create_im_table ∅ ims) as [tbls|e] eqn:H; simpl.
    + by apply foldM_create_im_table_Ok in H.
    + by apply foldM_create_im_table_error in H as ->.
Qed.

(** ** The frame of an uncached query *)

(** X15: the frame that an uncached query assembles has the measures of the
    store as its columns, in the order of the registry, and as many rows as
    the table of the first measure has rows for the station.  A column
    holds the values its table has for the station, in the order of the
    simulation identities; when these are fewer than the rows of the
    frame, the column is filled up with zeros. *)
Theorem assembled_frame_columns (db : database) (station_id : Z)
    (nproc : option nat) (df : dataframe) (fx : list effect) :
  assemble db station_id nproc = (Ok df, fx) →
  map fst (df_cols df) = ims_tbl db ∧
  (∃ im0 tbl0,
     head (ims_tbl db) = Some im0 ∧
     im_tables db !! sql_name im0 = Some tbl0 ∧
     length (df_index df)
     = length (filter (λ r, row_station_id r = station_id) tbl0)) ∧
  Forall (λ col,
     ∃ tbl, im_tables db !! sql_name col.1 = Some tbl ∧
       (length (select_station tbl station_id) ≤ length (df_index df))%nat ∧
       col.2 = map row_value (select_station tbl station_id)
               ++ replicate (length (df_index df)
                             - length (select_station tbl station_id))
                    0%float)
    (df_cols df).
Proof.
  unfold assemble. destruct (ims_tbl db) as [|im0 names] eqn:Hims; [done|].
  destruct (im_tables db !! sql_name im0) as [tbl0|] eqn:Htbl0; [|done].
  remember (im0 :: names) as cols eqn:Ecols.
  case_decide; [done|].
  destruct (mapM _ cols) as [id_vals|e] eqn:Hmap; [|done].
  case_decide as Hlen; [|done]. intros [= <- <-]. cbn [df_cols df_index].
  apply mapM_Forall2 in Hmap.
  assert (length id_vals = length cols) as Hl
    by (symmetry; by eapply Forall2_length).
  split; [|split].
  - change (map fst ?l) with (l.*1). rewrite fst_zip; [done|].
    rewrite length_map. lia.
  - exists im0, tbl0. by subst cols.
  - rewrite Hlen. apply Forall_forall. intros col Hin.
    apply list_elem_of_lookup in Hin as [k Hk].
    apply lookup_zip_with_Some in Hk as (im & vals & -> & Him & Hvals).
    simpl. rewrite list_lookup_fmap in Hvals.
    destruct (id_vals !! k) as [[ids vals']|] eqn:Hk; [|done].
    injection Hvals as <-.
    pose proof (Forall2_lookup_lr _ _ _ _ _ _ Hmap Him Hk) as Hat. simpl in Hat.
    unfold __im_at_station in Hat.
    destruct (im_tables db !! sql_name im) as [tbl|]; [|done].
    exists tbl. split; [done|]. unfold fill_values in Hat.
    case_decide; [|done]. by injection Hat as _ <-.
Qed.

(** ** A station stored twice for a simulation *)

Lemma remove_dups_length {A : Type} `{EqDecision A} (l : list A) :
  (length (remove_dups l) ≤ length l)%nat.
Proof.
  induction l as [|x l IH]; simpl; [done|]. case_decide; simpl; lia.
Qed.

Lemma remove_dups_shorter {A : Type} `{EqDecision A} (l : list A) :
  ¬ NoDup l → (length (remove_dups l) < length l)%nat.
Proof.
  induction l as [|x l IH]; intros Hdup; [destruct Hdup; constructor|].
  simpl. pose proof (remove_dups_length l).
  destruct (decide_rel elem_of x l) as [Hin|Hin]; simpl; [lia|].
  assert (¬ NoDup l) as Hl by (intros Hl; apply Hdup; by constructor).
  apply IH in Hl. lia.
Qed.

Lemma select_names_short (db : database) (ids : list Z) :
  NoDup (map sim_id (simulations_tbl db)) → ¬ NoDup ids →
  (length (select_names db ids) < length ids)%nat.
Proof.
  intros Hnd Hdup. unfold select_names.
  rewrite length_map, merge_sort_Permutation.
  eapply Nat.le_lt_trans; [|by apply remove_dups_shorter].
  rewrite <- (length_map sim_id). apply submseteq_length, NoDup_submseteq.
  - change (map sim_id ?l) with (sim_id <$> l).
    eapply sublist_NoDup; [exact Hnd|]. apply (fmap_sublist sim_id).
    apply sublist_filter.
  - intros id Hin. apply list_elem_of_fmap in Hin as (s & -> & Hs).
    apply list_elem_of_filter in Hs as [Hs _].
    by apply elem_of_remove_dups.
Qed.

(** X16: when the table of the first measure holds two rows of a station for
    one simulation, no uncached query of that station returns a frame: it
    raises, and nothing is written to the cache. *)
Theorem twice_stored_station_cannot_be_queried (db : database)
    (cache : gmap string dataframe) (station : string) (st : station_row)
    (im0 : string) (tbl0 : list im_row) (im : option string)
    (nproc : option nat) :
  NoDup (map sim_id (simulations_tbl db)) →
  cache !! station = None →
  head (filter (λ st, stn_name st = station) (stations_tbl db)) = Some st →
  head (ims_tbl db) = Some im0 →
  im_tables db !! sql_name im0 = Some tbl0 →
  ¬ unique_pairs (filter (λ r, row_station_id r = stn_id st) tbl0) →
  let o := station_ims db cache station im nproc in
  (∃ e, o_result o = Raise e) ∧ o_cache o = cache.
Proof.
  intros Hnd Hcache Hst Him0 Htbl0 Hdup o. subst o.
  assert (∃ e fx, assemble db (stn_id st) nproc = (Raise e, fx))
    as (e & fx & Ha).
  { unfold assemble. destruct (ims_tbl db) as [|im0' names] eqn:Hims; [done|].
    injection Him0 as ->. rewrite Htbl0.
    case_decide; [by eauto|].
    destruct (mapM _ (im0 :: names)) as [id_vals|e] eqn:Hmap; [|by eauto].
    rewrite decide_False; [by eauto|].
    simpl in Hmap. apply bind_Ok in Hmap as ([ids vals] & H0 & Hmap).
    apply bind_Ok in Hmap as (rest & _ & [= <-]). simpl.
    unfold __im_at_station in H0. rewrite Htbl0 in H0.
    rewrite <- select_station_length in H0. rewrite fill_values_exact in H0.
    injection H0 as <- <-. rewrite <- select_station_length.
    rewrite <- (length_map row_simulation_id (select_station tbl0 (stn_id st))).
    apply Nat.lt_neq, select_names_short; [done|].
    intros Hids. apply Hdup. unfold unique_pairs.
    assert (NoDup (map pair_of (select_station tbl0 (stn_id st)))) as Hp.
    { change (map pair_of ?l) with (pair_of <$> l).
      apply (NoDup_fmap_1 snd). rewrite <- list_fmap_compose.
      by erewrite list_fmap_ext; [exact Hids|]. }
    unfold select_station in Hp.
    by rewrite merge_sort_Permutation in Hp. }
  unfold station_ims. rewrite Hcache.
  destruct (filter _ (stations_tbl db)) as [|st' sts]; [done|].
  injection Hst as ->. rewrite Ha. simpl. split; [by eexists | done].
Qed.

(** ** References between the tables *)

Lemma references_grow (db db' : database) :
  im_tables db' = im_tables db →
  stations_tbl db `prefix_of` stations_tbl db' →
  simulations_tbl db `prefix_of` simulations_tbl db' →
  references_hold db → references_hold db'.
Proof.
  intros Ht [sts Hst] [sims Hsims] Href key tbl r Hl Hr.
  rewrite Ht in Hl. destruct (Href key tbl r Hl Hr) as [H1 H2].
  rewrite Hst, Hsims, !map_app, !elem_of_app. split; by left.
Qed.

Lemma new_rows_refer (sts : list Z) (sim : Z) (vals : list float)
    (r : im_row) :
  r ∈ map value_row (zip (zip sts (replicate (length sts) sim)) vals) →
  row_station_id r ∈ sts ∧ row_simulation_id r = sim.
Proof.
  intros Hr. apply list_elem_of_fmap in Hr as ([[st s] v] & -> & Hin).
  apply elem_of_zip_l in Hin. simpl. split.
  - by apply elem_of_zip_l in Hin.
  - apply elem_of_zip_r in Hin. by apply elem_of_replicate in Hin as [? _].
Qed.

Lemma references_hold_reachable ll csvs nproc cf :
  reachable ll csvs nproc cf → references_hold (cf_db cf).
Proof.
  apply (store_invariant ll csvs nproc (λ db _, references_hold db)).
  - intros key tbl r Hl. simpl in Hl. by rewrite lookup_empty in Hl.
  - intros src0 c0 db _ _ Hdb key tbl r Hl Hr.
    apply init_db_fresh in Hdb as (_ & _ & _ & Hempty).
    rewrite (Hempty _ _ Hl) in Hr. by apply elem_of_nil in Hr.
  - intros i src c sink db ids out db' ids' out' oe Hreach Hsrc Hc Href Hcm.
    pose proof (store_inv_reachable _ _ _ _ Hreach) as (_ & _ & Hinv & _).
    simpl in Hinv. apply commit_cases in Hcm.
    assert (∀ db1 sim name,
              __add_simulation db name = Ok (db1, sim) →
              references_hold db1 ∧ stations_tbl db1 = stations_tbl db ∧
              sim ∈ map sim_id (simulations_tbl db1)) as Hadd1.
    { intros db1 sim name Hadd. apply add_simulation_ok in Hadd as [_ ->].
      simpl. split; [|split; [done|]].
      - apply (references_grow db); simpl; [done|done| |done].
        by apply prefix_app_r.
      - rewrite map_app, elem_of_app. right. simpl. by left. }
    assert (∀ db1 db2 ids2 stations,
              __expand_stations db1 ids stations ll = Ok (db2, ids2) →
              stations_tbl db1 = stations_tbl db →
              references_hold db1 →
              references_hold db2 ∧ stations_inv (stations_tbl db2) ids2 ∧
              simulations_tbl db2 = simulations_tbl db1 ∧
              im_tables db2 = im_tables db1) as Hexp2.
    { intros db1 db2 ids2 stations Hexp Hst1 Href1.
      pose proof (expand_stations_ok _ _ _ _ _ _ Hexp) as (_ & Hs2 & Ht2 & Hi2).
      apply expand_stations_grows in Hexp as (_ & _ & (rows & Hrows & _)).
      split; [|split; [|done]].
      - apply (references_grow db1); [done| |by rewrite Hs2|done].
        rewrite Hrows. by apply prefix_app_r.
      - apply Hi2. by rewrite Hst1. }
    destruct Hcm as [ | | |src' db1 sim e _ _ Hadd _
                    |src' db1 sim db2 ids2 e _ _ Hadd Hexp _
                    |src' db1 sim db2 ids2 t db3 _ _ Hadd Hexp _ Hstore];
      try done.
    + by apply Hadd1 in Hadd as [? _].
    + apply Hadd1 in Hadd as (Href1 & Hst1 & _).
      by destruct (Hexp2 _ _ _ _ Hexp Hst1 Href1) as [? _].
    + apply Hadd1 in Hadd as (Href1 & Hst1 & Hsim).
      destruct (Hexp2 _ _ _ _ Hexp Hst1 Href1) as (Href2 & Hinv2 & Hs2 & _).
      apply store_ims_ok in Hstore as (_ & Hst3 & Hs3 & sts & Hsts & Hfold).
      intros key tbl' r Hl' Hr. rewrite Hst3, Hs3.
      destruct (store_columns_rows _ _ _ _ _ _ _ _ Hfold Hl')
        as (tbl & Hl & ->).
      apply elem_of_app in Hr as [Hr|Hr]; [by apply (Href2 key tbl)|].
      apply list_elem_of_In, in_flat_map in Hr as (im & _ & Hr).
      apply list_elem_of_In in Hr. case_decide; [|by apply elem_of_nil in Hr].
      destruct (column_values t im) as [vals|?]; [|by apply elem_of_nil in Hr].
      apply new_rows_refer in Hr as [Hst ->]. split; [|by rewrite Hs2].
      apply list_elem_of_lookup in Hst as [k Hk].
      destruct (Forall2_lookup_r _ _ _ _ _ Hsts Hk) as (s & _ & Hid).
      destruct Hinv2 as [_ Hrows].
      destruct (Hrows _ _ Hid) as (k' & lon & lat & Hk').
      apply list_elem_of_lookup_2 in Hk'.
      by apply (list_elem_of_fmap_2 stn_id) in Hk'.
Qed.

(** X13: wherever a build stands, also after an exception, every row of a
    value table carries the identity of a station of the registry and the
    identity of a registered simulation, though SQLite is not asked to
    enforce the foreign keys. *)
Theorem value_rows_refer_to_registries ll csvs nproc cf (key : string)
    (tbl : list im_row) (r : im_row) :
  reachable ll csvs nproc cf →
  im_tables (cf_db cf) !! key = Some tbl → r ∈ tbl →
  (∃ st, st ∈ stations_tbl (cf_db cf) ∧ stn_id st = row_station_id r) ∧
  (∃ s, s ∈ simulations_tbl (cf_db cf) ∧ sim_id s = row_simulation_id r).
Proof.
  intros Hreach Hl Hr.
  destruct (references_hold_reachable _ _ _ _ Hreach key tbl r Hl Hr)
    as [H1 H2].
  apply list_elem_of_fmap in H1 as (st & E1 & Hst).
  apply list_elem_of_fmap in H2 as (s & E2 & Hs). split; eauto.
Qed.

(** ** The pool and the loop without it *)

Lemma sink_awaited csvs nproc sink db ids out (i : nat) (src : source) :
  sink_inv csvs nproc (Config (AtGet i) sink db ids out) →
  csvs !! i = Some src →
  sink !! i = Some (__pandas_loader (src_csv src)).
Proof.
  intros (Htask & [[Hn Hi] Hdom] & _) Hsrc. simpl in *.
  assert (i < length csvs)%nat by (by eapply lookup_lt_Some).
  assert (i ∈ dom sink) as Hin.
  { rewrite Hdom. apply elem_of_set_seq. unfold step_size. lia. }
  apply elem_of_dom in Hin as [task Ht]. rewrite Ht.
  apply Htask in Ht. by rewrite (apply_async_Some _ _ _ Hsrc) in Ht.
Qed.

Lemma taken_over_step ll csvs nproc cf :
  reachable ll csvs nproc cf →
  (match cf_pc cf with
   | AtPrefetch _ | AtInit =>
       nproc ≠ 0%nat ∧ cf_db cf = no_tables ∧ cf_station_ids cf = ∅ ∧
       cf_out cf = []
   | _ => True
   end) →
  taken_over ll csvs nproc (step ll csvs nproc cf) = taken_over ll csvs nproc cf
  ∧ match cf_pc (step ll csvs nproc cf) with
    | AtPrefetch _ | AtInit =>
        nproc ≠ 0%nat ∧ cf_db (step ll csvs nproc cf) = no_tables ∧
        cf_station_ids (step ll csvs nproc cf) = ∅ ∧
        cf_out (step ll csvs nproc cf) = []
    | _ => True
    end.
Proof.
  intros Hreach Hfresh.
  pose proof (sink_inv_reachable _ _ _ _ Hreach) as Hinv.
  destruct cf as [p sink db ids out]. unfold taken_over, step. simpl in *.
  destruct p as [k| |i|i c|i c|i c| |e]; unfold sink_inv in Hinv; simpl in *.
  - (* AtPrefetch *)
    destruct Hfresh as (Hn & -> & -> & ->).
    destruct Hinv as (_ & [[_ Hk] _] & _).
    case_decide as Hlt; [|done].
    destruct (apply_async csvs k) eqn:Hk'; simpl; [done|].
    assert (k < length csvs)%nat as Hlt' by (unfold step_size in Hlt; lia).
    apply apply_async_lt in Hlt'. rewrite Hk' in Hlt'. by destruct Hlt'.
  - (* AtInit *)
    destruct Hfresh as (Hn & -> & -> & ->).
    destruct Hinv as (Htask & [_ Hdom] & _). unfold sequential_build.
    rewrite decide_False by done.
    destruct csvs as [|src0 csvs'] eqn:Ecsvs.
    + assert (sink !! 0%nat = None) as ->; [|done].
      apply not_elem_of_dom. rewrite Hdom. unfold step_size. simpl.
      rewrite Nat.min_0_r. set_solver.
    + assert (0%nat ∈ dom sink) as Hin.
      { rewrite Hdom. apply elem_of_set_seq. unfold step_size. simpl. lia. }
      apply elem_of_dom in Hin as [task Ht]. rewrite Ht.
      apply Htask in Ht. unfold apply_async in Ht. simpl in Ht.
      injection Ht as <-.
      destruct (__pandas_loader (src_csv src0)) as [c0|e]; [|by split].
      destruct (__init_db (columns c0)); by split.
  - (* AtGet *)
    split; [|by case_decide; [destruct (sink !! i) as [[?|?]|]|]].
    case_decide as Hlt.
    + destruct (lookup_lt_is_Some_2 csvs i Hlt) as [src Hsrc].
      rewrite (sink_awaited csvs nproc sink db ids out i src Hinv Hsrc).
      rewrite (drop_S _ _ _ Hsrc). simpl.
      destruct (__pandas_loader (src_csv src)) as [c|e]; [|done]. simpl.
      by destruct (commit ll csvs i c db ids out) as [[[db' ids'] out'] [e|]].
    + rewrite drop_ge by lia. done.
  - done.
  - destruct (apply_async csvs (i + step_size csvs nproc)); by split.
  - destruct (commit ll csvs i c db ids out) as [[[db' ids'] out'] [e|]];
      by split.
  - done.
  - done.
Qed.

Lemma build_is_sequential ll csvs nproc :
  outcome_of (build ll csvs nproc) = sequential_build ll csvs nproc.
Proof.
  assert (∀ cf, reachable ll csvs nproc cf →
            taken_over ll csvs nproc cf = sequential_build ll csvs nproc ∧
            match cf_pc cf with
            | AtPrefetch _ | AtInit =>
                nproc ≠ 0%nat ∧ cf_db cf = no_tables ∧
                cf_station_ids cf = ∅ ∧ cf_out cf = []
            | _ => True
            end) as H.
  { apply reachable_ind.
    - unfold taken_over, init_config, sequential_build. simpl.
      by case_decide.
    - intros cf Hreach [Hsame Hfresh].
      destruct (taken_over_step _ _ _ _ Hreach Hfresh) as [Hstep Hfresh'].
      split; [by rewrite Hstep | done]. }
  destruct (H _ (build_reachable ll csvs nproc)) as [<- _].
  pose proof (build_final ll csvs nproc) as Hfin.
  unfold taken_over, final in *.
  by destruct (cf_pc (build ll csvs nproc)).
Qed.

(** X7: how a build ends, the store it leaves and what it prints are those
    of the loop without a pool, which parses each file when its turn
    comes: they do not depend on the size of the pool, as long as there is
    a worker. *)
Theorem pool_size_does_not_matter ll csvs (nproc nproc' : nat) :
  (1 ≤ nproc)%nat → (1 ≤ nproc')%nat →
  outcome_of (build ll csvs nproc) = outcome_of (build ll csvs nproc') ∧
  outcome_of (build ll csvs nproc) = sequential_build ll csvs 1.
Proof.
  intros H1 H2. rewrite !build_is_sequential. unfold sequential_build.
  by rewrite !decide_False by lia.
Qed.

(** ** Builds that complete *)

Lemma foldM_insert_value_ok (tbl : list im_row) (vals : list (Z * Z * float)) :
  Forall (λ v, PrimFloat.is_nan v.2 = false) vals →
  foldM insert_value tbl vals = Ok (tbl ++ map value_row vals).
Proof.
  revert tbl. induction vals as [|[[st sim] x] vals IH]; intros tbl H; simpl.
  - by rewrite app_nil_r.
  - apply Forall_cons in H as [Hx H]. simpl in Hx. rewrite Hx. simpl.
    rewrite IH by done. by rewrite <- app_assoc.
Qed.

Lemma index_of_bound (x : string) (l : list string) (j : nat) :
  index_of x l = Some j → (j < length l)%nat.
Proof.
  revert j. induction l as [|y l IH]; simpl; intros j H; [done|].
  case_decide; [injection H as <-; lia|].
  destruct (index_of x l) as [k|]; [|done]. injection H as <-.
  specialize (IH k eq_refl). lia.
Qed.

Lemma store_columns_ok (t : table) (sts sims : list Z) (cols : list string)
    (tbls : gmap string (list im_row)) :
  (∀ im, im ∈ cols → im ∈ columns t ∧ sql_name im ∈ dom tbls) →
  (∀ r j, r ∈ rows t → (j < length (columns t))%nat →
          PrimFloat.is_nan (nth j r.2 nan) = false) →
  ∃ tbls', foldM (store_column t sts sims) tbls cols = Ok tbls'.
Proof.
  intros Hcols Hcells. revert tbls Hcols.
  induction cols as [|im cols IH]; intros tbls Hcols; simpl; [by eexists|].
  destruct (Hcols im) as [Him Hdom]; [by left|].
  unfold store_column at 2. unfold column_values.
  destruct (index_of_elem _ _ Him) as [j Hj]. rewrite Hj. simpl.
  unfold insert_values. apply elem_of_dom in Hdom as [tbl Htbl]. rewrite Htbl.
  rewrite foldM_insert_value_ok.
  2:{ apply Forall_forall. intros [[st sim] x] Hin. simpl.
      apply elem_of_zip_r in Hin.
      apply list_elem_of_fmap in Hin as (r & -> & Hr).
      apply Hcells; [done|]. by eapply index_of_bound. }
  simpl. apply IH. intros im' Him'. destruct (Hcols im') as [? Hd]; [by right|].
  split; [done|]. rewrite dom_insert_L. apply elem_of_union. by right.
Qed.

Lemma lookup_ids_known (ids : gmap string Z) (labels : list string) :
  (∀ s, s ∈ labels → is_Some (ids !! s)) →
  ∃ sts, lookup_ids ids labels = Ok sts.
Proof.
  unfold lookup_ids. generalize (@nil Z) at 2.
  induction labels as [|s labels IH]; intros acc H; simpl; [by eexists|].
  destruct (H s) as [id ->]; [by left|]. simpl. apply IH.
  intros s' Hs'. apply H. by right.
Qed.

Lemma rows_of_interest_rows ll (c : table) (r : string * list float) :
  r ∈ rows_of_interest ll c → r ∈ rows c ∧ is_Some (ll !! r.1).
Proof.
  intros Hr. pose proof (rows_of_interest_listed _ _ _ Hr) as Hl.
  apply listed_stations_spec in Hl as [Hl _]. split; [|done].
  unfold rows_of_interest in Hr.
  apply list_elem_of_In, in_flat_map in Hr as (label & _ & Hr).
  apply list_elem_of_In in Hr. unfold loc_rows in Hr.
  by apply list_elem_of_filter in Hr as [_ ?].
Qed.

Lemma loc_listed ll (c : table) :
  loc c (listed_stations ll (index_values c))
  = Ok (Table (columns c) (rows_of_interest ll c)).
Proof.
  unfold loc. rewrite decide_True; [done|].
  apply Forall_forall. intros s Hs. by apply listed_stations_spec in Hs as [_ ?].
Qed.

Lemma well_formed_commit ll csvs nproc (i : nat) (c : table) sink db ids out :
  well_formed ll csvs →
  reachable ll csvs nproc (Config (AtCommit i c) sink db ids out) →
  ∃ db' ids' out', commit ll csvs i c db ids out = (db', ids', out', None).
Proof.
  intros (Hparse & (src0 & Hhead & Hnd0 & _ & Hcols) & Hnames & Honce & Hcells)
    Hreach.
  destruct (commit_frame _ _ _ _ _ _ _ _ _ Hreach) as (src & Hsrc & Hc).
  pose proof (list_elem_of_lookup_2 _ _ _ Hsrc) as Hin.
  assert (frame_of src = c) as Hframe by (unfold frame_of; by rewrite Hc).
  pose proof (registered_reachable _ _ _ _ Hreach) as Hreg.
  unfold registered in Hreg. simpl in Hreg.
  pose proof (registry_inv_reachable _ _ _ _ Hreach) as (_ & Hm & _).
  pose proof (passed_inv_reachable _ _ _ _ Hreach)
    as (_ & (src0' & c0 & H0 & Hc0 & _ & Hdom) & _).
  simpl in Hm, Hdom.
  assert (src0' = src0) as ->.
  { destruct csvs; [done|]. simpl in *. congruence. }
  assert (frame_of src0 = c0) as Hframe0 by (unfold frame_of; by rewrite Hc0).
  unfold commit. rewrite Hsrc.
  case_decide as Hlen; [by eauto|].
  assert (has_stations ll src) as Hhas.
  { apply (has_stations_frame ll src c Hc). intros E. by rewrite E in Hlen. }
  (* the simulation *)
  assert (src_sim src ∉ map sim_name (simulations_tbl db)) as Hfresh.
  { rewrite Hreg. intros Hdup.
    rewrite <- (take_drop i csvs), (drop_S _ _ _ Hsrc) in Hnames.
    rewrite filter_app, filter_cons, decide_True, map_app in Hnames by done.
    apply NoDup_app in Hnames as (_ & Hdisj & _).
    apply (Hdisj _ Hdup). simpl. by left. }
  unfold __add_simulation. rewrite decide_False by done.
  (* the stations *)
  set (db1 := Database _ _ _ _).
  destruct (__expand_stations db1 ids (listed_stations ll (index_values c)) ll)
    as [[db2 ids2]|e] eqn:Hexp'.
  2:{ apply expand_stations_raises in Hexp' as [_ Hdup]; [|done|].
      - destruct Hdup. eapply sublist_NoDup; [|apply sublist_filter].
        eapply Forall_forall in Honce; [|exact Hin]. by apply Honce.
      - intros s Hs. by apply listed_stations_spec in Hs as [? _]. }
  pose proof (expand_stations_ok _ _ _ _ _ _ Hexp') as (_ & _ & Ht2 & _).
  apply expand_stations_grows in Hexp' as (Hall & _ & _).
  (* the values *)
  rewrite loc_listed. simpl. unfold __store_ims.
  destruct (lookup_ids_known ids2 (index_values
              (Table (columns c) (rows_of_interest ll c)))) as [sts ->].
  { intros s Hs. apply Hall. unfold index_values in Hs. simpl in Hs.
    apply list_elem_of_fmap in Hs as (r & -> & Hr).
    by apply rows_of_interest_listed. }
  simpl.
  destruct (store_columns_ok (Table (columns c) (rows_of_interest ll c)) sts
              (replicate (length sts) (next_rowid (simulations_tbl db)))
              (columns c) (im_tables db2)) as [tbls' ->]; [| |by eauto].
  - intros im Him. split; [done|]. rewrite Ht2. subst db1. simpl.
    rewrite Hdom, <- Hframe0. apply elem_of_list_to_set.
    eapply Forall_forall in Hcols; [apply Hcols; by rewrite Hframe|].
    by apply list_elem_of_filter.
  - intros r j Hr Hj. simpl in *.
    apply rows_of_interest_rows in Hr as [Hr Hl].
    eapply Forall_forall in Hcells; [|exact Hin].
    unfold cells_present in Hcells. rewrite Hframe in Hcells.
    by apply Hcells.
Qed.


(** ** The pool of a query *)

Lemma assemble_pool_size (db : database) (station_id : Z)
    (nproc nproc' : option nat) :
  nproc ≠ Some 0%nat → nproc' ≠ Some 0%nat →
  (assemble db station_id nproc).1 = (assemble db station_id nproc').1.
Proof.
  intros Hn Hn'. unfold assemble.
  destruct (ims_tbl db) as [|im0 names] eqn:Hims; [done|].
  destruct (im_tables db !! sql_name im0) as [tbl0|]; [|done].
  cbv zeta.
  assert (∀ np, np ≠ Some 0%nat →
            Nat.min (default (length (im0 :: names)) np) (length (im0 :: names))
            ≠ 0%nat) as Hw.
  { intros [[|n]|] Hnp; simpl; [done|lia|lia]. }
  rewrite !decide_False by (by apply Hw).
  destruct (mapM _ _) as [id_vals|e]; [|done].
  by case_decide.
Qed.

(** X22: the answer of [station_ims] does not depend on the size of its pool.
    Two queries that differ in [nproc] alone, neither with [nproc = 0],
    return the same result or raise the same exception, leave the same
    cache and print the same. *)
Theorem query_pool_size_does_not_matter (db : database)
    (cache : gmap string dataframe) (station : string) (im : option string)
    (nproc nproc' : option nat) :
  nproc ≠ Some 0%nat → nproc' ≠ Some 0%nat →
  let o := station_ims db cache station im nproc in
  let o' := station_ims db cache station im nproc' in
  o_result o = o_result o' ∧ o_cache o = o_cache o' ∧ o_out o = o_out o'.
Proof.
  intros Hn Hn'. unfold station_ims. cbv zeta.
  destruct (cache !! station) as [df|]; [done|].
  destruct (filter _ (stations_tbl db)) as [|st sts]; [done|].
  pose proof (assemble_pool_size db (stn_id st) nproc nproc' Hn Hn') as Heq.
  destruct (assemble db (stn_id st) nproc) as [[df|e] fx],
    (assemble db (stn_id st) nproc') as [[df'|e'] fx'];
    simpl in Heq; try done; by simplify_eq.
Qed.

(** * Small run trees *)

(** ** The claims on the small run tree *)




Lemma prefetch_window_bounded_witness :
  (size (cf_sink (run sample_station_ll sample_csvs 2 4)) ≤ 2)%nat ∧
  (∀ k, awaited sample_csvs (run sample_station_ll sample_csvs 2 4) = Some k →
        (sample_csvs ≠ [] →
         k ∈ dom (cf_sink (run sample_station_ll sample_csvs 2 4))) ∧
        ∀ j, j ∈ dom (cf_sink (run sample_station_ll sample_csvs 2 4)) →
             (k ≤ j)%nat) ∧
  numbered sim_id
    (simulations_tbl (cf_db (run sample_station_ll sample_csvs 2 4))) ∧
  map sim_name (simulations_tbl (cf_db (run sample_station_ll sample_csvs 2 4)))
    `sublist_of`
    map src_sim
      (take (position sample_csvs
               (cf_pc (run sample_station_ll sample_csvs 2 4))) sample_csvs).
Proof.
  apply (prefetch_window_bounded sample_station_ll sample_csvs 2
           (run sample_station_ll sample_csvs 2 4)); [lia | by exists 4%nat].
Defined.

Lemma file_without_stations_is_skipped_witness :
  ∃ src, sample_csvs !! 1%nat = Some src ∧
    __pandas_loader (src_csv src) = Ok table_elsewhere ∧
    step sample_station_ll sample_csvs 2 (run sample_station_ll sample_csvs 2 11)
    = Config (AtGet 2)
        (cf_sink (run sample_station_ll sample_csvs 2 11))
        (cf_db (run sample_station_ll sample_csvs 2 11))
        (cf_station_ids (run sample_station_ll sample_csvs 2 11))
        (cf_out (run sample_station_ll sample_csvs 2 11)
         ++ [MsgNoStations (src_sim src)]).
Proof.
  apply (file_without_stations_is_skipped sample_station_ll sample_csvs 2
           (run sample_station_ll sample_csvs 2 11) 1 table_elsewhere).
  - by exists 11%nat.
  - vm_compute. reflexivity.
  - vm_compute. reflexivity.
Defined.

(** C3 fails as stated: a file with station A on two retained rows, after a
    file that registered A, completes the build and leaves the pair
    (station 1, simulation 2) on several rows of the PGA table. *)
Lemma repeated_station_repeats_pair :
  let r := create_imdb station_file_A
             [Source "sim_1" (pga_file [CsvRow "A" "geom" [0.25]%float]);
              Source "sim_2" (pga_file [CsvRow "A" "geom" [0.5]%float;
                                        CsvRow "A" "geom" [0.75]%float])] 1 in
  cf_pc r = AtDone ∧
  ∃ tbl, im_tables (cf_db r) !! sql_name "PGA" = Some tbl
         ∧ ¬ unique_pairs tbl.
Proof.
  split; [vm_compute; reflexivity|].
  exists [ImRow 1 1 0.25; ImRow 1 2 0.5; ImRow 1 2 0.75; ImRow 1 2 0.5;
          ImRow 1 2 0.75].
  split; [vm_compute; reflexivity|].
  unfold unique_pairs. simpl. intros H.
  apply NoDup_cons in H as [_ H]. apply NoDup_cons in H as [H _].
  apply H. left.
Qed.

Lemma sample_csvs_well_formed :
  Forall (stations_once sample_station_ll) sample_csvs ∧
  Forall distinct_columns sample_csvs.
Proof.
  unfold sample_csvs. split;
    repeat (apply Forall_cons_2;
            [intros c H; vm_compute in H; injection H as <-;
             apply (bool_decide_unpack _); vm_compute; exact I|]);
    apply Forall_nil_2.
Qed.

Lemma value_tables_well_formed_witness :
  values_present [ImRow 1 1 0.5; ImRow 2 1 1.5; ImRow 2 2 3.5] ∧
  unique_pairs [ImRow 1 1 0.5; ImRow 2 1 1.5; ImRow 2 2 3.5].
Proof.
  destruct (value_tables_well_formed sample_station_ll sample_csvs 2
              (build sample_station_ll sample_csvs 2) (sql_name "PGA")
              [ImRow 1 1 0.5; ImRow 2 1 1.5; ImRow 2 2 3.5]) as [H1 H2].
  - apply build_reachable.
  - vm_compute. reflexivity.
  - split; [exact H1|]. apply H2; apply sample_csvs_well_formed.
Defined.


Lemma unknown_station_returns_none_witness :
  let o := station_ims sample_store ∅ "B" None None in
  o_result o = Ok ANone ∧ o_out o = [MsgStationNotFound "B"] ∧
  o_db o = sample_store ∧ o_cache o = ∅.
Proof.
  apply (unknown_station_returns_none sample_store ∅ "B" None None).
  - apply (bool_decide_unpack _). vm_compute. exact I.
  - reflexivity.
Defined.


Lemma assembled_rows_in_identity_order_witness :
  ∃ st df,
    st ∈ stations_tbl sample_store ∧ stn_name st = "A" ∧
    project df None = Ok (AFrame sample_frame) ∧
    in_identity_order sample_store (stn_id st) df.
Proof.
  apply (assembled_rows_in_identity_order sample_store ∅ "A" None None
           (AFrame sample_frame)).
  - apply (bool_decide_unpack _). vm_compute. exact I.
  - apply (bool_decide_unpack _). vm_compute. exact I.
  - reflexivity.
  - vm_compute. reflexivity.
Defined.

(** ** Two end-to-end builds *)

(** Two files listing A and B, a station file with A alone: two
    simulations, one station, two rows in the PGA table, and a frame of two
    rows and one column for A. *)
Example build_two_files_one_station :
  let r := create_imdb station_file_A two_station_files 1 in
  cf_pc r = AtDone ∧
  map sim_name (simulations_tbl (cf_db r)) = ["sim_1"; "sim_2"] ∧
  map stn_name (stations_tbl (cf_db r)) = ["A"] ∧
  im_tables (cf_db r) !! sql_name "PGA"
  = Some [ImRow 1 1 0.25; ImRow 1 2 0.75] ∧
  o_result (station_ims (cf_db r) ∅ "A" None None)
  = Ok (AFrame (DataFrame ["sim_1"; "sim_2"] [("PGA", [0.25; 0.75]%float)])).
Proof. cbv zeta. repeat split; vm_compute; reflexivity. Qed.

(** One file none of whose stations is in the station file: the schema is
    there with its measure, and no simulation. *)
Example build_without_listed_station :
  let r := create_imdb station_file_A [Source "run_2" csv_elsewhere] 1 in
  cf_pc r = AtDone ∧ ims_tbl (cf_db r) = ["PGA"; "PGV"] ∧
  simulations_tbl (cf_db r) = [] ∧ stations_tbl (cf_db r) = [] ∧
  cf_out r = [MsgNoStations "run_2"; MsgComplete].
Proof. cbv zeta. repeat split; vm_compute; reflexivity. Qed.

(** ** The further properties on small run trees *)

Lemma station_file_last_line_wins_witness :
  (<["A" := ("3.0", "4.0")]> (<["A" := ("1.0", "2.0")]> ∅)
     : gmap string (string * string)) !! "A" = Some ("3.0", "4.0") ↔
  ∃ k, station_file_twice !! k = Some ["3.0"; "4.0"; "A"] ∧
       ∀ k' toks, (k < k')%nat → station_file_twice !! k' = Some toks →
                  toks !! 2%nat ≠ Some "A".
Proof.
  apply (station_file_last_line_wins station_file_twice). reflexivity.
Defined.

Lemma expand_stations_registers_witness :
  __expand_stations store_A ids_A ["A"] station_ll_A = Ok (store_A, ids_A).
Proof.
  apply (expand_stations_registers station_ll_A no_tables store_A ∅ ids_A
           ["A"]).
  reflexivity.
Defined.

Lemma expand_stations_rejects_witness :
  match __expand_stations no_tables ∅ ["A"; "A"] station_ll_A with
  | Ok _ => NoDup (filter (λ s, (∅ : gmap string Z) !! s = None) ["A"; "A"])
  | Raise e =>
      e = IntegrityError ∧
      ¬ NoDup (filter (λ s, (∅ : gmap string Z) !! s = None) ["A"; "A"])
  end.
Proof.
  refine (expand_stations_rejects station_ll_A no_tables ∅ ["A"; "A"] _ _).
  - intros s. simpl. rewrite lookup_empty. split; [by intros [? ?]|].
    by intros ?%elem_of_nil.
  - intros s Hs. apply (bool_decide_unpack _).
    repeat (apply elem_of_cons in Hs as [->|Hs]; [vm_compute; exact I|]).
    by apply elem_of_nil in Hs.
Defined.

Lemma build_without_worker_or_file_witness :
  build sample_station_ll [] 2
  = Config (AtRaised (if decide (2 = 0)%nat then ValueError else KeyError))
      ∅ no_tables ∅ [].
Proof.
  apply (build_without_worker_or_file sample_station_ll [] 2). by right.
Defined.



Lemma completed_build_measures_witness :
  ∃ src0 c0,
    sample_csvs !! 0%nat = Some src0 ∧
    __pandas_loader (src_csv src0) = Ok c0 ∧
    ims (cf_db (build sample_station_ll sample_csvs 2)) "imdb" = columns c0 ∧
    (∀ key,
       is_Some (im_tables (cf_db (build sample_station_ll sample_csvs 2))
                  !! key)
       ↔ key ∈ map sql_name (columns c0)) ∧
    ∀ src c im,
      src ∈ sample_csvs → __pandas_loader (src_csv src) = Ok c →
      listed_stations sample_station_ll (index_values c) ≠ [] →
      im ∈ columns c → sql_name im ∈ map sql_name (columns c0).
Proof.
  apply (completed_build_measures sample_station_ll sample_csvs 2).
  vm_compute. reflexivity.
Defined.



Lemma value_rows_refer_to_registries_witness :
  (∃ st, st ∈ stations_tbl (cf_db (build sample_station_ll sample_csvs 2)) ∧
         stn_id st = row_station_id (ImRow 2 2 3.5)) ∧
  (∃ s, s ∈ simulations_tbl (cf_db (build sample_station_ll sample_csvs 2)) ∧
        sim_id s = row_simulation_id (ImRow 2 2 3.5)).
Proof.
  apply (value_rows_refer_to_registries sample_station_ll sample_csvs 2
           (build sample_station_ll sample_csvs 2) (sql_name "PGA")
           [ImRow 1 1 0.5; ImRow 2 1 1.5; ImRow 2 2 3.5]).
  - apply build_reachable.
  - vm_compute. reflexivity.
  - do 2 right. left.
Defined.

Lemma pool_size_does_not_matter_witness :
  outcome_of (build sample_station_ll sample_csvs 1)
  = outcome_of (build sample_station_ll sample_csvs 3) ∧
  outcome_of (build sample_station_ll sample_csvs 1)
  = sequential_build sample_station_ll sample_csvs 1.
Proof.
  apply (pool_size_does_not_matter sample_station_ll sample_csvs 1 3); lia.
Defined.

Lemma two_station_files_well_formed :
  Forall (stations_once station_ll_A) two_station_files.
Proof.
  unfold two_station_files.
  repeat (apply Forall_cons_2;
          [intros c H; vm_compute in H; injection H as <-;
           apply (bool_decide_unpack _); vm_compute; exact I|]).
  apply Forall_nil_2.
Qed.


Lemma assembled_frame_columns_witness :
  map fst (df_cols sample_frame) = ims_tbl sample_store ∧
  (∃ im0 tbl0,
     head (ims_tbl sample_store) = Some im0 ∧
     im_tables sample_store !! sql_name im0 = Some tbl0 ∧
     length (df_index sample_frame)
     = length (filter (λ r, row_station_id r = 2%Z) tbl0)) ∧
  Forall (λ col,
     ∃ tbl, im_tables sample_store !! sql_name col.1 = Some tbl ∧
       (length (select_station tbl 2) ≤ length (df_index sample_frame))%nat ∧
       col.2 = map row_value (select_station tbl 2)
               ++ replicate (length (df_index sample_frame)
                             - length (select_station tbl 2))
                    0%float)
    (df_cols sample_frame).
Proof.
  apply (assembled_frame_columns sample_store 2 None sample_frame
           [StoreSelect; StoreSelect; StoreSelect; PoolMap 2 2; StoreSelect]).
  vm_compute. reflexivity.
Defined.

Lemma twice_stored_station_cannot_be_queried_witness :
  let o := station_ims twice_store ∅ "A" None None in
  (∃ e, o_result o = Raise e) ∧ o_cache o = ∅.
Proof.
  apply (twice_stored_station_cannot_be_queried twice_store ∅ "A"
           (StationRow 1 "A" "0.0" "0.0") "PGA"
           [ImRow 1 1 0.25; ImRow 1 2 0.5; ImRow 1 2 0.75; ImRow 1 2 0.5;
            ImRow 1 2 0.75]).
  - apply (bool_decide_unpack _). vm_compute. exact I.
  - reflexivity.
  - vm_compute. reflexivity.
  - vm_compute. reflexivity.
  - vm_compute. reflexivity.
  - apply (bool_decide_unpack _). vm_compute. exact I.
Defined.

Lemma station_details_lists_registry_witness :
  Forall2 (stands_for (λ _, Ok 0%Z)) (stations_tbl sample_store)
    (details_records
       (Stations [StationRec 1 "LONGNAM" 0%Z 0%Z; StationRec 2 "A" 0%Z 0%Z])).
Proof.
  apply (station_details_lists_registry Z (λ _, Ok 0%Z) sample_store).
  vm_compute. reflexivity.
Defined.

Lemma station_details_selects_witness :
  (∀ st r station_id,
     st ∈ stations_tbl sample_store → stands_for (λ _, Ok 0%Z) st r →
     station_details Z (λ _, Ok 0%Z) sample_store (Some (stn_name st))
       station_id
     = Ok (OneStation r)) ∧
  (∀ st r,
     st ∈ stations_tbl sample_store → stands_for (λ _, Ok 0%Z) st r →
     station_details Z (λ _, Ok 0%Z) sample_store None (Some (stn_id st))
     = Ok (OneStation r)) ∧
  (∀ name station_id,
     name ∉ map stn_name (stations_tbl sample_store) →
     station_details Z (λ _, Ok 0%Z) sample_store (Some name) station_id
     = Ok (Stations [])) ∧
  (∀ id,
     id ∉ map stn_id (stations_tbl sample_store) →
     station_details Z (λ _, Ok 0%Z) sample_store None (Some id)
     = Ok (Stations [])).
Proof.
  apply (station_details_selects Z (λ _, Ok 0%Z) sample_store);
    apply (bool_decide_unpack _); vm_compute; exact I.
Defined.

Lemma closest_station_on_registry_witness :
  ∃ r, r ∈ [StationRec 1 "LONGNAM" 0%Z 0%Z; StationRec 2 "A" 0%Z 0%Z] ∧
    closest_station Z (λ _, Ok 0%Z) (λ _, 0%Z) id id Z.add Z.sub Z.mul Z.div
      id id id id (λ y _, y) 6378%Z Z.ltb sample_store 0%float 0%float
    = Ok (r, haversine Z (λ _, 0%Z) id id Z.add Z.sub Z.mul Z.div id id id id
               (λ y _, y) 6378%Z 0%float 0%float r).
Proof.
  apply (closest_station_on_registry Z (λ _, Ok 0%Z) (λ _, 0%Z) id id
           Z.add Z.sub Z.mul Z.div id id id id (λ y _, y) 6378%Z Z.ltb
           sample_store 0%float 0%float
           [StationRec 1 "LONGNAM" 0%Z 0%Z; StationRec 2 "A" 0%Z 0%Z]).
  eapply Forall2_impl.
  - apply (mapM_Forall2 (to_record Z (λ _, Ok 0%Z))). vm_compute. reflexivity.
  - intros st r. apply to_record_stands_for.
Defined.

Lemma sample_files_well_formed : well_formed sample_station_ll sample_csvs.
Proof.
  unfold well_formed, sample_csvs. split; [|split; [|split; [|split]]].
  - repeat (apply Forall_cons_2; [reflexivity|]). apply Forall_nil_2.
  - exists (Source "run_1" csv_one). split; [reflexivity|].
    split; [apply (bool_decide_unpack _); vm_compute; exact I|].
    split; [apply (bool_decide_unpack _); vm_compute; exact I|].
    apply Forall_forall. intros src Hsrc im Him.
    apply list_elem_of_filter in Hsrc as [_ Hsrc].
    apply list_elem_of_In in Him.
    repeat (apply elem_of_cons in Hsrc as [->|Hsrc];
            [vm_compute in Him; destruct Him as [<-|[<-|[]]];
             apply (bool_decide_unpack _); vm_compute; exact I|]).
    by apply elem_of_nil in Hsrc.
  - apply (bool_decide_unpack _). vm_compute. exact I.
  - repeat (apply Forall_cons_2;
            [intros c H; vm_compute in H; injection H as <-;
             apply (bool_decide_unpack _); vm_compute; exact I|]).
    apply Forall_nil_2.
  - repeat (apply Forall_cons_2;
            [intros r j Hr _ Hj; apply list_elem_of_In in Hr;
             vm_compute in Hj; vm_compute in Hr;
             repeat (destruct Hr as [<-|Hr];
                     [do 2 (destruct j as [|j]; [reflexivity|]); lia|]);
             destruct Hr|]).
    apply Forall_nil_2.
Qed.


Lemma query_pool_size_does_not_matter_witness :
  let o := station_ims sample_store ∅ "A" (Some "PGV") (Some 1%nat) in
  let o' := station_ims sample_store ∅ "A" (Some "PGV") None in
  o_result o = o_result o' ∧ o_cache o = o_cache o' ∧ o_out o = o_out o'.
Proof.
  apply (query_pool_size_does_not_matter sample_store ∅ "A" (Some "PGV")
           (Some 1%nat) None); done.
Defined.
